(** * psutil/__init__.py: process identity, enumeration, waiting and CPU sampling

    A shallow embedding of the process-identity and sampling engine of
    [psutil/__init__.py] (psutil 2.1.1 as shipped in
    ambari-metrics-host-monitoring), of the information getters of
    [Process] that compute something ([name], [exe], [memory_percent],
    [memory_maps], [as_dict]), of [Popen] and of the system-wide counters
    of disks and network interfaces.

    Conventions of the embedding:
    - Python floats (creation times, CPU-time counters, timer readings,
      percentages) are idealised as rationals [Q]; a division whose divisor
      is zero raises [ZeroDivisionError], as in Python.
    - the platform module [_psplatform], the [os]/[time] calls and the
      user's callback are the environment: they act on an abstract world
      [W] through the operations of the class [Platform].
    - [Process] objects live in a store addressed by references, so that
      object identity and aliasing (the enumeration cache [_pmap], the sets
      of [wait_procs]) are visible.
    - Python code that raises returns [Raise e]; mutations made before the
      exception stay in the state. *)

From Stdlib Require Import ZArith QArith Qround Lia Lqa List Bool Ascii String.
From stdpp Require Import base option list gmap sorting strings.

Local Open Scope Z_scope.

(** ** Exceptions and results *)

Inductive exn : Type :=
  | NoSuchProcess (pid : Z)
  | AccessDenied
  | TimeoutExpired
  | ValueError
  | TypeError
  | AttributeError
  | ZeroDivisionError
  | OSError (errno : Z).

Inductive result (A : Type) : Type :=
  | Ok (a : A)
  | Raise (e : exn).
Arguments Ok {A} a.
Arguments Raise {A} e.

Definition is_NoSuchProcess (e : exn) : bool :=
  match e with NoSuchProcess _ => true | _ => false end.

Definition rbind {A B} (m : result A) (k : A -> result B) : result B :=
  match m with
  | Ok a => k a
  | Raise e => Raise e
  end.

Declare Scope result_scope.
Delimit Scope result_scope with result.
Notation "'do' x <- m ; k" := (rbind m (fun x => k))
  (at level 10, x name, m at level 100, k at level 200) : result_scope.

(** ** Numbers *)

(** [a / b] on floats: raises [ZeroDivisionError] when [b] is zero. *)
Definition truediv (a b : Q) : result Q :=
  if Qeq_bool b 0 then Raise ZeroDivisionError else Ok (a / b)%Q.

(** [round(x, 1)] of Python 2: to one decimal, halves away from zero. *)
Definition round1 (x : Q) : Q :=
  let y := (x * 10)%Q in
  let n := if Qle_bool 0 y then Qfloor (y + (1 # 2))%Q
           else - Qfloor (- y + (1 # 2))%Q in
  Qred (n # 10).

Definition Qmin (a b : Q) : Q := if Qle_bool a b then a else b.

(** ** Named tuples of CPU times

    [scputimes] (system-wide; the fields depend on the platform, ["idle"] is
    one of them on every platform) and [pcputimes] (per process). *)

Definition namedtuple : Type := list (string * Q).

Definition _fields (t : namedtuple) : list string := map fst t.

Definition getattr (t : namedtuple) (field : string) : result Q :=
  match find (fun kv => String.eqb (fst kv) field) t with
  | Some kv => Ok (snd kv)
  | None => Raise AttributeError
  end.

(** The builtin [sum] over the values of a tuple. *)
Definition fsum (t : namedtuple) : Q := fold_left Qplus (map snd t) 0%Q.

Record pcputimes : Type := { pt_user : Q; pt_system : Q }.

(** ** System-wide CPU percentages: the two [calculate] closures *)

Module CpuPercent.

(** [calculate] of [cpu_percent]. *)
Definition calculate (t1 t2 : namedtuple) : result Q :=
  (let t1_all := fsum t1 in
   do idle1 <- getattr t1 "idle";
   let t1_busy := (t1_all - idle1)%Q in
   let t2_all := fsum t2 in
   do idle2 <- getattr t2 "idle";
   let t2_busy := (t2_all - idle2)%Q in
   if Qle_bool t2_busy t1_busy then Ok 0%Q
   else
     let busy_delta := (t2_busy - t1_busy)%Q in
     let all_delta := (t2_all - t1_all)%Q in
     do q <- truediv busy_delta all_delta;
     let busy_perc := (q * 100)%Q in
     Ok (round1 busy_perc))%result.

End CpuPercent.

Module CpuTimesPercent.

(** The workaround for Windows: force a percentage into [0, 100]. *)
Definition clamp (field_perc : Q) : Q :=
  if Qlt_le_dec 100 field_perc then 100%Q
  else if Qlt_le_dec field_perc 0 then 0%Q
  else field_perc.

(** The body of the loop [for field in t1._fields] for one field. *)
Definition field_step (_WINDOWS : bool) (t1 t2 : namedtuple) (all_delta : Q)
    (field : string) : result Q :=
  (do v2 <- getattr t2 field;
   do v1 <- getattr t1 field;
   let field_delta := (v2 - v1)%Q in
   let field_perc :=
     match truediv (100 * field_delta)%Q all_delta with
     | Ok q => q
     | Raise _ => 0%Q
     end in
   let field_perc := round1 field_perc in
   let field_perc := if _WINDOWS then clamp field_perc else field_perc in
   Ok field_perc)%result.

Fixpoint loop (_WINDOWS : bool) (t1 t2 : namedtuple) (all_delta : Q)
    (fields : list string) (nums : list Q) : result (list Q) :=
  match fields with
  | [] => Ok nums
  | field :: rest =>
      (do field_perc <- field_step _WINDOWS t1 t2 all_delta field;
       loop _WINDOWS t1 t2 all_delta rest (nums ++ [field_perc]))%result
  end.

(** [calculate] of [cpu_times_percent]; the constructor call on the
    unpacked [nums] pairs the values with the field names of the
    platform's tuple type, which is the type of [t1]. *)
Definition calculate (_WINDOWS : bool) (t1 t2 : namedtuple) : result namedtuple :=
  (let all_delta := (fsum t2 - fsum t1)%Q in
   do nums <- loop _WINDOWS t1 t2 all_delta (_fields t1) [];
   Ok (combine (_fields t1) nums))%result.

(** The percentage of one field as the specification words it:
    [round((100 * field_delta) / total_delta, 1)], [0.0] when the total
    delta is zero. *)
Definition spec_field_percent (field_delta total_delta : Q) : Q :=
  if Qeq_bool total_delta 0 then 0%Q
  else round1 ((100 * field_delta) / total_delta)%Q.

(** What the specification has [calculate] store for a field whose
    values in the two samples are [fst v] and [snd v]. *)
Definition field_result (_WINDOWS : bool) (all_delta : Q) (v : Q * Q) : Q :=
  let p := spec_field_percent (snd v - fst v) all_delta in
  if _WINDOWS then clamp p else p.

End CpuTimesPercent.

(** ** The environment

    Mutating calls into the platform and the operating system.  They are
    recorded in the log of the state, so that "the operation had no effect"
    can be stated. *)

Inductive action : Type :=
  | NiceSet (pid value : Z)
  | IoniceSet (pid ioclass : Z) (value : option Z)
  | RlimitSet (pid resource : Z) (limits : Z * Z)
  | CpuAffinitySet (pid : Z) (cpus : list Z)
  | ProcSuspend (pid : Z)
  | ProcResume (pid : Z)
  | ProcKill (pid : Z)
  | OsKill (pid sig : Z).

(** What [_psplatform], [os], [time] and [signal] provide.  Every call may
    change the world; the calls on a process may raise. *)
Class Platform (W : Type) : Type := {
  _POSIX : bool;
  _WINDOWS : bool;
  plat_pids : W -> list Z * W;
  plat_pid_exists : Z -> W -> bool * W;
  plat_ppid_map : option (W -> list (Z * Z) * W);
  plat_cpu_count_logical : Z;
  plat_cpu_times : W -> namedtuple * W;
  plat_per_cpu_times : W -> list namedtuple * W;
  plat_timer : W -> Q * W;
  plat_sleep : Q -> W -> W;
  proc_create_time : Z -> W -> result Q * W;
  proc_ppid : Z -> W -> result (option Z) * W;
  proc_cpu_times : Z -> W -> result pcputimes * W;
  proc_wait : Z -> option Q -> W -> result (option Z) * W;
  proc_nice_get : Z -> W -> result Z * W;
  proc_ionice_get : Z -> W -> result (Z * Z) * W;
  proc_rlimit_get : Z -> Z -> W -> result (Z * Z) * W;
  proc_cpu_affinity_get : Z -> W -> result (list Z) * W;
  plat_act : action -> W -> result unit * W;
}.

Definition ESRCH : Z := 3.
Definition EPERM : Z := 1.
Definition SIGKILL : Z := 9.
Definition SIGTERM : Z := 15.
Definition SIGCONT : Z := 18.
Definition SIGSTOP : Z := 19.

(** ** Process objects and the state of the module *)

(** A reference to an object of the store. *)
Abbreviation ref := nat (only parsing).

Definition ident : Type := (Z * option Q)%type.

(** The attributes of a [Process] that the engine uses ([_name], [_exe]
    and [_hash] are caches of no consequence here); [returncode] is the
    attribute that [wait_procs] adds: [None] while the attribute does not
    exist, [Some None] when it holds [None]. *)
Record Process : Type := mkProcess {
  _pid : Z;
  _create_time : option Q;
  _gone : bool;
  _ppid : option Z;
  _last_sys_cpu_times : option Q;
  _last_proc_cpu_times : option pcputimes;
  _ident : option ident;
  returncode : option (option Z);
}.

Definition set_create_time (v : option Q) (p : Process) : Process :=
  mkProcess (_pid p) v (_gone p) (_ppid p) (_last_sys_cpu_times p)
    (_last_proc_cpu_times p) (_ident p) (returncode p).
Definition set_gone (v : bool) (p : Process) : Process :=
  mkProcess (_pid p) (_create_time p) v (_ppid p) (_last_sys_cpu_times p)
    (_last_proc_cpu_times p) (_ident p) (returncode p).
Definition set_ppid (v : option Z) (p : Process) : Process :=
  mkProcess (_pid p) (_create_time p) (_gone p) v (_last_sys_cpu_times p)
    (_last_proc_cpu_times p) (_ident p) (returncode p).
Definition set_last_times (st : option Q) (pt : option pcputimes) (p : Process) : Process :=
  mkProcess (_pid p) (_create_time p) (_gone p) (_ppid p) st pt (_ident p)
    (returncode p).
Definition set_ident (v : option ident) (p : Process) : Process :=
  mkProcess (_pid p) (_create_time p) (_gone p) (_ppid p) (_last_sys_cpu_times p)
    (_last_proc_cpu_times p) v (returncode p).
Definition set_returncode (v : option (option Z)) (p : Process) : Process :=
  mkProcess (_pid p) (_create_time p) (_gone p) (_ppid p) (_last_sys_cpu_times p)
    (_last_proc_cpu_times p) (_ident p) v.

(** The object that [Process(pid)] leaves when it returns: [ct] is the
    creation time it could read. *)
Definition new_process (pid : Z) (ct : option Q) (gone : bool) : Process :=
  mkProcess pid ct gone None None None (Some (pid, ct)) None.

(** The entries of the log: a mutating call, or a call of the callback of
    [wait_procs] together with the sets [gone] and [alive] as they are at
    that moment. *)
Inductive event : Type :=
  | EvAct (a : action)
  | EvCallback (proc : ref) (gone alive : list ref).

Record State (W : Type) : Type := mkState {
  world : W;
  heap : ref -> Process;
  next_ref : ref;
  _pmap : gmap Z ref;
  _last_cpu_times : namedtuple;
  _last_per_cpu_times : list namedtuple;
  _last_cpu_times_2 : namedtuple;
  _last_per_cpu_times_2 : list namedtuple;
  log : list event;
}.
Arguments mkState {W}.
Arguments world {W}.
Arguments heap {W}.
Arguments next_ref {W}.
Arguments _pmap {W}.
Arguments _last_cpu_times {W}.
Arguments _last_per_cpu_times {W}.
Arguments _last_cpu_times_2 {W}.
Arguments _last_per_cpu_times_2 {W}.
Arguments log {W}.

Definition set_world {W} (w : W) (s : State W) : State W :=
  mkState w (heap s) (next_ref s) (_pmap s) (_last_cpu_times s)
    (_last_per_cpu_times s) (_last_cpu_times_2 s) (_last_per_cpu_times_2 s) (log s).
Definition set_heap {W} (h : ref -> Process) (n : ref) (s : State W) : State W :=
  mkState (world s) h n (_pmap s) (_last_cpu_times s)
    (_last_per_cpu_times s) (_last_cpu_times_2 s) (_last_per_cpu_times_2 s) (log s).
Definition set_pmap {W} (m : gmap Z ref) (s : State W) : State W :=
  mkState (world s) (heap s) (next_ref s) m (_last_cpu_times s)
    (_last_per_cpu_times s) (_last_cpu_times_2 s) (_last_per_cpu_times_2 s) (log s).
Definition set_last_cpu_times {W} (t : namedtuple) (s : State W) : State W :=
  mkState (world s) (heap s) (next_ref s) (_pmap s) t
    (_last_per_cpu_times s) (_last_cpu_times_2 s) (_last_per_cpu_times_2 s) (log s).
Definition set_last_per_cpu_times {W} (t : list namedtuple) (s : State W) : State W :=
  mkState (world s) (heap s) (next_ref s) (_pmap s) (_last_cpu_times s)
    t (_last_cpu_times_2 s) (_last_per_cpu_times_2 s) (log s).
Definition set_last_cpu_times_2 {W} (t : namedtuple) (s : State W) : State W :=
  mkState (world s) (heap s) (next_ref s) (_pmap s) (_last_cpu_times s)
    (_last_per_cpu_times s) t (_last_per_cpu_times_2 s) (log s).
Definition set_last_per_cpu_times_2 {W} (t : list namedtuple) (s : State W) : State W :=
  mkState (world s) (heap s) (next_ref s) (_pmap s) (_last_cpu_times s)
    (_last_per_cpu_times s) (_last_cpu_times_2 s) t (log s).
Definition add_log {W} (e : event) (s : State W) : State W :=
  mkState (world s) (heap s) (next_ref s) (_pmap s) (_last_cpu_times s)
    (_last_per_cpu_times s) (_last_cpu_times_2 s) (_last_per_cpu_times_2 s)
    (log s ++ [e]).

(** ** The monad of the embedding: state and exceptions *)

Definition M (W A : Type) : Type := State W -> result A * State W.

Definition ret {W A} (a : A) : M W A := fun s => (Ok a, s).
Definition raise {W A} (e : exn) : M W A := fun s => (Raise e, s).
Definition bind {W A B} (m : M W A) (k : A -> M W B) : M W B :=
  fun s => match m s with
           | (Ok a, s') => k a s'
           | (Raise e, s') => (Raise e, s')
           end.
(** [try: m  except: handler] (the handler chooses by the exception and
    re-raises what it does not catch). *)
Definition try_except {W A} (m : M W A) (handler : exn -> M W A) : M W A :=
  fun s => match m s with
           | (Ok a, s') => (Ok a, s')
           | (Raise e, s') => handler e s'
           end.
(** [try: m  except: handler  else: k]. *)
Definition try_except_else {W A B} (m : M W A) (handler : exn -> M W B)
    (k : A -> M W B) : M W B :=
  fun s => match m s with
           | (Ok a, s') => k a s'
           | (Raise e, s') => handler e s'
           end.

Declare Scope monad_scope.
Delimit Scope monad_scope with monad.
Notation "'let*' x ':=' m 'in' k" := (bind m (fun x => k))
  (at level 10, x name, m at level 100, k at level 200) : monad_scope.
Notation "m ';;' k" := (bind m (fun _ => k))
  (at level 100, k at level 200, right associativity) : monad_scope.
Local Open Scope monad_scope.

(** ** Pure parts of the engine *)

Definition opt_Qeqb (a b : option Q) : bool :=
  match a, b with
  | Some x, Some y => Qeq_bool x y
  | None, None => true
  | _, _ => false
  end.

(** Equality of two [_ident] attributes (tuples [(pid, create_time)]). *)
Definition ident_eqb (a b : option ident) : bool :=
  match a, b with
  | Some (p1, c1), Some (p2, c2) => (p1 =? p2) && opt_Qeqb c1 c2
  | None, None => true
  | _, _ => false
  end.

(** The tail of [Process.cpu_percent], from [delta_proc] on, without the
    two assignments to the cache. *)
Definition overall_percent (st1 st2 : Q) (pt1 pt2 : pcputimes) (num_cpus : Z) : Q :=
  let delta_proc :=
    ((pt_user pt2 - pt_user pt1) + (pt_system pt2 - pt_system pt1))%Q in
  let delta_time := (st2 - st1)%Q in
  match truediv delta_proc delta_time with
  | Ok q => round1 ((q * 100) * inject_Z num_cpus)%Q
  | Raise _ => 0%Q
  end.

(** What the module-level percentage functions return: one value, or
    one value per CPU. *)
Inductive percent (A : Type) : Type :=
  | SystemWide (v : A)
  | PerCpu (l : list A).
Arguments SystemWide {A} v.
Arguments PerCpu {A} l.

(** The loop [for t1, t2 in zip(tot1, tot2): ret.append(calculate(t1, t2))]. *)
Fixpoint zip_calculate {A} (calculate : namedtuple -> namedtuple -> result A)
    (tot1 tot2 : list namedtuple) (ret_ : list A) : result (list A) :=
  match tot1, tot2 with
  | t1 :: r1, t2 :: r2 =>
      (do v <- calculate t1 t2;
       zip_calculate calculate r1 r2 (ret_ ++ [v]))%result
  | _, _ => Ok ret_
  end.

Definition is_blocking (interval : option Q) : bool :=
  match interval with
  | Some i => negb (Qle_bool i 0)
  | None => false
  end.

(** An item of the loop of [process_iter]: a pid and its cached object,
    [None] for a new pid. *)
Definition item : Type := (Z * option ref)%type.

(** The order of [sorted] on the items.  The pids of the items are pairwise
    different, so the comparison of two tuples is decided by the pids. *)
Definition item_le (x y : item) : Prop := fst x <= fst y.

Global Instance item_le_dec (x y : item) : Decision (item_le x y) :=
  Z_le_dec (fst x) (fst y).

(** The [defaultdict(list)] of [children]; the keys are what [ppid()]
    returns. *)
Definition table_get (table : gmap (option Z) (list ref)) (k : option Z) : list ref :=
  default [] (table !! k).

Definition table_append (table : gmap (option Z) (list ref)) (k : option Z) (p : ref)
    : gmap (option Z) (list ref) :=
  <[k := table_get table k ++ [p]]> table.

(** Sets of [Process] objects, as [wait_procs] uses them: membership is
    decided by [__eq__], that is by [_ident].  A set is kept as the list of
    its elements in the order of their insertion. *)
Definition proc_eqb (h : ref -> Process) (a b : ref) : bool :=
  ident_eqb (_ident (h a)) (_ident (h b)).

Definition set_mem (h : ref -> Process) (x : ref) (s : list ref) : bool :=
  existsb (proc_eqb h x) s.

Definition set_add (h : ref -> Process) (x : ref) (s : list ref) : list ref :=
  if set_mem h x s then s else s ++ [x].

Definition set_of_list (h : ref -> Process) (l : list ref) : list ref :=
  fold_left (fun s x => set_add h x s) l [].

Definition set_diff (h : ref -> Process) (a b : list ref) : list ref :=
  List.filter (fun x => negb (set_mem h x b)) a.

(** What the loop [for pid in checkpids] has done when it ends: the
    result [ret], the final [checkpids], and the pids it has expanded, in
    order (kept for the statements about the walk). *)
Record walked : Type := mkWalked {
  w_ret : list ref;
  w_checkpids : list Z;
  w_expanded : list Z;
}.

Section Engine.

Context {W : Type} {P : Platform W}.

(** *** Access to the store, the globals and the environment *)

Definition deref (r : ref) : M W Process := fun s => (Ok (heap s r), s).

Definition update (r : ref) (f : Process -> Process) : M W unit :=
  fun s => (Ok tt,
            set_heap (fun r' => if Nat.eqb r' r then f (heap s r) else heap s r')
                     (next_ref s) s).

Definition alloc (p : Process) : M W ref :=
  fun s => (Ok (next_ref s),
            set_heap (fun r' => if Nat.eqb r' (next_ref s) then p else heap s r')
                     (S (next_ref s)) s).

Definition get {A} (f : State W -> A) : M W A := fun s => (Ok (f s), s).

Definition modify (f : State W -> State W) : M W unit := fun s => (Ok tt, f s).

(** A call into the environment that cannot raise, and one that can. *)
Definition call {A} (f : W -> A * W) : M W A :=
  fun s => let (a, w) := f (world s) in (Ok a, set_world w s).

Definition call_r {A} (f : W -> result A * W) : M W A :=
  fun s => let (a, w) := f (world s) in (a, set_world w s).

(** A mutating call: logged, then performed. *)
Definition act (a : action) : M W unit :=
  modify (add_log (EvAct a)) ;; call_r (plat_act a).

Definition lift {A} (r : result A) : M W A := fun s => (r, s).

(** *** The [Process] class *)

(** [Process.create_time]: cached after the first call. *)
Definition create_time (self : ref) : M W Q :=
  let* p := deref self in
  match _create_time p with
  | None =>
      let* t := call_r (proc_create_time (_pid p)) in
      update self (set_create_time (Some t)) ;;
      ret t
  | Some t => ret t
  end.

(** [Process._init] on a pid that is given (not [None]) and an integer. *)
Definition _init (pid : Z) (_ignore_nsp : bool) : M W ref :=
  if pid <? 0 then raise ValueError
  else
    let* self := alloc (mkProcess pid None false None None None None None) in
    try_except (create_time self ;; ret tt)
      (fun e => match e with
                | AccessDenied => ret tt
                | NoSuchProcess _ =>
                    if negb _ignore_nsp then raise (NoSuchProcess pid)
                    else update self (set_gone true)
                | _ => raise e
                end) ;;
    let* p := deref self in
    update self (set_ident (Some (_pid p, _create_time p))) ;;
    ret self.

(** [Process(pid)]. *)
Definition Process_ (pid : Z) : M W ref := _init pid false.

(** [Process.__eq__] on two [Process] objects. *)
Definition __eq__ (self other : ref) : M W bool :=
  let* p := deref self in
  let* q := deref other in
  ret (ident_eqb (_ident p) (_ident q)).

(** [Process.is_running]. *)
Definition is_running (self : ref) : M W bool :=
  let* p := deref self in
  if _gone p then ret false
  else
    try_except
      (let* other := Process_ (_pid p) in __eq__ self other)
      (fun e => match e with
                | NoSuchProcess _ => update self (set_gone true) ;; ret false
                | _ => raise e
                end).

(** The decorator [_assert_pid_not_reused]. *)
Definition _assert_pid_not_reused {A} (fun_ : ref -> M W A) (self : ref) : M W A :=
  let* running := is_running self in
  if negb running then
    let* p := deref self in raise (NoSuchProcess (_pid p))
  else fun_ self.

(** [Process.ppid]: cached after the first call except on POSIX. *)
Definition ppid (self : ref) : M W (option Z) :=
  let* p := deref self in
  if _POSIX then call_r (proc_ppid (_pid p))
  else
    match _ppid p with
    | None =>
        let* v := call_r (proc_ppid (_pid p)) in
        update self (set_ppid v) ;;
        ret v
    | Some v => ret (Some v)
    end.

(** [Process.parent]. *)
Definition parent (self : ref) : M W (option ref) :=
  let* ppid_ := ppid self in
  match ppid_ with
  | Some pp =>
      try_except
        (let* parent_ := Process_ pp in
         let* pc := create_time parent_ in
         let* sc := create_time self in
         if Qle_bool pc sc then ret (Some parent_) else ret None)
        (fun e => match e with
                  | NoSuchProcess _ => ret None
                  | _ => raise e
                  end)
  | None => ret None
  end.

(** [Process.nice]. *)
Definition nice (self : ref) (value : option Z) : M W (option Z) :=
  let* p := deref self in
  match value with
  | None => let* v := call_r (proc_nice_get (_pid p)) in ret (Some v)
  | Some v =>
      let* running := is_running self in
      if negb running then raise (NoSuchProcess (_pid p))
      else act (NiceSet (_pid p) v) ;; ret None
  end.

(** [Process.ionice]. *)
Definition ionice (self : ref) (ioclass value : option Z) : M W (option (Z * Z)) :=
  let* p := deref self in
  match ioclass with
  | None =>
      match value with
      | Some _ => raise ValueError
      | None => let* v := call_r (proc_ionice_get (_pid p)) in ret (Some v)
      end
  | Some c => act (IoniceSet (_pid p) c value) ;; ret None
  end.

(** [Process.rlimit]. *)
Definition rlimit (self : ref) (resource : Z) (limits : option (Z * Z))
    : M W (option (Z * Z)) :=
  let* p := deref self in
  match limits with
  | None => let* v := call_r (proc_rlimit_get (_pid p) resource) in ret (Some v)
  | Some l => act (RlimitSet (_pid p) resource l) ;; ret None
  end.

(** [Process.cpu_affinity]. *)
Definition cpu_affinity (self : ref) (cpus : option (list Z)) : M W (option (list Z)) :=
  let* p := deref self in
  match cpus with
  | None => let* v := call_r (proc_cpu_affinity_get (_pid p)) in ret (Some v)
  | Some l => act (CpuAffinitySet (_pid p) l) ;; ret None
  end.

(** [Process._send_signal] (POSIX). *)
Definition _send_signal (self : ref) (sig : Z) : M W unit :=
  let* p := deref self in
  try_except (act (OsKill (_pid p) sig))
    (fun e => match e with
              | OSError errno =>
                  if errno =? ESRCH then
                    update self (set_gone true) ;; raise (NoSuchProcess (_pid p))
                  else if errno =? EPERM then raise AccessDenied
                  else raise e
              | _ => raise e
              end).

(** The bodies of the decorated methods, and the methods. *)
Definition send_signal_body (sig : Z) (self : ref) : M W unit :=
  if _POSIX then _send_signal self sig
  else
    if sig =? SIGTERM then let* p := deref self in act (ProcKill (_pid p))
    else raise ValueError.

Definition suspend_body (self : ref) : M W unit :=
  if _POSIX then _send_signal self SIGSTOP
  else let* p := deref self in act (ProcSuspend (_pid p)).

Definition resume_body (self : ref) : M W unit :=
  if _POSIX then _send_signal self SIGCONT
  else let* p := deref self in act (ProcResume (_pid p)).

Definition terminate_body (self : ref) : M W unit :=
  if _POSIX then _send_signal self SIGTERM
  else let* p := deref self in act (ProcKill (_pid p)).

Definition kill_body (self : ref) : M W unit :=
  if _POSIX then _send_signal self SIGKILL
  else let* p := deref self in act (ProcKill (_pid p)).

Definition send_signal (self : ref) (sig : Z) : M W unit :=
  _assert_pid_not_reused (send_signal_body sig) self.
Definition suspend : ref -> M W unit := _assert_pid_not_reused suspend_body.
Definition resume : ref -> M W unit := _assert_pid_not_reused resume_body.
Definition terminate : ref -> M W unit := _assert_pid_not_reused terminate_body.
Definition kill : ref -> M W unit := _assert_pid_not_reused kill_body.

(** [Process.wait]. *)
Definition wait (self : ref) (timeout : option Q) : M W (option Z) :=
  let* p := deref self in
  match timeout with
  | Some t =>
      if negb (Qle_bool 0 t) then raise ValueError
      else call_r (proc_wait (_pid p) timeout)
  | None => call_r (proc_wait (_pid p) timeout)
  end.

(** *** CPU functions of the module *)

(** [cpu_count()] (memoized, the logical count). *)
Definition cpu_count : Z := plat_cpu_count_logical.

(** [cpu_times(percpu=False)] and [cpu_times(percpu=True)]. *)
Definition cpu_times : M W namedtuple := call plat_cpu_times.
Definition per_cpu_times : M W (list namedtuple) := call plat_per_cpu_times.

(** The closure [timer] of [Process.cpu_percent]. *)
Definition timer (num_cpus : Z) : M W Q :=
  if _POSIX then
    let* t := call plat_timer in ret (t * inject_Z num_cpus)%Q
  else
    let* t := cpu_times in ret (fsum t).

(** [time.sleep(interval)]. *)
Definition sleep (interval : option Q) : M W unit :=
  modify (fun s => set_world (plat_sleep (default 0%Q interval) (world s)) s).

(** [Process.cpu_percent]. *)
Definition cpu_percent (self : ref) (interval : option Q) : M W Q :=
  let blocking := is_blocking interval in
  let num_cpus := cpu_count in
  let* p := deref self in
  if blocking then
    let* st1 := timer num_cpus in
    let* pt1 := call_r (proc_cpu_times (_pid p)) in
    sleep interval ;;
    let* st2 := timer num_cpus in
    let* pt2 := call_r (proc_cpu_times (_pid p)) in
    update self (set_last_times (Some st2) (Some pt2)) ;;
    ret (overall_percent st1 st2 pt1 pt2 num_cpus)
  else
    let st1 := _last_sys_cpu_times p in
    let pt1 := _last_proc_cpu_times p in
    let* st2 := timer num_cpus in
    let* pt2 := call_r (proc_cpu_times (_pid p)) in
    match st1, pt1 with
    | Some st1, Some pt1 =>
        update self (set_last_times (Some st2) (Some pt2)) ;;
        ret (overall_percent st1 st2 pt1 pt2 num_cpus)
    | _, _ =>
        update self (set_last_times (Some st2) (Some pt2)) ;;
        ret 0%Q
    end.

(** The module-level [cpu_percent], called [system_cpu_percent] here
    because the method of [Process] has the same name. *)
Definition system_cpu_percent (interval : option Q) (percpu : bool) : M W (percent Q) :=
  let blocking := is_blocking interval in
  if negb percpu then
    let* t1 := (if blocking then
                  let* t := cpu_times in sleep interval ;; ret t
                else get _last_cpu_times) in
    let* t2 := cpu_times in
    modify (set_last_cpu_times t2) ;;
    let* v := lift (CpuPercent.calculate t1 t2) in
    ret (SystemWide v)
  else
    let* tot1 := (if blocking then
                    let* t := per_cpu_times in sleep interval ;; ret t
                  else get _last_per_cpu_times) in
    let* tot2 := per_cpu_times in
    modify (set_last_per_cpu_times tot2) ;;
    let* l := lift (zip_calculate CpuPercent.calculate tot1 tot2 []) in
    ret (PerCpu l).

(** [cpu_times_percent]. *)
Definition cpu_times_percent (interval : option Q) (percpu : bool)
    : M W (percent namedtuple) :=
  let blocking := is_blocking interval in
  if negb percpu then
    let* t1 := (if blocking then
                  let* t := cpu_times in sleep interval ;; ret t
                else get _last_cpu_times_2) in
    let* t2 := cpu_times in
    modify (set_last_cpu_times_2 t2) ;;
    let* v := lift (CpuTimesPercent.calculate _WINDOWS t1 t2) in
    ret (SystemWide v)
  else
    let* tot1 := (if blocking then
                    let* t := per_cpu_times in sleep interval ;; ret t
                  else get _last_per_cpu_times_2) in
    let* tot2 := per_cpu_times in
    modify (set_last_per_cpu_times_2 tot2) ;;
    let* l := lift (zip_calculate (CpuTimesPercent.calculate _WINDOWS) tot1 tot2 []) in
    ret (PerCpu l).

(** The state right after the import of the module: nothing cached, no
    object, and the four module-level samples taken. *)
Definition import_module (w : W) : State W :=
  let (t, w1) := plat_cpu_times w in
  let (pt, w2) := plat_per_cpu_times w1 in
  mkState w2 (fun _ => mkProcess 0 None false None None None None None) 0%nat
    ∅ t pt t pt [].

(** *** Processes of the system *)

Definition pids : M W (list Z) := call plat_pids.

(** [pid_exists]. *)
Definition pid_exists (pid : Z) : M W bool :=
  if pid <? 0 then ret false
  else if (pid =? 0) && _POSIX then
    let* l := pids in ret (bool_decide (pid ∈ l))
  else call (plat_pid_exists pid).

(** *** [process_iter] *)

(** The local functions [add] and [remove]. *)
Definition add (pid : Z) : M W ref :=
  let* proc := Process_ pid in
  let* p := deref proc in
  modify (fun s => set_pmap (<[_pid p := proc]> (_pmap s)) s) ;;
  ret proc.

Definition remove (pid : Z) : M W unit :=
  modify (fun s => set_pmap (delete pid (_pmap s)) s).

Fixpoint for_each {A} (l : list A) (body : A -> M W unit) : M W unit :=
  match l with
  | [] => ret tt
  | x :: rest => body x ;; for_each rest body
  end.

(** The generator up to its loop: the cache is purged of the pids that
    are gone, and the items of the loop are fixed. *)
Definition process_iter_items : M W (list item) :=
  let* l := pids in
  let* pm := get _pmap in
  let a : gset Z := list_to_set l in
  let b : gset Z := dom pm in
  let new_pids := a ∖ b in
  let gone_pids := b ∖ a in
  for_each (elements gone_pids) remove ;;
  let* pm := get _pmap in
  ret (merge_sort item_le
         (((fun kv : Z * ref => (fst kv, Some (snd kv))) <$> map_to_list pm)
          ++ ((fun pid : Z => (pid, None)) <$> elements new_pids))).

(** One turn of the loop of the generator: [Some proc] when it yields
    [proc], [None] when it yields nothing.  (The handler of [AccessDenied]
    yields the cached object; no statement of the [try] block raises
    [AccessDenied], see [process_iter_try_not_AccessDenied].) *)
Definition process_iter_step (it : item) : M W (option ref) :=
  let (pid, proc) := it in
  try_except
    (match proc with
     | None => let* q := add pid in ret (Some q)
     | Some pr =>
         let* running := is_running pr in
         if running then ret (Some pr)
         else let* q := add pid in ret (Some q)
     end)
    (fun e => match e with
              | NoSuchProcess _ => remove pid ;; ret None
              | AccessDenied => ret proc
              | _ => raise e
              end).

(** [for p in <the generator at its loop>: acc = body(p, acc)]. *)
Fixpoint process_iter_loop {A} (items : list item) (body : ref -> A -> M W A)
    (acc : A) : M W A :=
  match items with
  | [] => ret acc
  | it :: rest =>
      let* y := process_iter_step it in
      let* acc' := match y with
                   | Some p => body p acc
                   | None => ret acc
                   end in
      process_iter_loop rest body acc'
  end.

(** [for p in process_iter(): acc = body(p, acc)]. *)
Definition process_iter_for {A} (body : ref -> A -> M W A) (acc : A) : M W A :=
  let* items := process_iter_items in
  process_iter_loop items body acc.

(** [list(process_iter())]. *)
Definition process_iter : M W (list ref) :=
  process_iter_for (fun p acc => ret (acc ++ [p])) [].

(** *** [Process.children] *)

Definition except_NoSuchProcess {A} (m : M W A) (otherwise : A) : M W A :=
  try_except m (fun e => match e with
                         | NoSuchProcess _ => ret otherwise
                         | _ => raise e
                         end).

(** The two loops of the non-recursive mode. *)
Definition children_slow (self : ref) (self_pid : Z) : M W (list ref) :=
  process_iter_for
    (fun p ret_ =>
       except_NoSuchProcess
         (let* pp := ppid p in
          if bool_decide (pp = Some self_pid) then
            let* sc := create_time self in
            let* pc := create_time p in
            if Qle_bool sc pc then ret (ret_ ++ [p]) else ret ret_
          else ret ret_)
         ret_)
    [].

Fixpoint children_fast (self : ref) (self_pid : Z) (ppid_map : list (Z * Z))
    (ret_ : list ref) : M W (list ref) :=
  match ppid_map with
  | [] => ret ret_
  | (pid, ppid_) :: rest =>
      let* ret' :=
        (if ppid_ =? self_pid then
           except_NoSuchProcess
             (let* child := Process_ pid in
              let* sc := create_time self in
              let* cc := create_time child in
              if Qle_bool sc cc then ret (ret_ ++ [child]) else ret ret_)
             ret_
         else ret ret_) in
      children_fast self self_pid rest ret'
  end.

(** The two ways to fill the table of the recursive mode. *)
Definition table_slow : M W (gmap (option Z) (list ref)) :=
  process_iter_for
    (fun p table =>
       except_NoSuchProcess
         (let* pp := ppid p in ret (table_append table pp p))
         table)
    ∅.

Fixpoint table_fast (ppid_map : list (Z * Z)) (table : gmap (option Z) (list ref))
    : M W (gmap (option Z) (list ref)) :=
  match ppid_map with
  | [] => ret table
  | (pid, ppid_) :: rest =>
      let* table' :=
        except_NoSuchProcess
          (let* p := Process_ pid in ret (table_append table (Some ppid_) p))
          table in
      table_fast rest table'
  end.

(** The loop [for child in table[pid]]; it extends [ret] and [checkpids]. *)
Fixpoint descend (self : ref) (kids : list ref) (ret_ : list ref)
    (checkpids : list Z) : M W (list ref * list Z) :=
  match kids with
  | [] => ret (ret_, checkpids)
  | child :: rest =>
      let* r :=
        try_except_else
          (let* sc := create_time self in
           let* cc := create_time child in
           ret (Qle_bool sc cc))
          (fun e => match e with
                    | NoSuchProcess _ => ret (ret_, checkpids)
                    | _ => raise e
                    end)
          (fun intime : bool =>
             if intime then
               let* c := deref child in
               ret (ret_ ++ [child],
                    if bool_decide (_pid c ∈ checkpids) then checkpids
                    else checkpids ++ [_pid c])
             else ret (ret_, checkpids)) in
      descend self rest (fst r) (snd r)
  end.

(** The loop [for pid in checkpids], which runs while the list grows: [i]
    is the position of the iterator.  [None] when [fuel] turns do not
    reach the end of the list. *)
Fixpoint walk (fuel : nat) (self : ref) (table : gmap (option Z) (list ref))
    (i : nat) (ret_ : list ref) (checkpids expanded : list Z)
    : M W (option walked) :=
  match checkpids !! i with
  | None => ret (Some (mkWalked ret_ checkpids expanded))
  | Some pid =>
      match fuel with
      | O => ret None
      | S fuel' =>
          let* r := descend self (table_get table (Some pid)) ret_ checkpids in
          walk fuel' self table (S i) (fst r) (snd r) (expanded ++ [pid])
      end
  end.

(** The objects of a table, and the number of turns that the walk over it
    can take: one for [self.pid] and one for every object. *)
Definition table_procs (table : gmap (option Z) (list ref)) : list ref :=
  concat (snd <$> map_to_list table).

Definition walk_fuel (table : gmap (option Z) (list ref)) : nat :=
  S (length (table_procs table)).

Definition children_recursive (self : ref) (self_pid : Z)
    (ppid_map : option (list (Z * Z))) : M W (option walked) :=
  let* table := match ppid_map with
                | None => table_slow
                | Some m => table_fast m ∅
                end in
  walk (walk_fuel table) self table 0 [] [self_pid] [].

(** The body of [children].  In the recursive mode the result is [None]
    if the walk were cut short; [walk_from_root] shows that it never
    is. *)
Definition children_body (recursive : bool) (self : ref) : M W (option (list ref)) :=
  let* ppid_map := match plat_ppid_map with
                   | Some f => let* m := call f in ret (Some m)
                   | None => ret None
                   end in
  let* me := deref self in
  if negb recursive then
    let* ret_ := match ppid_map with
                 | None => children_slow self (_pid me)
                 | Some m => children_fast self (_pid me) m []
                 end in
    ret (Some ret_)
  else
    let* r := children_recursive self (_pid me) ppid_map in
    ret (w_ret <$> r).

Definition children (self : ref) (recursive : bool) : M W (option (list ref)) :=
  _assert_pid_not_reused (children_body recursive) self.

(** *** [wait_procs] *)

(** The callback of the caller: it is given the object and acts on the
    world. *)
Definition callback_t : Type := ref -> Process -> W -> result unit * W.

(** The local function [check_gone]; it returns the new [gone].  [alive]
    is only recorded in the log. *)
Definition check_gone (callback : option callback_t) (alive : list ref)
    (proc : ref) (timeout : Q) (gone : list ref) : M W (list ref) :=
  try_except_else (wait proc (Some timeout))
    (fun e => match e with
              | TimeoutExpired => ret gone
              | _ => raise e
              end)
    (fun returncode_ : option Z =>
       let* is_gone := match returncode_ with
                       | Some _ => ret true
                       | None => let* running := is_running proc in
                                 ret (negb running)
                       end in
       if is_gone : bool then
         update proc (set_returncode (Some returncode_)) ;;
         let* h := get heap in
         let gone' := set_add h proc gone in
         match callback with
         | Some cb =>
             modify (add_log (EvCallback proc gone' alive)) ;;
             let* p := deref proc in
             call_r (cb proc p) ;;
             ret gone'
         | None => ret gone'
         end
       else ret gone).

(** The loop [for proc in alive] inside the [while]; [todo] is what is
    left of [alive].  It returns the last [timeout] and [gone]. *)
Fixpoint sweep (callback : option callback_t) (deadline : Q) (alive todo : list ref)
    (timeout : option Q) (gone : list ref) : M W (option Q * list ref) :=
  match todo with
  | [] => ret (timeout, gone)
  | proc :: rest =>
      let max_timeout := (1 / inject_Z (Z.of_nat (length alive)))%Q in
      match timeout with
      | Some _ =>
          let* now := call plat_timer in
          let timeout' := Qmin (deadline - now) max_timeout in
          if Qle_bool timeout' 0 then ret (Some timeout', gone)
          else
            let* gone' := check_gone callback alive proc timeout' gone in
            sweep callback deadline alive rest (Some timeout') gone'
      | None =>
          let* gone' := check_gone callback alive proc max_timeout gone in
          sweep callback deadline alive rest None gone'
      end
  end.

(** The loop [while alive]; [None] when [fuel] turns do not end it. *)
Fixpoint wait_loop (fuel : nat) (callback : option callback_t) (deadline : Q)
    (alive : list ref) (timeout : option Q) (gone : list ref)
    : M W (option (list ref * list ref)) :=
  match alive with
  | [] => ret (Some (gone, alive))
  | _ :: _ =>
      if match timeout with
         | Some t => Qle_bool t 0
         | None => false
         end
      then ret (Some (gone, alive))
      else
        match fuel with
        | O => ret None
        | S fuel' =>
            let* r := sweep callback deadline alive alive timeout gone in
            let* h := get heap in
            wait_loop fuel' callback deadline (set_diff h alive (snd r))
              (fst r) (snd r)
        end
  end.

(** The last loop [for proc in alive: check_gone(proc, 0)]. *)
Fixpoint last_sweep (callback : option callback_t) (alive todo : list ref)
    (gone : list ref) : M W (list ref) :=
  match todo with
  | [] => ret gone
  | proc :: rest =>
      let* gone' := check_gone callback alive proc 0%Q gone in
      last_sweep callback alive rest gone'
  end.

(** [wait_procs]; the result is [(gone, alive)].  [deadline] is bound only
    when a timeout is given. *)
Definition wait_procs (fuel : nat) (procs : list ref) (timeout : option Q)
    (callback : option callback_t) : M W (option (list ref * list ref)) :=
  if match timeout with
     | Some t => negb (Qle_bool 0 t)
     | None => false
     end
  then raise ValueError
  else
    let gone : list ref := [] in
    let* h := get heap in
    let alive := set_of_list h procs in
    let* deadline := match timeout with
                     | Some t => let* now := call plat_timer in ret (now + t)%Q
                     | None => ret 0%Q
                     end in
    let* r := wait_loop fuel callback deadline alive timeout gone in
    match r with
    | None => ret None
    | Some (gone, alive) =>
        match alive with
        | [] => ret (Some (gone, alive))
        | _ :: _ =>
            let* gone' := last_sweep callback alive alive gone in
            let* h := get heap in
            ret (Some (gone', set_diff h alive gone'))
        end
    end.

End Engine.

(** ** Notions used in the statements *)

(** All the references of [l] are objects of the store of [s]. *)
Definition allocated {W} (s : State W) (l : list ref) : Prop :=
  Forall (fun r => (r < next_ref s)%nat) l.

(** [s'] comes after [s]: the store has grown, and an object of [s] has
    kept its [_pid] and its [_ident], and its [returncode] if it had one. *)
Definition extends {W} (s s' : State W) : Prop :=
  (next_ref s <= next_ref s')%nat /\
  forall r, (r < next_ref s)%nat ->
    _pid (heap s' r) = _pid (heap s r) /\
    _ident (heap s' r) = _ident (heap s r) /\
    (returncode (heap s r) <> None -> returncode (heap s' r) <> None).

(** [l] holds no two objects that [__eq__] takes for equal. *)
Definition id_inj (h : ref -> Process) (l : list ref) : Prop :=
  forall a b, a ∈ l -> b ∈ l -> proc_eqb h a b = true -> a = b.

(** The objects that the callback was called on, in the order of the
    calls. *)
Definition callbacks (l : list event) : list ref :=
  omap (fun e => match e with
                 | EvCallback p _ _ => Some p
                 | EvAct _ => None
                 end) l.

(** A call of the callback on an object that is, at that moment, both in
    [gone] and in [alive]. *)
Definition callback_in_both (e : event) : Prop :=
  match e with
  | EvCallback p gone alive => p ∈ gone /\ p ∈ alive
  | EvAct _ => False
  end.

(** The cache [_pmap] of [s] is well formed: a key is a pid, not negative,
    and its value an object of the store with that pid. *)
Definition pmap_wf {W} (s : State W) : Prop :=
  forall (k : Z) (r : ref),
    _pmap s !! k = Some r ->
    (r < next_ref s)%nat /\ _pid (heap s r) = k /\ 0 <= k.

(** The pids of [live] in the order of [process_iter]. *)
Definition sorted_pids (live : list Z) : list Z :=
  merge_sort Z.le (elements (list_to_set live : gset Z)).

(** No process churn: the platform reports the pids [live] and, for a pid,
    the creation time (or the exception) [ct pid], whatever the world. *)
Definition no_churn {W} {P : Platform W} (live : list Z) (ct : Z -> result Q) : Prop :=
  (forall w, fst (plat_pids w) = live) /\
  (forall pid w, fst (proc_create_time pid w) = ct pid).

(** The creation time in the identity of an object made for [k] when the
    platform answers [ct k]: [None] when no object can be made. *)
Definition ident_time (ct : Z -> result Q) (k : Z) : option (option Q) :=
  match ct k with
  | Ok t => Some (Some t)
  | Raise AccessDenied => Some None
  | Raise _ => None
  end.

(** Under [ct], the cache of [s] is settled at [k]: it holds for [k] an
    object of that identity that is not gone, or it holds nothing and the
    platform knows no process [k]. *)
Definition settled {W} (ct : Z -> result Q) (s : State W) (k : Z) : Prop :=
  match _pmap s !! k with
  | Some r => _gone (heap s r) = false /\
              exists c, ident_time ct k = Some c /\
                        ident_eqb (_ident (heap s r)) (Some (k, c)) = true
  | None => 0 <= k /\ exists e, ct k = Raise (NoSuchProcess e)
  end.

(** From [s] to [s'] no object has lost its pid or a cached creation
    time. *)
Definition keeps_create_times {W} (s s' : State W) : Prop :=
  forall r,
    _pid (heap s' r) = _pid (heap s r) /\
    forall t, _create_time (heap s r) = Some t -> _create_time (heap s' r) = Some t.

(** In [s], the creation time of [child] is at least that of [root]. *)
Definition not_older {W} (s : State W) (root child : ref) : Prop :=
  exists sc cc : Q,
    _create_time (heap s root) = Some sc /\
    _create_time (heap s child) = Some cc /\
    (sc <= cc)%Q.

Definition has_callback {A} (callback : option A) : bool :=
  match callback with
  | Some _ => true
  | None => false
  end.

(** What holds of [gone] all along a run of [wait_procs] that started in
    [s0] on the set [A]: its objects are objects of [A], each once, each
    with a [returncode]; [evs] is what the run has added to the log: one
    call of the callback (if there is one) for every object of [gone], in
    that order. *)
Definition wait_inv {W} (has_callback : bool) (s0 s : State W) (A gone : list ref)
    (evs : list event) : Prop :=
  extends s0 s /\
  NoDup gone /\ gone ⊆ A /\
  (forall g, g ∈ gone -> returncode (heap s g) <> None) /\
  log s = log s0 ++ evs /\
  callbacks evs = (if has_callback then gone else []) /\
  Forall callback_in_both evs.

(** [alive] is what is left of [A] without [gone]. *)
Definition alive_ok (A gone alive : list ref) : Prop :=
  NoDup alive /\ alive ⊆ A /\
  (forall x, x ∈ alive -> x ∉ gone) /\
  (forall x, x ∈ A -> x ∈ gone \/ x ∈ alive).


(** ** A scripted environment

    The world is a clock of calls: every call into the environment advances
    it by one, and the answers are given as functions of the clock.  It is
    the environment of the examples. *)

Module Scripted.

Record script : Type := mkScript {
  sc_posix : bool;
  sc_windows : bool;
  sc_pids : nat -> list Z;
  sc_ppid_map : option (nat -> list (Z * Z));
  sc_cpu_count : Z;
  sc_cpu_times : nat -> namedtuple;
  sc_per_cpu_times : nat -> list namedtuple;
  sc_timer : nat -> Q;
  sc_create_time : Z -> nat -> result Q;
  sc_ppid : Z -> nat -> result (option Z);
  sc_proc_cpu_times : Z -> nat -> result pcputimes;
  sc_wait : Z -> option Q -> nat -> result (option Z);
  sc_act : action -> nat -> result unit;
}.

Definition platform (sc : script) : Platform nat := {|
  _POSIX := sc_posix sc;
  _WINDOWS := sc_windows sc;
  plat_pids := fun w => (sc_pids sc w, S w);
  plat_pid_exists := fun pid w => (bool_decide (pid ∈ sc_pids sc w), S w);
  plat_ppid_map :=
    match sc_ppid_map sc with
    | Some f => Some (fun w => (f w, S w))
    | None => None
    end;
  plat_cpu_count_logical := sc_cpu_count sc;
  plat_cpu_times := fun w => (sc_cpu_times sc w, S w);
  plat_per_cpu_times := fun w => (sc_per_cpu_times sc w, S w);
  plat_timer := fun w => (sc_timer sc w, S w);
  plat_sleep := fun _ w => S w;
  proc_create_time := fun pid w => (sc_create_time sc pid w, S w);
  proc_ppid := fun pid w => (sc_ppid sc pid w, S w);
  proc_cpu_times := fun pid w => (sc_proc_cpu_times sc pid w, S w);
  proc_wait := fun pid t w => (sc_wait sc pid t w, S w);
  proc_nice_get := fun _ w => (Ok 0, S w);
  proc_ionice_get := fun _ w => (Ok (0, 0), S w);
  proc_rlimit_get := fun _ _ w => (Ok (0, 0), S w);
  proc_cpu_affinity_get := fun _ w => (Ok [0], S w);
  plat_act := fun a w => (sc_act sc a w, S w);
|}.

(** A quiet Linux-like host: one CPU, no process, nothing ever happens. *)
Definition quiet : script := {|
  sc_posix := true;
  sc_windows := false;
  sc_pids := fun _ => [];
  sc_ppid_map := None;
  sc_cpu_count := 1;
  sc_cpu_times := fun _ => [("user", 0); ("system", 0); ("idle", 0)]%Q%string;
  sc_per_cpu_times := fun _ => [];
  sc_timer := fun w => inject_Z (Z.of_nat w);
  sc_create_time := fun pid _ => Raise (NoSuchProcess pid);
  sc_ppid := fun pid _ => Raise (NoSuchProcess pid);
  sc_proc_cpu_times := fun pid _ => Raise (NoSuchProcess pid);
  sc_wait := fun _ _ _ => Ok None;
  sc_act := fun _ _ => Ok tt;
|}.


(** A host whose timer runs backwards while process 7 burns CPU time. *)
Definition backwards : script := {|
  sc_posix := true;
  sc_windows := false;
  sc_pids := fun _ => [7];
  sc_ppid_map := None;
  sc_cpu_count := 1;
  sc_cpu_times := fun _ => [("user", 0); ("system", 0); ("idle", 0)]%Q%string;
  sc_per_cpu_times := fun _ => [];
  sc_timer := fun w => (10 - inject_Z (Z.of_nat w))%Q;
  sc_create_time := fun _ _ => Ok 100%Q;
  sc_ppid := fun _ _ => Ok (Some 1);
  sc_proc_cpu_times := fun _ w => Ok {| pt_user := inject_Z (Z.of_nat w); pt_system := 0 |};
  sc_wait := fun _ _ _ => Ok None;
  sc_act := fun _ _ => Ok tt;
|}.


(** Pid 7 is handed to another process: the creation time that the
    platform reports for it is 100 up to clock 2 and 200 from then on.
    Pid 1 is its parent, before and after. *)
Definition recycled : script := {|
  sc_posix := true;
  sc_windows := false;
  sc_pids := fun _ => [1; 7];
  sc_ppid_map := None;
  sc_cpu_count := 1;
  sc_cpu_times := fun _ => [("user", 0); ("system", 0); ("idle", 0)]%Q%string;
  sc_per_cpu_times := fun _ => [];
  sc_timer := fun w => inject_Z (Z.of_nat w);
  sc_create_time := fun pid w =>
    if pid =? 7 then (if (w <=? 2)%nat then Ok 100%Q else Ok 200%Q) else Ok 50%Q;
  sc_ppid := fun _ _ => Ok (Some 1);
  sc_proc_cpu_times := fun _ _ => Ok {| pt_user := 0; pt_system := 0 |};
  sc_wait := fun _ _ _ => Ok None;
  sc_act := fun _ _ => Ok tt;
|}.

(** The creation time that the platform reports for pid 7 is 200 at
    clock 3 and 100 at every other time. *)
Definition revived : script := {|
  sc_posix := true;
  sc_windows := false;
  sc_pids := fun _ => [7];
  sc_ppid_map := None;
  sc_cpu_count := 1;
  sc_cpu_times := fun _ => [("user", 0); ("system", 0); ("idle", 0)]%Q%string;
  sc_per_cpu_times := fun _ => [];
  sc_timer := fun w => inject_Z (Z.of_nat w);
  sc_create_time := fun _ w => if (w =? 3)%nat then Ok 200%Q else Ok 100%Q;
  sc_ppid := fun _ _ => Ok (Some 1);
  sc_proc_cpu_times := fun _ _ => Ok {| pt_user := 0; pt_system := 0 |};
  sc_wait := fun _ _ _ => Ok None;
  sc_act := fun _ _ => Ok tt;
|}.

(** Process 7 has terminated with exit code 0, process 8 runs on. *)
Definition exited : script := {|
  sc_posix := true;
  sc_windows := false;
  sc_pids := fun _ => [7; 8];
  sc_ppid_map := None;
  sc_cpu_count := 1;
  sc_cpu_times := fun _ => [("user", 0); ("system", 0); ("idle", 0)]%Q%string;
  sc_per_cpu_times := fun _ => [];
  sc_timer := fun w => inject_Z (Z.of_nat w);
  sc_create_time := fun _ _ => Ok 100%Q;
  sc_ppid := fun _ _ => Ok (Some 1);
  sc_proc_cpu_times := fun _ _ => Ok {| pt_user := 0; pt_system := 0 |};
  sc_wait := fun pid _ _ => if pid =? 7 then Ok (Some 0) else Raise TimeoutExpired;
  sc_act := fun _ _ => Ok tt;
|}.


(** Process 1 (created at 10) has the child 2 (created at 30), which
    has the child 3 (created at 20: before its parent, after process 1);
    process 4, a child of 1, was created at 5, before process 1. *)
Definition family : script := {|
  sc_posix := true;
  sc_windows := false;
  sc_pids := fun _ => [3; 1; 4; 2];
  sc_ppid_map := None;
  sc_cpu_count := 1;
  sc_cpu_times := fun _ => [("user", 0); ("system", 0); ("idle", 0)]%Q%string;
  sc_per_cpu_times := fun _ => [];
  sc_timer := fun w => inject_Z (Z.of_nat w);
  sc_create_time := fun pid _ =>
    if pid =? 1 then Ok 10%Q
    else if pid =? 2 then Ok 30%Q
    else if pid =? 3 then Ok 20%Q
    else Ok 5%Q;
  sc_ppid := fun pid _ =>
    if pid =? 2 then Ok (Some 1)
    else if pid =? 3 then Ok (Some 2)
    else if pid =? 4 then Ok (Some 1)
    else Ok (Some 0);
  sc_proc_cpu_times := fun _ _ => Ok {| pt_user := 0; pt_system := 0 |};
  sc_wait := fun _ _ _ => Raise TimeoutExpired;
  sc_act := fun _ _ => Ok tt;
|}.

(** A host without churn: the processes 3, 5 and 9 (listed in another
    order), with fixed creation times. *)
Definition steady : script := {|
  sc_posix := true;
  sc_windows := false;
  sc_pids := fun _ => [5; 9; 3];
  sc_ppid_map := None;
  sc_cpu_count := 1;
  sc_cpu_times := fun _ => [("user", 0); ("system", 0); ("idle", 0)]%Q%string;
  sc_per_cpu_times := fun _ => [];
  sc_timer := fun w => inject_Z (Z.of_nat w);
  sc_create_time := fun pid _ => Ok (inject_Z pid);
  sc_ppid := fun _ _ => Ok (Some 1);
  sc_proc_cpu_times := fun _ _ => Ok {| pt_user := 0; pt_system := 0 |};
  sc_wait := fun _ _ _ => Raise TimeoutExpired;
  sc_act := fun _ _ => Ok tt;
|}.

(** The state after the import of the module, at clock 0. *)
Definition start (sc : script) : State nat :=
  import_module (P := platform sc) 0%nat.

(** The outcome of a computation that starts right after the import,
    without the final state. *)
Definition outcome {A} (sc : script) (m : forall P : Platform nat, M nat A)
    : result A :=
  fst (m (platform sc) (start sc)).

End Scripted.

(** ** The information getters

    [Process.name], [Process.exe], [Process.memory_percent] and
    [Process.memory_maps] use the pid of the object, two caches of the
    object and one of the module; they are written with these passed in and
    out. *)

(** One mapped region as [_proc.memory_maps()] yields it: the tuple
    [(addr, perms, path, rss, size, ...)], whose numeric fields depend on
    the platform. *)
Record region : Type := mkRegion {
  m_addr : string;
  m_perms : string;
  m_path : string;
  m_nums : list Z;
}.

(** The tuple of [virtual_memory]: its field [total] and the others. *)
Record svmem : Type := mkSvmem {
  total : Z;
  vm_others : list (string * Z);
}.

(** What the getters ask of [_psplatform.Process], of [_psplatform] and of
    [os] and [os.path]; [os_has_access] is
    [hasattr(os, 'access') and hasattr(os, 'X_OK')]. *)
Class Host (W : Type) : Type := {
  proc_name : Z -> W -> result string * W;
  proc_cmdline : Z -> W -> result (list string) * W;
  proc_exe : Z -> W -> result string * W;
  proc_memory_info : Z -> W -> result (Z * Z) * W;
  proc_memory_maps : Z -> W -> result (list region) * W;
  plat_virtual_memory : W -> svmem * W;
  plat_disk_io_counters : W -> gmap string (list Z) * W;
  plat_net_io_counters : W -> gmap string (list Z) * W;
  os_has_access : bool;
  os_path_basename : string -> string;
  os_path_isabs : string -> bool;
  os_path_isfile : string -> W -> bool * W;
  os_access_X_OK : string -> W -> bool * W;
}.

(** The attributes of a [Process] that [name] and [exe] use. *)
Record Attrs : Type := mkAttrs {
  a_pid : Z;
  _name : option string;
  _exe : option string;
}.

Definition set_name (v : option string) (p : Attrs) : Attrs :=
  mkAttrs (a_pid p) v (_exe p).
Definition set_exe (v : option string) (p : Attrs) : Attrs :=
  mkAttrs (a_pid p) (_name p) v.

(** The argument of [guess_it]: the [AccessDenied] that [_proc.exe()] has
    raised, or the (empty) string that it has returned. *)
Inductive fallback : Type :=
  | FallbackError
  | FallbackExe (exe : string).

Section Getters.

Context {W : Type} {P : Platform W} {HW : Host W}.

(** [Process.name]. *)
Definition name (self : Attrs) (w : W) : result string * Attrs * W :=
  match _name self with
  | Some n => (Ok n, self, w)
  | None =>
      match proc_name (a_pid self) w with
      | (Raise e, w1) => (Raise e, self, w1)
      | (Ok name, w1) =>
          let (r, w2) :=
            if _POSIX && (15 <=? String.length name)%nat then
              match proc_cmdline (a_pid self) w1 with
              | (Raise AccessDenied, w2) => (Ok name, w2)
              | (Raise e, w2) => (Raise e, w2)
              | (Ok cmdline, w2) =>
                  match cmdline with
                  | c0 :: _ =>
                      let extended_name := os_path_basename c0 in
                      if String.prefix name extended_name
                      then (Ok extended_name, w2)
                      else (Ok name, w2)
                  | [] => (Ok name, w2)
                  end
              end
            else (Ok name, w1) in
          match r with
          | Ok name => (Ok name, set_name (Some name) self, w2)
          | Raise e => (Raise e, self, w2)
          end
      end
  end.

(** The local function [guess_it] of [Process.exe]. *)
Definition guess_it (self : Attrs) (fb : fallback) (w : W) : result string * W :=
  match proc_cmdline (a_pid self) w with
  | (Raise e, w1) => (Raise e, w1)
  | (Ok cmdline, w1) =>
      let (found, w2) :=
        match cmdline with
        | exe :: _ =>
            if os_has_access then
              if os_path_isabs exe then
                let (isfile, w2) := os_path_isfile exe w1 in
                if isfile then
                  let (executable, w3) := os_access_X_OK exe w2 in
                  if executable then (Some exe, w3) else (None, w3)
                else (None, w2)
              else (None, w1)
            else (None, w1)
        | [] => (None, w1)
        end in
      match found with
      | Some exe => (Ok exe, w2)
      | None =>
          match fb with
          | FallbackError => (Raise AccessDenied, w2)
          | FallbackExe exe => (Ok exe, w2)
          end
      end
  end.

(** [Process.exe]. *)
Definition exe (self : Attrs) (w : W) : result string * Attrs * W :=
  match _exe self with
  | Some e => (Ok e, self, w)
  | None =>
      match proc_exe (a_pid self) w with
      | (Raise AccessDenied, w1) =>
          let (r, w2) := guess_it self FallbackError w1 in (r, self, w2)
      | (Raise e, w1) => (Raise e, self, w1)
      | (Ok exe, w1) =>
          if String.eqb exe "" then
            match guess_it self (FallbackExe exe) w1 with
            | (Ok exe', w2) => (Ok exe', set_exe (Some exe') self, w2)
            | (Raise AccessDenied, w2) => (Ok exe, set_exe (Some exe) self, w2)
            | (Raise e, w2) => (Raise e, self, w2)
            end
          else (Ok exe, set_exe (Some exe) self, w1)
      end
  end.

(** [virtual_memory]; the second component is the module's
    [_TOTAL_PHYMEM] afterwards. *)
Definition virtual_memory (w : W) : svmem * option Z * W :=
  let (ret_, w1) := plat_virtual_memory w in
  (ret_, Some (total ret_), w1).

(** [Process.memory_percent]; [_TOTAL_PHYMEM] goes in and out. *)
Definition memory_percent (pid : Z) (_TOTAL_PHYMEM : option Z) (w : W)
    : result Q * option Z * W :=
  match proc_memory_info pid w with
  | (Raise e, w1) => (Raise e, _TOTAL_PHYMEM, w1)
  | (Ok (rss, _), w1) =>
      let '(total_phymem, g, w2) :=
        match _TOTAL_PHYMEM with
        | Some t =>
            if t =? 0 then
              let '(vm, g, w2) := virtual_memory w1 in (total vm, g, w2)
            else (t, _TOTAL_PHYMEM, w1)
        | None =>
            let '(vm, g, w2) := virtual_memory w1 in (total vm, g, w2)
        end in
      (match truediv (inject_Z rss) (inject_Z total_phymem) with
       | Ok q => Ok (q * 100)%Q
       | Raise _ => Ok 0%Q
       end, g, w2)
  end.

End Getters.


(** The builtin [sum] on integers. *)
Definition zsum (l : list Z) : Z := fold_left Z.add l 0.

(** [map(lambda x, y: x + y, a, b)] of Python 2 on two sequences of
    numbers: the shorter one is padded with [None], which [+] refuses. *)
Definition add_nums (a b : list Z) : result (list Z) :=
  if (length a =? length b)%nat then Ok (zip_with Z.add a b) else Raise TypeError.

(** The loop of [memory_maps] that fills the dict [d]. *)
Fixpoint group_regions (it : list region) (d : gmap string (list Z))
    : result (gmap string (list Z)) :=
  match it with
  | [] => Ok d
  | tupl :: rest =>
      let path := m_path tupl in
      let nums := m_nums tupl in
      match d !! path with
      | Some cur =>
          (do v <- add_nums cur nums;
           group_regions rest (<[path := v]> d))%result
      | None => group_regions rest (<[path := nums]> d)
      end
  end.

(** What [memory_maps] returns: tuples [pmmap_grouped] of a path and its
    numbers, in the order of the dict, or tuples [pmmap_ext]. *)
Inductive mmaps : Type :=
  | Grouped (l : list (string * list Z))
  | Ungrouped (l : list region).

Section MemoryMaps.

Context {W : Type} {HW : Host W}.

(** [Process.memory_maps]. *)
Definition memory_maps (pid : Z) (grouped : bool) (w : W) : result mmaps * W :=
  match proc_memory_maps pid w with
  | (Raise e, w1) => (Raise e, w1)
  | (Ok it, w1) =>
      if grouped then
        (match group_regions it ∅ with
         | Ok d => Ok (Grouped (map_to_list d))
         | Raise e => Raise e
         end, w1)
      else (Ok (Ungrouped it), w1)
  end.

End MemoryMaps.

(** ** System-wide counters of disks and network interfaces *)

(** The exceptions of this part of the module: those of [exn] and two
    builtin ones. *)
Inductive error : Type :=
  | Exn (e : exn)
  | RuntimeError
  | NotImplementedError.

Inductive reply (A : Type) : Type :=
  | Returns (a : A)
  | Raises (e : error).
Arguments Returns {A} a.
Arguments Raises {A} e.

(** The tuple types [sdiskio] and [snetio] of [psutil._common], with the
    fields that the two functions document. *)
Record sdiskio : Type := mkSdiskio {
  read_count : Z;
  write_count : Z;
  read_bytes : Z;
  write_bytes : Z;
  read_time : Z;
  write_time : Z;
}.

Record snetio : Type := mkSnetio {
  bytes_sent : Z;
  bytes_recv : Z;
  packets_sent : Z;
  packets_recv : Z;
  errin : Z;
  errout : Z;
  dropin : Z;
  dropout : Z;
}.

(** The constructors applied to an unpacked sequence: a call with another
    number of arguments is a [TypeError]. *)
Definition _nt_sys_diskio (fields : list Z) : result sdiskio :=
  match fields with
  | [a; b; c; d; e; f] => Ok (mkSdiskio a b c d e f)
  | _ => Raise TypeError
  end.

Definition _nt_sys_netio (fields : list Z) : result snetio :=
  match fields with
  | [a; b; c; d; e; f; g; h] => Ok (mkSnetio a b c d e f g h)
  | _ => Raise TypeError
  end.

(** [zip] on the unpacked [rows]: the columns of [rows], as many as the
    shortest row has fields. *)
Definition zip_star (rows : list (list Z)) : list (list Z) :=
  match rows with
  | [] => []
  | r :: rest =>
      let n := fold_right Nat.min (length r) (length <$> rest) in
      (fun i => (fun row => nth i row 0) <$> rows) <$> seq 0 n
  end.

(** The loop [for key, fields in rawdict.items()] that rebinds
    [rawdict[key]] to the tuple made of the unpacked [fields]; the tuples
    are collected in [d]. *)
Fixpoint wrap_items {T} (nt : list Z -> result T) (items : list (string * list Z))
    (d : gmap string T) : result (gmap string T) :=
  match items with
  | [] => Ok d
  | (key, fields) :: rest =>
      (do t <- nt fields;
       wrap_items nt rest (<[key := t]> d))%result
  end.

(** What the two functions return: one tuple, or a dict of tuples. *)
Inductive counters (T : Type) : Type :=
  | Summed (t : T)
  | PerKey (d : gmap string T).
Arguments Summed {T} t.
Arguments PerKey {T} d.

Definition of_result {A} (r : result A) : reply A :=
  match r with
  | Ok a => Returns a
  | Raise e => Raises (Exn e)
  end.

Section Counters.

Context {W : Type} {HW : Host W}.

(** [disk_io_counters]. *)
Definition disk_io_counters (perdisk : bool) (w : W) : reply (counters sdiskio) * W :=
  let (rawdict, w1) := plat_disk_io_counters w in
  if bool_decide (rawdict = ∅) then (Raises RuntimeError, w1)
  else if perdisk then
    (of_result (do d <- wrap_items _nt_sys_diskio (map_to_list rawdict) ∅;
                Ok (PerKey d))%result, w1)
  else
    (of_result (do t <- _nt_sys_diskio (zsum <$> zip_star (snd <$> map_to_list rawdict));
                Ok (Summed t))%result, w1).

(** [net_io_counters]. *)
Definition net_io_counters (pernic : bool) (w : W) : reply (counters snetio) * W :=
  let (rawdict, w1) := plat_net_io_counters w in
  if bool_decide (rawdict = ∅) then (Raises RuntimeError, w1)
  else if pernic then
    (of_result (do d <- wrap_items _nt_sys_netio (map_to_list rawdict) ∅;
                Ok (PerKey d))%result, w1)
  else
    (of_result (do t <- _nt_sys_netio (zsum <$> zip_star (snd <$> map_to_list rawdict));
                Ok (Summed t))%result, w1).

End Counters.

(** ** The class [Popen] *)

Section PopenClass.

Context {W : Type} {P : Platform W}.

(** [Popen.__init__], from the pid of the process that
    [subprocess32.Popen] has started. *)
Definition Popen_ (subproc_pid : Z) : M W ref := _init subproc_pid true.

(** [Popen.wait]; [subproc_returncode] is [self.__subproc.returncode],
    and the second component of the result its value afterwards. *)
Definition Popen_wait (self : ref) (subproc_returncode : option Z)
    (timeout : option Q) : M W (option Z * option Z) :=
  match subproc_returncode with
  | Some rc => ret (Some rc, subproc_returncode)
  | None =>
      let* ret_ := wait self timeout in
      ret (ret_, ret_)
  end.

End PopenClass.

(** ** [Process.as_dict] *)

Definition excluded_names : list string :=
  ["send_signal"; "suspend"; "resume"; "terminate"; "kill"; "wait";
   "is_running"; "as_dict"; "parent"; "children"; "rlimit"]%string.

(** [name[4:]]. *)
Definition drop4 (name : string) : string :=
  String.substring 4 (String.length name - 4) name.

(** The head of the loop body of [as_dict], up to the [try]: the name
    under which the attribute is looked up ([None] when the body goes on
    to the next name) and the names it has warned about. *)
Definition normalise (ls : list string) (name : string) : option string * list string :=
  if String.prefix "_" name then (None, [])
  else if String.prefix "set_" name then (None, [])
  else
    let '(name, warned, go_on) :=
      if String.prefix "get_" name then
        (drop4 name, [name], negb (bool_decide (drop4 name ∈ ls)))
      else (name, [], true) in
    if negb go_on then (None, warned)
    else
      let '(name, warned, go_on) :=
        if String.eqb name "getcwd" then
          ("cwd"%string, warned ++ ["getcwd"%string], negb (bool_decide ("cwd"%string ∈ ls)))
        else (name, warned, true) in
      if negb go_on then (None, warned)
      else if bool_decide (name ∈ excluded_names) then (None, warned)
      else (Some name, warned).

Section AsDict.

Context {W V : Type}.

(** [getattr(self, name)], called when it is callable. *)
Variable attr : string -> W -> reply V * W.

(** [dir(self)]. *)
Variable dir_self : list string.

(** The order in which a [set] made of a list is iterated. *)
Variable set_order : list string -> list string.

(** The loop [for name in ls] over the names [todo] that are left. *)
Fixpoint as_dict_loop (ls : list string) (attrs_given : bool) (ad_value : V)
    (todo : list string) (retdict : gmap string V) (warned : list string) (w : W)
    : reply (gmap string V * list string) * W :=
  match todo with
  | [] => (Returns (retdict, warned), w)
  | name :: rest =>
      let (key, ws) := normalise ls name in
      match key with
      | None => as_dict_loop ls attrs_given ad_value rest retdict (warned ++ ws) w
      | Some name =>
          match attr name w with
          | (Returns ret_, w1) =>
              as_dict_loop ls attrs_given ad_value rest (<[name := ret_]> retdict)
                (warned ++ ws) w1
          | (Raises (Exn AccessDenied), w1) =>
              as_dict_loop ls attrs_given ad_value rest (<[name := ad_value]> retdict)
                (warned ++ ws) w1
          | (Raises NotImplementedError, w1) =>
              if attrs_given then (Raises NotImplementedError, w1)
              else as_dict_loop ls attrs_given ad_value rest retdict (warned ++ ws) w1
          | (Raises e, w1) => (Raises e, w1)
          end
      end
  end.

(** [Process.as_dict]: the dict, and the names that were warned about. *)
Definition as_dict (attrs : list string) (ad_value : V) (w : W)
    : reply (gmap string V * list string) * W :=
  let ls := set_order match attrs with
                      | [] => List.filter (fun x => negb (String.prefix "get" x)) dir_self
                      | _ :: _ => attrs
                      end in
  as_dict_loop ls match attrs with [] => false | _ :: _ => true end ad_value ls ∅ [] w.

End AsDict.

(** ** Notions used in the statements about this part *)

(** From [s] to [s'] the store has grown, and no object of [s] has lost
    its pid or a cached creation time. *)
Definition grows {W} (s s' : State W) : Prop :=
  (next_ref s <= next_ref s')%nat /\
  forall r, (r < next_ref s)%nat ->
    _pid (heap s' r) = _pid (heap s r) /\
    forall t, _create_time (heap s r) = Some t -> _create_time (heap s' r) = Some t.

(** The sum of the [i]-th number over the regions of [it] whose path is
    [p]. *)
Definition path_total (p : string) (i : nat) (it : list region) : Z :=
  zsum ((fun r => nth i (m_nums r) 0) <$>
        List.filter (fun r => String.eqb (m_path r) p) it).

(** The sum of the field [f] over the tuples of a dict. *)
Definition total_of {T} (f : T -> Z) (d : gmap string T) : Z :=
  zsum (f <$> (map_to_list d).*2).

(** The tuples that the constructors make of a sequence of the right
    length. *)
Definition sdiskio_of (row : list Z) : sdiskio :=
  mkSdiskio (nth 0 row 0) (nth 1 row 0) (nth 2 row 0) (nth 3 row 0) (nth 4 row 0)
    (nth 5 row 0).

Definition snetio_of (row : list Z) : snetio :=
  mkSnetio (nth 0 row 0) (nth 1 row 0) (nth 2 row 0) (nth 3 row 0) (nth 4 row 0)
    (nth 5 row 0) (nth 6 row 0) (nth 7 row 0).

(** A name that [as_dict] looks up as it is. *)
Definition plain (name : string) : Prop :=
  String.prefix "_" name = false /\ String.prefix "set_" name = false /\
  String.prefix "get_" name = false /\ name <> "getcwd"%string /\
  name ∉ excluded_names.

(** ** More scripted environments *)

Module Scenes.

(** Process 7 runs, but the kernel does not find it when it is
    signalled. *)
Definition deaf : Scripted.script := {|
  Scripted.sc_posix := true;
  Scripted.sc_windows := false;
  Scripted.sc_pids := fun _ => [7];
  Scripted.sc_ppid_map := None;
  Scripted.sc_cpu_count := 1;
  Scripted.sc_cpu_times := fun _ => [("user", 0); ("system", 0); ("idle", 0)]%Q%string;
  Scripted.sc_per_cpu_times := fun _ => [];
  Scripted.sc_timer := fun w => inject_Z (Z.of_nat w);
  Scripted.sc_create_time := fun _ _ => Ok 100%Q;
  Scripted.sc_ppid := fun _ _ => Ok (Some 1);
  Scripted.sc_proc_cpu_times := fun _ _ => Ok {| pt_user := 0; pt_system := 0 |};
  Scripted.sc_wait := fun _ _ _ => Ok None;
  Scripted.sc_act := fun a _ => match a with
                                | OsKill _ _ => Raise (OSError ESRCH)
                                | _ => Ok tt
                                end;
|}.

(** The creation time of process 7 can be read up to clock 2 and is
    refused from then on. *)
Definition denied : Scripted.script := {|
  Scripted.sc_posix := true;
  Scripted.sc_windows := false;
  Scripted.sc_pids := fun _ => [7];
  Scripted.sc_ppid_map := None;
  Scripted.sc_cpu_count := 1;
  Scripted.sc_cpu_times := fun _ => [("user", 0); ("system", 0); ("idle", 0)]%Q%string;
  Scripted.sc_per_cpu_times := fun _ => [];
  Scripted.sc_timer := fun w => inject_Z (Z.of_nat w);
  Scripted.sc_create_time := fun _ w => if (w <=? 2)%nat then Ok 100%Q else Raise AccessDenied;
  Scripted.sc_ppid := fun _ _ => Ok (Some 1);
  Scripted.sc_proc_cpu_times := fun _ _ => Ok {| pt_user := 0; pt_system := 0 |};
  Scripted.sc_wait := fun _ _ _ => Ok None;
  Scripted.sc_act := fun _ _ => Ok tt;
|}.

(** A host that has two CPUs at the import of the module and three
    afterwards; every CPU is busy half of the time. *)
Definition hotplug : Scripted.script := {|
  Scripted.sc_posix := true;
  Scripted.sc_windows := false;
  Scripted.sc_pids := fun _ => [];
  Scripted.sc_ppid_map := None;
  Scripted.sc_cpu_count := 2;
  Scripted.sc_cpu_times := fun _ => [("user", 0); ("system", 0); ("idle", 0)]%Q%string;
  Scripted.sc_per_cpu_times := fun w =>
    let t := [("user", inject_Z (Z.of_nat w)); ("system", 0%Q);
              ("idle", inject_Z (Z.of_nat w))]%string in
    if (w <=? 1)%nat then [t; t] else [t; t; t];
  Scripted.sc_timer := fun w => inject_Z (Z.of_nat w);
  Scripted.sc_create_time := fun pid _ => Raise (NoSuchProcess pid);
  Scripted.sc_ppid := fun pid _ => Raise (NoSuchProcess pid);
  Scripted.sc_proc_cpu_times := fun pid _ => Raise (NoSuchProcess pid);
  Scripted.sc_wait := fun _ _ _ => Ok None;
  Scripted.sc_act := fun _ _ => Ok tt;
|}.

(** [posixpath.basename]: what follows the last slash. *)
Fixpoint basename_from (path acc : string) : string :=
  match path with
  | EmptyString => acc
  | String c rest =>
      if Ascii.eqb c "/"%char then basename_from rest EmptyString
      else basename_from rest (acc ++ String c EmptyString)
  end.

Definition basename (path : string) : string := basename_from path EmptyString.

(** What a scripted host answers to the getters; the world counts the
    calls. *)
Record desk : Type := mkDesk {
  d_name : Z -> result string;
  d_cmdline : Z -> result (list string);
  d_exe : Z -> result string;
  d_memory_info : Z -> result (Z * Z);
  d_memory_maps : Z -> result (list region);
  d_total : Z;
  d_disks : gmap string (list Z);
  d_nics : gmap string (list Z);
  d_executables : list string;
}.

Definition host (d : desk) : Host nat := {|
  proc_name := fun pid w => (d_name d pid, S w);
  proc_cmdline := fun pid w => (d_cmdline d pid, S w);
  proc_exe := fun pid w => (d_exe d pid, S w);
  proc_memory_info := fun pid w => (d_memory_info d pid, S w);
  proc_memory_maps := fun pid w => (d_memory_maps d pid, S w);
  plat_virtual_memory := fun w => (mkSvmem (d_total d) [], S w);
  plat_disk_io_counters := fun w => (d_disks d, S w);
  plat_net_io_counters := fun w => (d_nics d, S w);
  os_has_access := true;
  os_path_basename := basename;
  os_path_isabs := String.prefix "/";
  os_path_isfile := fun path w => (bool_decide (path ∈ d_executables d), S w);
  os_access_X_OK := fun path w => (bool_decide (path ∈ d_executables d), S w);
|}.

(** A desktop: process 7 is the keyring daemon, whose name the kernel cuts
    to 15 characters and whose executable the platform does not tell;
    it maps libc twice and its own binary once. *)
Definition desktop : desk := {|
  d_name := fun _ => Ok "gnome-keyring-d"%string;
  d_cmdline := fun _ => Ok ["/usr/bin/gnome-keyring-daemon"; "--start"]%string;
  d_exe := fun _ => Raise AccessDenied;
  d_memory_info := fun _ => Ok (250, 1000);
  d_memory_maps := fun _ =>
    Ok [mkRegion "00400000-00406000" "r-xp" "/usr/bin/gnome-keyring-daemon" [24; 24];
        mkRegion "7f000000-7f1b0000" "r-xp" "/lib/libc.so.6" [1000; 1700];
        mkRegion "7f3b0000-7f3b4000" "rw-p" "/lib/libc.so.6" [16; 16]]%string;
  d_total := 1000;
  d_disks := {[ "sda"%string := [10; 20; 4096; 8192; 5; 7];
                "sdb"%string := [1; 2; 512; 1024; 1; 1] ]};
  d_nics := {[ "eth0"%string := [100; 200; 3; 4; 0; 0; 0; 0];
               "lo"%string := [10; 10; 1; 1; 0; 0; 0; 0] ]};
  d_executables := ["/usr/bin/gnome-keyring-daemon"%string];
|}.

End Scenes.

(** * Properties *)

(** ** Numbers and named tuples *)

Lemma truediv_zero (a b : Q) : (b == 0)%Q -> truediv a b = Raise ZeroDivisionError.
Proof.
  intros Hb. unfold truediv.
  destruct (Qeq_bool b 0) eqn:E; [reflexivity|].
  apply Qeq_bool_neq in E. contradiction.
Qed.

Lemma truediv_nonzero (a b : Q) : ~ (b == 0)%Q -> truediv a b = Ok (a / b)%Q.
Proof.
  intros Hb. unfold truediv.
  destruct (Qeq_bool b 0) eqn:E; [|reflexivity].
  apply Qeq_bool_iff in E. contradiction.
Qed.

Lemma getattr_here (f : string) (v : Q) (t : namedtuple) :
  getattr ((f, v) :: t) f = Ok v.
Proof. unfold getattr. simpl. rewrite String.eqb_refl. reflexivity. Qed.

Lemma getattr_skip (p t : namedtuple) (f : string) :
  f ∉ _fields p -> getattr (p ++ t) f = getattr t f.
Proof.
  induction p as [|[g v] p IH]; intros Hf; [reflexivity|].
  unfold getattr in *. simpl in *.
  destruct (String.eqb g f) eqn:E.
  - apply String.eqb_eq in E. subst. exfalso. apply Hf. left.
  - apply IH. intros Hin. apply Hf. right. exact Hin.
Qed.

Lemma getattr_middle (p t : namedtuple) (f : string) (v : Q) :
  f ∉ _fields p -> getattr (p ++ (f, v) :: t) f = Ok v.
Proof. intros Hf. rewrite getattr_skip by exact Hf. apply getattr_here. Qed.

(** ** [pid_exists] *)

Section PidExists.

Context {W : Type} {P : Platform W}.

(** C10.  For a negative pid, [pid_exists] answers [False] at once: the
    state, and so the world of the platform, is the one it was called
    in, and nothing is raised. *)
Theorem pid_exists_negative (pid : Z) (s : State W) :
  pid < 0 -> pid_exists pid s = (Ok false, s).
Proof.
  intros Hneg. unfold pid_exists.
  destruct (pid <? 0) eqn:E; [reflexivity|].
  apply Z.ltb_ge in E. lia.
Qed.

End PidExists.

Lemma pid_exists_negative_witness :
  -1 < 0 /\
  pid_exists (P := Scripted.platform Scripted.quiet) (-1) (Scripted.start Scripted.quiet)
  = (Ok false, Scripted.start Scripted.quiet).
Proof.
  split; [lia|].
  apply (pid_exists_negative (P := Scripted.platform Scripted.quiet) (-1)). lia.
Defined.

(** ** [cpu_times_percent]: the percentage of every field *)

Module CpuTimesPercentFacts.
Import CpuTimesPercent.

Lemma field_step_value (w : bool) (t1 t2 : namedtuple) (ad : Q) (f : string) (v1 v2 : Q) :
  getattr t1 f = Ok v1 -> getattr t2 f = Ok v2 ->
  field_step w t1 t2 ad f = Ok (field_result w ad (v1, v2)).
Proof.
  intros H1 H2. unfold field_step, field_result, spec_field_percent, truediv.
  rewrite H1, H2. simpl.
  destruct (Qeq_bool ad 0); reflexivity.
Qed.

Lemma loop_fields (w : bool) (ad : Q) (s1 : namedtuple) :
  forall (s2 p1 p2 : namedtuple) (nums : list Q),
    _fields s1 = _fields s2 -> _fields p1 = _fields p2 ->
    NoDup (_fields (p1 ++ s1)) ->
    loop w (p1 ++ s1) (p2 ++ s2) ad (_fields s1) nums
    = Ok (nums ++ map (field_result w ad) (combine (map snd s1) (map snd s2))).
Proof.
  induction s1 as [|[f v1] s1 IH]; intros s2 p1 p2 nums Hs Hp Hnd.
  - simpl. rewrite app_nil_r. reflexivity.
  - destruct s2 as [|[g v2] s2]; [discriminate|].
    simpl in Hs. injection Hs as Hfg Hs. subst g.
    assert (Hf1 : f ∉ _fields p1).
    { unfold _fields in Hnd. rewrite map_app in Hnd. simpl in Hnd.
      apply NoDup_app in Hnd as (_ & Hdis & _).
      intros Hin. apply (Hdis f Hin). left. }
    assert (Hf2 : f ∉ _fields p2) by (rewrite <- Hp; exact Hf1).
    simpl loop.
    rewrite (field_step_value w _ _ ad f v1 v2)
      by (apply getattr_middle; assumption).
    simpl rbind.
    replace (p1 ++ (f, v1) :: s1) with ((p1 ++ [(f, v1)]) ++ s1)
      by (rewrite <- app_assoc; reflexivity).
    replace (p2 ++ (f, v2) :: s2) with ((p2 ++ [(f, v2)]) ++ s2)
      by (rewrite <- app_assoc; reflexivity).
    rewrite IH.
    + simpl. rewrite <- app_assoc. reflexivity.
    + exact Hs.
    + unfold _fields in *. rewrite !map_app. simpl. rewrite Hp. reflexivity.
    + rewrite <- app_assoc. exact Hnd.
Qed.


End CpuTimesPercentFacts.



(** ** The constructor and the identity check *)

Ltac munfold :=
  unfold act, sleep, except_NoSuchProcess in *;
  unfold bind, ret, raise, try_except, try_except_else,
    get, modify, call, call_r, lift, deref, update, alloc in *.

Section ProcessFacts.

Context {W : Type} {P : Platform W}.

(** What [Process(pid)] does, by the answer of the platform on the
    creation time: it takes the next reference of the store and leaves
    the other objects, the cache and the log alone. *)
Lemma _init_spec (pid : Z) (ign : bool) (s : State W) :
  0 <= pid ->
  exists s',
    let n := next_ref s in
    world s' = snd (proc_create_time pid (world s)) /\
    next_ref s' = S n /\ _pmap s' = _pmap s /\ log s' = log s /\
    _last_cpu_times s' = _last_cpu_times s /\
    (forall r, r <> n -> heap s' r = heap s r) /\
    match fst (proc_create_time pid (world s)) with
    | Ok t => _init pid ign s = (Ok n, s') /\
              heap s' n = new_process pid (Some t) false
    | Raise AccessDenied => _init pid ign s = (Ok n, s') /\
                            heap s' n = new_process pid None false
    | Raise (NoSuchProcess _) =>
        if ign then _init pid ign s = (Ok n, s') /\
                    heap s' n = new_process pid None true
        else _init pid ign s = (Raise (NoSuchProcess pid), s')
    | Raise e => _init pid ign s = (Raise e, s')
    end.
Proof.
  intros Hpid. exists (snd (_init pid ign s)).
  unfold _init, create_time.
  destruct (pid <? 0) eqn:E; [apply Z.ltb_lt in E; lia|].
  munfold. simpl. rewrite Nat.eqb_refl. simpl.
  destruct (proc_create_time pid (world s)) as [r w] eqn:Hct. simpl.
  assert (Hne : forall r' n : nat, r' <> n -> Nat.eqb r' n = false)
    by (intros; apply Nat.eqb_neq; assumption).
  destruct r as [t|e]; [|destruct e; [destruct ign|..]];
    simpl; rewrite ?Nat.eqb_refl; simpl;
    repeat split; try reflexivity;
    try (intros r Hr; simpl; rewrite ?(Hne _ _ Hr); reflexivity);
    simpl; rewrite ?Nat.eqb_refl; reflexivity.
Qed.

Lemma _init_negative (pid : Z) (ign : bool) (s : State W) :
  pid < 0 -> _init pid ign s = (Raise ValueError, s).
Proof.
  intros Hpid. unfold _init.
  destruct (pid <? 0) eqn:E; [reflexivity|apply Z.ltb_ge in E; lia].
Qed.

(** Once the flag [_gone] is set, [is_running] answers [False] without
    a look at the system. *)
Lemma is_running_gone (self : ref) (s : State W) :
  _gone (heap s self) = true -> is_running self s = (Ok false, s).
Proof. intros Hg. unfold is_running. munfold. rewrite Hg. reflexivity. Qed.

(** [is_running] on an object of the store whose flag is not set, by
    the answer of the platform on the creation time. *)
Lemma is_running_spec (self : ref) (s : State W) :
  let pid := _pid (heap s self) in
  let n := next_ref s in
  (self < n)%nat -> 0 <= pid -> _gone (heap s self) = false ->
  exists s',
    world s' = snd (proc_create_time pid (world s)) /\
    next_ref s' = S n /\ _pmap s' = _pmap s /\ log s' = log s /\
    (forall r, r <> n -> r <> self -> heap s' r = heap s r) /\
    match fst (proc_create_time pid (world s)) with
    | Ok t =>
        is_running self s
        = (Ok (ident_eqb (_ident (heap s self)) (Some (pid, Some t))), s') /\
        heap s' self = heap s self
    | Raise AccessDenied =>
        is_running self s
        = (Ok (ident_eqb (_ident (heap s self)) (Some (pid, None))), s') /\
        heap s' self = heap s self
    | Raise (NoSuchProcess _) =>
        is_running self s = (Ok false, s') /\
        heap s' self = set_gone true (heap s self)
    | Raise e => is_running self s = (Raise e, s') /\ heap s' self = heap s self
    end.
Proof.
  intros pid n Hself Hpid Hg.
  destruct (_init_spec pid false s Hpid)
    as (s1 & Hw & Hn & Hpm & Hlog & _ & Hfr & Hres).
  assert (Hsn : self <> next_ref s) by (unfold n in Hself; lia).
  assert (Hsn' : Nat.eqb self (next_ref s) = false) by (apply Nat.eqb_neq; exact Hsn).
  exists (snd (is_running self s)).
  unfold is_running, Process_, __eq__. munfold. rewrite Hg. fold pid.
  assert (Hfr' : forall r : ref, r <> n -> r <> self -> heap s1 r = heap s r)
    by (intros r Hr _; apply Hfr; exact Hr).
  destruct (fst (proc_create_time pid (world s))) as [t|e] eqn:Hct.
  - destruct Hres as [Hi Hh]. rewrite Hi. simpl.
    rewrite (Hfr self Hsn), Hh. simpl.
    repeat split; try assumption; try reflexivity.
  - destruct e; try (rewrite Hres; simpl; rewrite ?(Hfr self Hsn);
                     repeat split; try assumption; reflexivity).
    + rewrite Hres. simpl. rewrite Nat.eqb_refl.
      repeat split; try assumption; try reflexivity.
      intros r Hr1 Hr2. rewrite <- (Hfr r Hr1).
      destruct (Nat.eqb r self) eqn:E; [apply Nat.eqb_eq in E; contradiction|].
      reflexivity.
      rewrite (Hfr self Hsn). reflexivity.
    + destruct Hres as [Hi Hh]. rewrite Hi. simpl.
      rewrite (Hfr self Hsn), Hh. simpl.
      repeat split; try assumption; try reflexivity.
Qed.

End ProcessFacts.

(** ** Identity-guarded operations *)

Section Guard.

Context {W : Type} {P : Platform W}.

(** [is_running] makes no mutating call: the log is the one it found. *)
Lemma is_running_log (self : ref) (s s' : State W) (r : result bool) :
  is_running self s = (r, s') -> log s' = log s.
Proof.
  unfold is_running, Process_, _init, __eq__, create_time. munfold.
  destruct (_gone (heap s self)); [intros [= <- <-]; reflexivity|].
  destruct (_pid (heap s self) <? 0); [intros [= <- <-]; reflexivity|].
  simpl. rewrite Nat.eqb_refl. simpl.
  destruct (proc_create_time _ _) as [[t|e] w]; simpl.
  - intros [= <- <-]. reflexivity.
  - destruct e; simpl; intros [= <- <-]; reflexivity.
Qed.

(** The decorator: when [is_running] is false the method raises
    [NoSuchProcess] and its body is not run; the log is untouched. *)
Lemma _assert_pid_not_reused_blocks {A} (fun_ : ref -> M W A) (self : ref)
    (s s' : State W) :
  is_running self s = (Ok false, s') ->
  _assert_pid_not_reused fun_ self s = (Raise (NoSuchProcess (_pid (heap s' self))), s')
  /\ log s' = log s.
Proof.
  intros H. split; [|eapply is_running_log; exact H].
  unfold _assert_pid_not_reused. munfold. rewrite H. reflexivity.
Qed.

(** [nice(value)] checks in the same way before it sets the value. *)
Lemma nice_set_blocks (self : ref) (v : Z) (s s' : State W) :
  is_running self s = (Ok false, s') ->
  nice self (Some v) s = (Raise (NoSuchProcess (_pid (heap s self))), s')
  /\ log s' = log s.
Proof.
  intros H. split; [|eapply is_running_log; exact H].
  unfold nice. munfold. rewrite H. reflexivity.
Qed.

(** [ionice], [rlimit] and [cpu_affinity] go to the platform whatever
    [is_running] would say. *)
Lemma ionice_set_unguarded (self : ref) (c : Z) (v : option Z) (s : State W) :
  ionice self (Some c) v s
  = (act (IoniceSet (_pid (heap s self)) c v) ;; ret None)%monad s.
Proof. reflexivity. Qed.

Lemma rlimit_set_unguarded (self : ref) (res : Z) (l : Z * Z) (s : State W) :
  rlimit self res (Some l) s
  = (act (RlimitSet (_pid (heap s self)) res l) ;; ret None)%monad s.
Proof. reflexivity. Qed.

Lemma cpu_affinity_set_unguarded (self : ref) (l : list Z) (s : State W) :
  cpu_affinity self (Some l) s
  = (act (CpuAffinitySet (_pid (heap s self)) l) ;; ret None)%monad s.
Proof. reflexivity. Qed.

End Guard.

(** C1.  The setters [ionice], [rlimit] and [cpu_affinity] and [parent]
    are not guarded.  Pid 7 has been handed to another process after the
    object was made, so [is_running] is false; yet the three setters reach
    the platform (the call is in the log and nothing is raised), and
    [parent] returns an object for pid 1.  [nice], which checks, raises
    [NoSuchProcess] on the same object and leaves the log empty. *)
Theorem unguarded_operations_on_recycled_pid :
  Scripted.outcome Scripted.recycled
    (fun _ => let* p := Process_ 7 in
              let* running := is_running p in
              let* r := ionice p (Some 2) (Some 0) in
              let* l := get log in
              ret (running, r, l))
  = Ok (false, None, [EvAct (IoniceSet 7 2 (Some 0))])
  /\ Scripted.outcome Scripted.recycled
       (fun _ => let* p := Process_ 7 in
                 let* running := is_running p in
                 let* r := rlimit p 7 (Some (1024, 4096)) in
                 let* l := get log in
                 ret (running, r, l))
     = Ok (false, None, [EvAct (RlimitSet 7 7 (1024, 4096))])
  /\ Scripted.outcome Scripted.recycled
       (fun _ => let* p := Process_ 7 in
                 let* running := is_running p in
                 let* r := cpu_affinity p (Some [0]) in
                 let* l := get log in
                 ret (running, r, l))
     = Ok (false, None, [EvAct (CpuAffinitySet 7 [0])])
  /\ Scripted.outcome Scripted.recycled
       (fun _ => let* p := Process_ 7 in
                 let* running := is_running p in
                 let* r := parent p in
                 let* h := get heap in
                 ret (running, (fun q => _pid (h q)) <$> r))
     = Ok (false, Some 1)
  /\ Scripted.outcome Scripted.recycled
       (fun _ => let* p := Process_ 7 in
                 let* running := is_running p in
                 try_except (nice p (Some 5) ;; ret (false, []))
                   (fun e => let* l := get log in ret (is_NoSuchProcess e, l)))
     = Ok (true, []).
Proof. repeat split; vm_compute; reflexivity. Qed.

(** ** The flag [_gone] *)

Section Gone.

Context {W : Type} {P : Platform W}.

(** No call of [is_running], on this object or on another one, clears
    the flag of an object of the store. *)
Lemma is_running_keeps_gone (self other : ref) (s s' : State W) (r : result bool) :
  (self < next_ref s)%nat -> _gone (heap s self) = true ->
  is_running other s = (r, s') -> _gone (heap s' self) = true.
Proof.
  intros Hself Hg.
  assert (Hsn : Nat.eqb self (next_ref s) = false) by (apply Nat.eqb_neq; lia).
  unfold is_running, Process_, _init, __eq__, create_time. munfold.
  destruct (_gone (heap s other)); [intros [= <- <-]; exact Hg|].
  destruct (_pid (heap s other) <? 0); [intros [= <- <-]; exact Hg|].
  simpl. rewrite Nat.eqb_refl. simpl.
  destruct (proc_create_time _ _) as [[t|e] w]; simpl.
  - intros [= <- <-]. simpl. rewrite Hsn. exact Hg.
  - destruct e; simpl; intros [= <- <-]; simpl; rewrite ?Hsn; try exact Hg.
    destruct (Nat.eqb self other); [reflexivity|]. rewrite ?Hsn. exact Hg.
Qed.

(** C2, as the code has it.  The flag [_gone] is sticky: while it is
    set, [is_running] answers [False] in every state, whatever the
    platform would report for the pid, and leaves the state as it is; no
    later call of [is_running] clears it.  The flag is set when the pid is
    not found ([NoSuchProcess] from the platform), in [is_running] and,
    with [ESRCH], in [_send_signal]. *)
Theorem gone_is_sticky (self : ref) (s : State W) :
  (_gone (heap s self) = true -> is_running self s = (Ok false, s))
  /\ (forall (other : ref) (r : result bool) (s' : State W),
         (self < next_ref s)%nat -> _gone (heap s self) = true ->
         is_running other s = (r, s') -> _gone (heap s' self) = true)
  /\ (forall pid' : Z,
         (self < next_ref s)%nat -> 0 <= _pid (heap s self) ->
         fst (proc_create_time (_pid (heap s self)) (world s))
         = Raise (NoSuchProcess pid') ->
         exists s', is_running self s = (Ok false, s')
                    /\ _gone (heap s' self) = true)
  /\ (forall (sig : Z) (w' : W),
         plat_act (OsKill (_pid (heap s self)) sig) (world s)
         = (Raise (OSError ESRCH), w') ->
         exists s', _send_signal self sig s
                    = (Raise (NoSuchProcess (_pid (heap s self))), s')
                    /\ _gone (heap s' self) = true).
Proof.
  split; [apply is_running_gone|].
  split; [intros other r s'; apply is_running_keeps_gone|].
  split.
  - intros pid' Hself Hpid Hct.
    destruct (_gone (heap s self)) eqn:Hg.
    + exists s. split; [apply is_running_gone; exact Hg|exact Hg].
    + destruct (is_running_spec self s Hself Hpid Hg) as (s' & _ & _ & _ & _ & _ & Hres).
      rewrite Hct in Hres. destruct Hres as [Hr Hh].
      exists s'. split; [exact Hr|]. rewrite Hh. reflexivity.
  - intros sig w' Hact. eexists.
    unfold _send_signal. munfold. simpl. rewrite Hact. simpl.
    split; [reflexivity|]. simpl. rewrite Nat.eqb_refl. reflexivity.
Qed.

End Gone.

(** The object made for a process that vanished at once (as [Popen] makes
    it) has the flag set; the theorem applies to it. *)
Lemma gone_is_sticky_witness :
  let P := Scripted.platform Scripted.quiet in
  let s := snd (_init 7 true (Scripted.start Scripted.quiet)) in
  _gone (heap s 0%nat) = true /\ is_running 0%nat s = (Ok false, s).
Proof.
  split; [reflexivity|].
  apply (proj1 (gone_is_sticky (P := Scripted.platform Scripted.quiet) 0%nat
                  (snd (_init (P := Scripted.platform Scripted.quiet) 7 true
                          (Scripted.start Scripted.quiet))))).
  reflexivity.
Defined.

(** C2, as the claim has it, fails.  Between the two calls of
    [is_running] the pid belongs to a process with another creation time,
    and the first call answers [False]; the flag is not set by a mismatch
    of the identity, and the second call answers [True]. *)
Lemma gone_not_sticky_after_mismatch :
  Scripted.outcome Scripted.revived
    (fun _ => let* p := Process_ 7 in
              let* first := is_running p in
              let* second := is_running p in
              ret (first, second))
  = Ok (false, true).
Proof. vm_compute. reflexivity. Qed.

(** ** Percentages: the first call, and a delta of zero *)

Lemma combine_const_fields (c : Q) (t1 : namedtuple) :
  forall t2 : namedtuple,
    _fields t1 = _fields t2 ->
    combine (_fields t1) (map (fun _ => c) (combine (map snd t1) (map snd t2)))
    = map (fun f => (f, c)) (_fields t1).
Proof.
  induction t1 as [|[f v] t1 IH]; intros [|[g u] t2] H; try discriminate; [reflexivity|].
  simpl in *. injection H as _ H. rewrite (IH t2 H). reflexivity.
Qed.

Lemma field_result_zero_delta (w : bool) (ad : Q) (v : Q * Q) :
  (ad == 0)%Q -> CpuTimesPercent.field_result w ad v = 0%Q.
Proof.
  intros Had. unfold CpuTimesPercent.field_result, CpuTimesPercent.spec_field_percent.
  apply Qeq_bool_iff in Had. rewrite Had. destruct w; reflexivity.
Qed.

Lemma calculate_zero_delta (w : bool) (t1 t2 : namedtuple) :
  NoDup (_fields t1) -> _fields t1 = _fields t2 -> (fsum t2 - fsum t1 == 0)%Q ->
  CpuTimesPercent.calculate w t1 t2 = Ok (map (fun f => (f, 0%Q)) (_fields t1)).
Proof.
  intros Hnd Hf Had. unfold CpuTimesPercent.calculate.
  pose proof (CpuTimesPercentFacts.loop_fields w (fsum t2 - fsum t1) t1 t2 [] [] []
                Hf eq_refl Hnd) as H.
  simpl in H. rewrite H. simpl. f_equal.
  rewrite <- (combine_const_fields 0%Q t1 t2 Hf). f_equal.
  apply map_ext. intros v. apply field_result_zero_delta. exact Had.
Qed.

Lemma cpu_percent_calculate_not_busier (t1 t2 : namedtuple) (i1 i2 : Q) :
  getattr t1 "idle" = Ok i1 -> getattr t2 "idle" = Ok i2 ->
  (fsum t2 - i2 <= fsum t1 - i1)%Q ->
  CpuPercent.calculate t1 t2 = Ok 0%Q.
Proof.
  intros H1 H2 Hle. unfold CpuPercent.calculate. rewrite H1, H2. simpl.
  apply Qle_bool_iff in Hle. rewrite Hle. reflexivity.
Qed.

(** C4, as the code has it.  A delta of zero gives 0.0 and no error: in
    [Process.cpu_percent], where the elapsed time is the divisor, and in
    [cpu_times_percent], for every field.  The system-wide [cpu_percent]
    gives 0.0 whenever the busy time has not grown.  A delta that is not
    zero, negative ones included, is divided by: the tail of
    [Process.cpu_percent] then is the rounded quotient. *)
Theorem zero_delta_gives_zero :
  (forall (st1 st2 : Q) (pt1 pt2 : pcputimes) (n : Z),
      (st2 - st1 == 0)%Q -> overall_percent st1 st2 pt1 pt2 n = 0%Q)
  /\ (forall (st1 st2 : Q) (pt1 pt2 : pcputimes) (n : Z),
         ~ (st2 - st1 == 0)%Q ->
         overall_percent st1 st2 pt1 pt2 n
         = round1 (((((pt_user pt2 - pt_user pt1) + (pt_system pt2 - pt_system pt1))
                     / (st2 - st1)) * 100) * inject_Z n)%Q)
  /\ (forall (w : bool) (t1 t2 : namedtuple),
         NoDup (_fields t1) -> _fields t1 = _fields t2 ->
         (fsum t2 - fsum t1 == 0)%Q ->
         CpuTimesPercent.calculate w t1 t2 = Ok (map (fun f => (f, 0%Q)) (_fields t1)))
  /\ (forall (t1 t2 : namedtuple) (i1 i2 : Q),
         getattr t1 "idle" = Ok i1 -> getattr t2 "idle" = Ok i2 ->
         (fsum t2 - i2 <= fsum t1 - i1)%Q ->
         CpuPercent.calculate t1 t2 = Ok 0%Q).
Proof.
  split; [|split; [|split]].
  - intros st1 st2 pt1 pt2 n H. unfold overall_percent.
    rewrite truediv_zero by exact H. reflexivity.
  - intros st1 st2 pt1 pt2 n H. unfold overall_percent.
    rewrite truediv_nonzero by exact H. reflexivity.
  - apply calculate_zero_delta.
  - apply cpu_percent_calculate_not_busier.
Qed.

Lemma zero_delta_gives_zero_witness :
  (5 - 5 == 0)%Q /\
  overall_percent 5 5 {| pt_user := 1; pt_system := 0 |}
    {| pt_user := 2; pt_system := 0 |} 4 = 0%Q.
Proof.
  split; [reflexivity|].
  apply (proj1 zero_delta_gives_zero 5%Q 5%Q). reflexivity.
Defined.

(** C4, as the claim has it, fails for a negative delta.  The timer of
    this host runs backwards: it reads 7 at the first call and 5 at the
    second, so the elapsed time is -2, while the process used 2 seconds of
    CPU; the second call returns -100.0. *)
Lemma negative_delta_not_zero :
  Scripted.outcome Scripted.backwards
    (fun _ => let* p := Process_ 7 in
              let* first := cpu_percent p None in
              let* q1 := deref p in
              let* second := cpu_percent p None in
              let* q2 := deref p in
              ret (_last_sys_cpu_times q1, _last_sys_cpu_times q2, second))
  = Ok (Some 7%Q, Some 5%Q, (-100)%Q).
Proof. vm_compute. reflexivity. Qed.

Section FirstCall.

Context {W : Type} {P : Platform W}.

(** The object that [Process(pid)] returns. *)
Lemma Process_ok (pid : Z) (s s1 : State W) (self : ref) :
  Process_ pid s = (Ok self, s1) ->
  0 <= pid /\ self = next_ref s /\ next_ref s1 = S (next_ref s) /\
  _pmap s1 = _pmap s /\ log s1 = log s /\
  (forall r, r <> self -> heap s1 r = heap s r) /\
  exists ct, heap s1 self = new_process pid ct false /\
             match fst (proc_create_time pid (world s)) with
             | Ok t => ct = Some t
             | Raise AccessDenied => ct = None
             | Raise _ => False
             end.
Proof.
  unfold Process_. intros H.
  destruct (Z.lt_ge_cases pid 0) as [Hneg|Hpos].
  { rewrite _init_negative in H by exact Hneg. discriminate. }
  destruct (_init_spec pid false s Hpos)
    as (s' & _ & Hn & Hpm & Hlog & _ & Hfr & Hres).
  destruct (fst (proc_create_time pid (world s))) as [t|e].
  - destruct Hres as [Hi Hh]. rewrite Hi in H. injection H as <- <-.
    repeat split; try assumption. exists (Some t). split; [exact Hh|reflexivity].
  - destruct e; try (rewrite Hres in H; discriminate).
    destruct Hres as [Hi Hh]. rewrite Hi in H. injection H as <- <-.
    repeat split; try assumption. exists None. split; [exact Hh|reflexivity].
Qed.


End FirstCall.



(** ** Sets of [Process] objects *)

Lemma opt_Qeqb_refl (a : option Q) : opt_Qeqb a a = true.
Proof. destruct a; simpl; [apply Qeq_bool_iff; reflexivity|reflexivity]. Qed.

Lemma opt_Qeqb_sym (a b : option Q) : opt_Qeqb a b = opt_Qeqb b a.
Proof.
  destruct a as [x|], b as [y|]; simpl; try reflexivity.
  destruct (Qeq_bool x y) eqn:E1, (Qeq_bool y x) eqn:E2; try reflexivity.
  - apply Qeq_bool_iff in E1. apply Qeq_bool_neq in E2. symmetry in E1. contradiction.
  - apply Qeq_bool_iff in E2. apply Qeq_bool_neq in E1. symmetry in E2. contradiction.
Qed.

Lemma ident_eqb_refl (a : option ident) : ident_eqb a a = true.
Proof.
  destruct a as [[p c]|]; simpl; [|reflexivity].
  rewrite Z.eqb_refl, opt_Qeqb_refl. reflexivity.
Qed.

Lemma ident_eqb_sym (a b : option ident) : ident_eqb a b = ident_eqb b a.
Proof.
  destruct a as [[p c]|], b as [[q d]|]; simpl; try reflexivity.
  rewrite Z.eqb_sym, opt_Qeqb_sym. reflexivity.
Qed.

Lemma proc_eqb_refl (h : ref -> Process) (a : ref) : proc_eqb h a a = true.
Proof. apply ident_eqb_refl. Qed.

Lemma proc_eqb_sym (h : ref -> Process) (a b : ref) : proc_eqb h a b = proc_eqb h b a.
Proof. apply ident_eqb_sym. Qed.

Lemma set_mem_true (h : ref -> Process) (x : ref) (l : list ref) :
  set_mem h x l = true <-> exists y, y ∈ l /\ proc_eqb h x y = true.
Proof.
  unfold set_mem. rewrite existsb_exists.
  split; intros (y & Hy & He); exists y; split; try exact He;
    apply list_elem_of_In; exact Hy.
Qed.

Lemma set_mem_elem (h : ref -> Process) (x : ref) (l : list ref) :
  x ∈ l -> set_mem h x l = true.
Proof. intros Hx. apply set_mem_true. exists x. split; [exact Hx|apply proc_eqb_refl]. Qed.

(** In a list without [__eq__]-equal objects, membership by [__eq__] is
    membership. *)
Lemma set_mem_id_inj (h : ref -> Process) (A l : list ref) (x : ref) :
  id_inj h A -> x ∈ A -> l ⊆ A -> set_mem h x l = true -> x ∈ l.
Proof.
  intros Hinj Hx Hl Hm. apply set_mem_true in Hm as (y & Hy & He).
  rewrite (Hinj x y Hx (Hl y Hy) He). exact Hy.
Qed.

Lemma set_add_spec (h : ref -> Process) (x : ref) (l : list ref) :
  NoDup l -> id_inj h l ->
  NoDup (set_add h x l) /\ id_inj h (set_add h x l) /\
  l ⊆ set_add h x l /\ set_add h x l ⊆ x :: l /\
  set_mem h x (set_add h x l) = true.
Proof.
  intros Hnd Hinj. unfold set_add. destruct (set_mem h x l) eqn:Hm.
  - repeat split; try assumption; try reflexivity.
    intros y Hy. right. exact Hy.
  - assert (Hno : forall y, y ∈ l -> proc_eqb h x y = false).
    { intros y Hy. destruct (proc_eqb h x y) eqn:E; [|reflexivity].
      assert (set_mem h x l = true) by (apply set_mem_true; eauto). congruence. }
    assert (Hx : x ∉ l).
    { intros Hx. specialize (Hno x Hx). rewrite proc_eqb_refl in Hno. discriminate. }
    repeat split.
    + apply NoDup_app. repeat split; [exact Hnd| |apply NoDup_singleton].
      intros y Hy Hy'. apply list_elem_of_singleton in Hy'. subst. contradiction.
    + intros a b Ha Hb He.
      apply elem_of_app in Ha as [Ha|Ha], Hb as [Hb|Hb].
      * apply Hinj; assumption.
      * apply list_elem_of_singleton in Hb. subst b.
        rewrite proc_eqb_sym, (Hno a Ha) in He. discriminate.
      * apply list_elem_of_singleton in Ha. subst a.
        rewrite (Hno b Hb) in He. discriminate.
      * apply list_elem_of_singleton in Ha, Hb. congruence.
    + intros y Hy. apply elem_of_app. left. exact Hy.
    + intros y Hy. apply elem_of_app in Hy as [Hy|Hy]; [right; exact Hy|].
      apply list_elem_of_singleton in Hy. subst. left.
    + apply set_mem_elem. apply elem_of_app. right. apply list_elem_of_singleton. reflexivity.
Qed.

Lemma set_of_list_spec (h : ref -> Process) (l : list ref) :
  NoDup (set_of_list h l) /\ id_inj h (set_of_list h l) /\
  set_of_list h l ⊆ l /\
  forall x, x ∈ l -> set_mem h x (set_of_list h l) = true.
Proof.
  unfold set_of_list.
  assert (H : forall acc,
             NoDup acc -> id_inj h acc ->
             let r := fold_left (fun s x => set_add h x s) l acc in
             NoDup r /\ id_inj h r /\ r ⊆ acc ++ l /\ acc ⊆ r /\
             forall x, x ∈ l -> set_mem h x r = true).
  { induction l as [|y l IH]; intros acc Hnd Hinj; simpl.
    - repeat split; try assumption; try reflexivity.
      + rewrite app_nil_r. reflexivity.
      + intros x Hx. inversion Hx.
    - destruct (set_add_spec h y acc Hnd Hinj) as (Hnd' & Hinj' & Hsub & Hsup & Hmem).
      destruct (IH _ Hnd' Hinj') as (H1 & H2 & H3 & H4 & H5).
      repeat split; try assumption.
      + intros x Hx. apply H3 in Hx. apply elem_of_app in Hx as [Hx|Hx].
        * apply Hsup in Hx. apply elem_of_cons in Hx as [->|Hx].
          -- apply elem_of_app. right. left.
          -- apply elem_of_app. left. exact Hx.
        * apply elem_of_app. right. right. exact Hx.
      + intros x Hx. apply H4, Hsub, Hx.
      + intros x Hx. apply elem_of_cons in Hx as [->|Hx]; [|apply H5; exact Hx].
        apply set_mem_true in Hmem as (z & Hz & He).
        apply set_mem_true. exists z. split; [apply H4; exact Hz|exact He]. }
  assert (Hnil : id_inj h []) by (intros a b Ha; inversion Ha).
  destruct (H [] (NoDup_nil_2) Hnil) as (H1 & H2 & H3 & _ & H5).
  repeat split; assumption.
Qed.

Lemma set_diff_elem (h : ref -> Process) (a b : list ref) (x : ref) :
  x ∈ set_diff h a b <-> x ∈ a /\ set_mem h x b = false.
Proof.
  unfold set_diff. rewrite list_elem_of_In, filter_In, <- list_elem_of_In.
  rewrite negb_true_iff. reflexivity.
Qed.

Lemma set_diff_alive_ok (h : ref -> Process) (A gone gone' alive : list ref) :
  id_inj h A -> alive_ok A gone alive ->
  gone ⊆ gone' -> gone' ⊆ A ->
  alive_ok A gone' (set_diff h alive gone').
Proof.
  intros Hinj (Hnd & Hsub & Hdis & Hcov) Hgg HgA.
  repeat split.
  - unfold set_diff. apply NoDup_ListNoDup, List.NoDup_filter, NoDup_ListNoDup, Hnd.
  - intros x Hx. apply set_diff_elem in Hx as [Hx _]. apply Hsub, Hx.
  - intros x Hx Hg. apply set_diff_elem in Hx as [_ Hm].
    rewrite (set_mem_elem h x gone' Hg) in Hm. discriminate.
  - intros x Hx. destruct (decide (x ∈ gone')) as [Hg|Hg]; [left; exact Hg|].
    right. apply set_diff_elem.
    destruct (Hcov x Hx) as [Hxg|Hxa]; [exfalso; apply Hg, Hgg, Hxg|].
    split; [exact Hxa|].
    destruct (set_mem h x gone') eqn:E; [|reflexivity].
    exfalso. apply Hg. eapply set_mem_id_inj; eassumption.
Qed.

(** ** [wait_procs] *)

Section WaitProcs.

Context {W : Type} {P : Platform W}.

Lemma extends_refl (s : State W) : extends s s.
Proof. split; [reflexivity|]. intros r _. repeat split. auto. Qed.

Lemma extends_trans (s1 s2 s3 : State W) :
  extends s1 s2 -> extends s2 s3 -> extends s1 s3.
Proof.
  intros [Hn1 H1] [Hn2 H2]. split; [lia|].
  intros r Hr. destruct (H1 r Hr) as (Ha & Hb & Hc).
  destruct (H2 r ltac:(lia)) as (Ha' & Hb' & Hc').
  repeat split; [congruence|congruence|auto].
Qed.

Lemma proc_eqb_extends (s s' : State W) (a b : ref) :
  extends s s' -> (a < next_ref s)%nat -> (b < next_ref s)%nat ->
  proc_eqb (heap s') a b = proc_eqb (heap s) a b.
Proof.
  intros [_ H] Ha Hb. unfold proc_eqb.
  destruct (H a Ha) as (_ & -> & _). destruct (H b Hb) as (_ & -> & _).
  reflexivity.
Qed.

Lemma id_inj_extends (s s' : State W) (A : list ref) :
  extends s s' -> allocated s A -> id_inj (heap s) A -> id_inj (heap s') A.
Proof.
  intros Hext Hal Hinj a b Ha Hb He. apply Hinj; try assumption.
  unfold allocated in Hal. rewrite Forall_forall in Hal.
  rewrite <- (proc_eqb_extends s s') by auto. exact He.
Qed.

(** [is_running] keeps the objects of the store and the log. *)
Lemma is_running_extends (self : ref) (s s' : State W) (r : result bool) :
  is_running self s = (r, s') -> extends s s' /\ log s' = log s.
Proof.
  intros H. split; [|eapply is_running_log; exact H]. revert H.
  unfold is_running, Process_, _init, __eq__, create_time. munfold.
  destruct (_gone (heap s self)); [intros [= <- <-]; apply extends_refl|].
  destruct (_pid (heap s self) <? 0); [intros [= <- <-]; apply extends_refl|].
  simpl. rewrite Nat.eqb_refl. simpl.
  assert (Hne : forall r : nat, (r < next_ref s)%nat -> Nat.eqb r (next_ref s) = false)
    by (intros; apply Nat.eqb_neq; lia).
  destruct (proc_create_time _ _) as [[t|e] w]; simpl.
  - intros [= <- <-]. split; [simpl; lia|]. intros x Hx. simpl.
    rewrite (Hne x Hx). repeat split. auto.
  - destruct e; simpl; intros [= <- <-]; (split; [simpl; lia|]); intros x Hx; simpl;
      rewrite ?(Hne x Hx); try (repeat split; auto; fail).
    destruct (Nat.eqb x self) eqn:E; rewrite ?(Hne x Hx).
    + apply Nat.eqb_eq in E. subst x. rewrite (Hne self Hx). repeat split. auto.
    + repeat split. auto.
Qed.

(** [Process.wait] acts on the world only. *)
Lemma wait_state (self : ref) (timeout : option Q) (s s' : State W)
    (r : result (option Z)) :
  wait self timeout s = (r, s') ->
  heap s' = heap s /\ next_ref s' = next_ref s /\ log s' = log s.
Proof.
  unfold wait. munfold.
  destruct timeout as [t|]; [destruct (negb (Qle_bool 0 t))|];
    try (intros [= <- <-]; repeat split; fail);
    destruct (proc_wait _ _ _) as [x w]; intros [= <- <-]; repeat split.
Qed.

(** What a call of [check_gone] that returns has done: nothing but
    reads, or the three steps on [proc] (set [returncode], add to
    [gone], call the callback). *)
Lemma check_gone_cases (cb : option callback_t) (alive : list ref) (proc : ref)
    (t : Q) (gone gone' : list ref) (s s' : State W) :
  check_gone cb alive proc t gone s = (Ok gone', s') ->
  exists s1,
    extends s s1 /\ log s1 = log s /\
    ((gone' = gone /\ s' = s1) \/
     (exists rc,
         next_ref s' = next_ref s1 /\
         (forall r, heap s' r = if Nat.eqb r proc
                                then set_returncode (Some rc) (heap s1 proc)
                                else heap s1 r) /\
         gone' = set_add (heap s') proc gone /\
         log s' = log s1 ++ match cb with
                            | Some _ => [EvCallback proc gone' alive]
                            | None => []
                            end)).
Proof.
  unfold check_gone. unfold try_except_else at 1.
  destruct (wait proc (Some t) s) as [[rc|e] s1] eqn:Hw.
  - apply wait_state in Hw as (Hh & Hn & Hl).
    assert (Hext1 : extends s s1).
    { split; [lia|]. intros r _. rewrite Hh. repeat split. auto. }
    destruct rc as [code|].
    + munfold. simpl. intros H. exists s1. split; [exact Hext1|]. split; [exact Hl|].
      right. exists (Some code).
      destruct cb as [f|]; simpl in H.
      * destruct (f proc _ (world s1)) as [[[]|e] w] eqn:Hf; simpl in H; [|discriminate].
        injection H as <- <-. simpl. repeat split.
      * injection H as <- <-. simpl. repeat split. rewrite app_nil_r. reflexivity.
    + unfold bind at 1. unfold bind at 1.
      destruct (is_running proc s1) as [[b|e] s2] eqn:Hr; [|discriminate].
      apply is_running_extends in Hr as [Hext2 Hl2].
      munfold. simpl. destruct b; simpl.
      * intros [= <- <-]. exists s2.
        split; [eapply extends_trans; eassumption|].
        split; [congruence|]. left. split; reflexivity.
      * intros H. exists s2.
        split; [eapply extends_trans; eassumption|].
        split; [congruence|]. right. exists None.
        destruct cb as [f|]; simpl in H.
        -- destruct (f proc _ (world s2)) as [[[]|e] w] eqn:Hf; simpl in H; [|discriminate].
           injection H as <- <-. simpl. repeat split.
        -- injection H as <- <-. simpl. repeat split. rewrite app_nil_r. reflexivity.
  - apply wait_state in Hw as (Hh & Hn & Hl).
    destruct e; munfold; try discriminate.
    intros [= <- <-]. exists s1. split.
    + split; [lia|]. intros r _. rewrite Hh. repeat split. auto.
    + split; [exact Hl|]. left. split; reflexivity.
Qed.

Lemma allocated_extends (s s' : State W) (l : list ref) :
  extends s s' -> allocated s l -> allocated s' l.
Proof.
  intros [Hn _] Hal. unfold allocated in *. eapply Forall_impl; [exact Hal|].
  simpl. intros. lia.
Qed.

Lemma check_gone_inv (cb : option callback_t) (s0 : State W) (A alive : list ref)
    (proc : ref) (t : Q) (gone gone' : list ref) (evs : list event)
    (s s' : State W) :
  allocated s0 A -> id_inj (heap s0) A ->
  alive ⊆ A -> proc ∈ alive -> proc ∉ gone ->
  wait_inv (has_callback cb) s0 s A gone evs ->
  check_gone cb alive proc t gone s = (Ok gone', s') ->
  exists evs',
    wait_inv (has_callback cb) s0 s' A gone' evs' /\
    gone ⊆ gone' /\ gone' ⊆ proc :: gone.
Proof.
  intros Hal Hinj HaA Hpa Hpg (Hext & Hnd & Hsub & Hrc & Hlog & Hcb & Hboth) Hcg.
  destruct (check_gone_cases _ _ _ _ _ _ _ _ Hcg) as (s1 & Hext1 & Hl1 & Hcase).
  assert (Hext01 : extends s0 s1) by (eapply extends_trans; eassumption).
  assert (HalA : forall x, x ∈ A -> (x < next_ref s0)%nat).
  { unfold allocated in Hal. rewrite Forall_forall in Hal. exact Hal. }
  assert (Hrc1 : forall g, g ∈ gone -> returncode (heap s1 g) <> None).
  { intros g Hg. destruct Hext1 as [_ H1]. destruct Hext as [Hn0 _].
    apply (H1 g); [|apply Hrc, Hg].
    specialize (HalA g (Hsub g Hg)). lia. }
  destruct Hcase as [[-> ->]|(rc & Hn' & Hh' & Hg' & Hl')].
  - exists evs. split; [|split; [reflexivity|intros x Hx; right; exact Hx]].
    split; [exact Hext01|]. repeat split; try assumption. congruence.
  - assert (Hext1' : extends s1 s').
    { split; [lia|]. intros r _. rewrite (Hh' r).
      destruct (Nat.eqb r proc) eqn:E.
      - apply Nat.eqb_eq in E. subst r. repeat split. discriminate.
      - repeat split. auto. }
    assert (Hext0' : extends s0 s') by (eapply extends_trans; eassumption).
    assert (Hinj' : id_inj (heap s') A) by (eapply id_inj_extends; eassumption).
    assert (Hm : set_mem (heap s') proc gone = false).
    { destruct (set_mem (heap s') proc gone) eqn:E; [|reflexivity].
      exfalso. apply Hpg. eapply set_mem_id_inj; try eassumption. apply HaA, Hpa. }
    unfold set_add in Hg'. rewrite Hm in Hg'. subst gone'.
    exists (evs ++ match cb with
                   | Some _ => [EvCallback proc (gone ++ [proc]) alive]
                   | None => []
                   end).
    split; [|split].
    + split; [exact Hext0'|]. repeat split.
      * apply NoDup_app. repeat split; [exact Hnd| |apply NoDup_singleton].
        intros x Hx Hx'. apply list_elem_of_singleton in Hx'. subst. contradiction.
      * intros x Hx. apply elem_of_app in Hx as [Hx|Hx]; [apply Hsub, Hx|].
        apply list_elem_of_singleton in Hx. subst. apply HaA, Hpa.
      * intros g Hg. apply elem_of_app in Hg as [Hg|Hg].
        -- destruct Hext1' as [_ H1']. apply (H1' g); [|apply Hrc1, Hg].
           destruct Hext01 as [Hn01 _]. specialize (HalA g (Hsub g Hg)). lia.
        -- apply list_elem_of_singleton in Hg. subst g. rewrite (Hh' proc).
           rewrite Nat.eqb_refl. discriminate.
      * rewrite Hl', Hl1, Hlog, app_assoc. reflexivity.
      * unfold callbacks in *. rewrite omap_app, Hcb.
        destruct cb; simpl; [reflexivity|]. reflexivity.
      * apply Forall_app. split; [exact Hboth|].
        destruct cb; [|apply Forall_nil; exact I].
        apply Forall_singleton. simpl. split; [|exact Hpa].
        apply elem_of_app. right. apply list_elem_of_singleton. reflexivity.
    + intros x Hx. apply elem_of_app. left. exact Hx.
    + intros x Hx. apply elem_of_app in Hx as [Hx|Hx]; [right; exact Hx|].
      apply list_elem_of_singleton in Hx. subst. left.
Qed.

Lemma sweep_inv (cb : option callback_t) (s0 : State W) (A : list ref)
    (deadline : Q) (alive : list ref) :
  allocated s0 A -> id_inj (heap s0) A -> alive ⊆ A ->
  forall (todo : list ref) (timeout : option Q) (gone : list ref)
         (evs : list event) (s : State W) (r : option Q * list ref) (s' : State W),
    todo ⊆ alive -> NoDup todo -> (forall x, x ∈ todo -> x ∉ gone) ->
    wait_inv (has_callback cb) s0 s A gone evs ->
    sweep cb deadline alive todo timeout gone s = (Ok r, s') ->
    exists evs', wait_inv (has_callback cb) s0 s' A (snd r) evs' /\ gone ⊆ snd r.
Proof.
  intros Hal Hinj HaA todo.
  induction todo as [|proc rest IH];
    intros timeout gone evs s r s' Hta Hnd Hdis Hinv Hsw.
  - simpl in Hsw. munfold. injection Hsw as <- <-. exists evs. split; [exact Hinv|reflexivity].
  - simpl in Hsw.
    assert (Hpa : proc ∈ alive) by (apply Hta; left).
    assert (Hpg : proc ∉ gone) by (apply Hdis; left).
    apply NoDup_cons in Hnd as [Hpr Hnd].
    assert (Hra : rest ⊆ alive) by (intros x Hx; apply Hta; right; exact Hx).
    assert (Hstep : forall (t : Q) (tm : option Q) (s1 : State W),
               wait_inv (has_callback cb) s0 s1 A gone evs ->
               (let* gone' := check_gone cb alive proc t gone in
                sweep cb deadline alive rest tm gone') s1 = (Ok r, s') ->
               exists evs', wait_inv (has_callback cb) s0 s' A (snd r) evs'
                            /\ gone ⊆ snd r).
    { intros t tm s1 Hinv1 H. unfold bind in H.
      destruct (check_gone cb alive proc t gone s1) as [[g1|e] s2] eqn:Hcg; [|discriminate].
      destruct (check_gone_inv _ _ _ _ _ _ _ _ _ _ _ Hal Hinj HaA Hpa Hpg Hinv1 Hcg)
        as (evs1 & Hinv2 & Hg1 & Hg2).
      destruct (IH tm g1 evs1 s2 r s' Hra Hnd) as (evs' & Hinv' & Hsub'); try assumption.
      - intros x Hx Hx1. apply Hg2 in Hx1. apply elem_of_cons in Hx1 as [->|Hx1].
        + contradiction.
        + apply (Hdis x); [right; exact Hx|exact Hx1].
      - exists evs'. split; [exact Hinv'|]. etransitivity; eassumption. }
    destruct timeout as [t0|].
    + unfold bind at 1 in Hsw. unfold call at 1 in Hsw.
      destruct (plat_timer (world s)) as [now w].
      match type of Hsw with
      | context [Qle_bool ?x 0] => destruct (Qle_bool x 0)
      end.
      * munfold. injection Hsw as <- <-. exists evs. split; [exact Hinv|reflexivity].
      * eapply Hstep; [|exact Hsw]. exact Hinv.
    + eapply Hstep; [|exact Hsw]. exact Hinv.
Qed.

Lemma last_sweep_inv (cb : option callback_t) (s0 : State W) (A alive : list ref) :
  allocated s0 A -> id_inj (heap s0) A -> alive ⊆ A ->
  forall (todo gone : list ref) (evs : list event) (s : State W)
         (gone' : list ref) (s' : State W),
    todo ⊆ alive -> NoDup todo -> (forall x, x ∈ todo -> x ∉ gone) ->
    wait_inv (has_callback cb) s0 s A gone evs ->
    last_sweep cb alive todo gone s = (Ok gone', s') ->
    exists evs', wait_inv (has_callback cb) s0 s' A gone' evs' /\ gone ⊆ gone'.
Proof.
  intros Hal Hinj HaA todo.
  induction todo as [|proc rest IH];
    intros gone evs s gone' s' Hta Hnd Hdis Hinv Hsw.
  - simpl in Hsw. munfold. injection Hsw as <- <-. exists evs. split; [exact Hinv|reflexivity].
  - simpl in Hsw. unfold bind in Hsw.
    assert (Hpa : proc ∈ alive) by (apply Hta; left).
    assert (Hpg : proc ∉ gone) by (apply Hdis; left).
    apply NoDup_cons in Hnd as [Hpr Hnd].
    assert (Hra : rest ⊆ alive) by (intros x Hx; apply Hta; right; exact Hx).
    destruct (check_gone cb alive proc 0%Q gone s) as [[g1|e] s2] eqn:Hcg; [|discriminate].
    destruct (check_gone_inv _ _ _ _ _ _ _ _ _ _ _ Hal Hinj HaA Hpa Hpg Hinv Hcg)
      as (evs1 & Hinv2 & Hg1 & Hg2).
    destruct (IH g1 evs1 s2 gone' s' Hra Hnd) as (evs' & Hinv' & Hsub'); try assumption.
    + intros x Hx Hx1. apply Hg2 in Hx1. apply elem_of_cons in Hx1 as [->|Hx1].
      * contradiction.
      * apply (Hdis x); [right; exact Hx|exact Hx1].
    + exists evs'. split; [exact Hinv'|]. etransitivity; eassumption.
Qed.

Lemma wait_loop_inv (cb : option callback_t) (s0 : State W) (A : list ref)
    (deadline : Q) :
  allocated s0 A -> id_inj (heap s0) A ->
  forall (fuel : nat) (alive : list ref) (timeout : option Q) (gone : list ref)
         (evs : list event) (s : State W) (gone' alive' : list ref) (s' : State W),
    alive_ok A gone alive ->
    wait_inv (has_callback cb) s0 s A gone evs ->
    wait_loop fuel cb deadline alive timeout gone s = (Ok (Some (gone', alive')), s') ->
    exists evs', wait_inv (has_callback cb) s0 s' A gone' evs' /\
                 alive_ok A gone' alive'.
Proof.
  intros Hal Hinj fuel.
  induction fuel as [|fuel IH];
    intros alive timeout gone evs s gone' alive' s' Hok Hinv Hwl.
  - simpl in Hwl. destruct alive as [|a alive].
    + munfold. injection Hwl as <- <- <-. exists evs. split; assumption.
    + destruct (match timeout with Some t => Qle_bool t 0 | None => false end).
      * munfold. injection Hwl as <- <- <-. exists evs. split; assumption.
      * discriminate.
  - simpl in Hwl. destruct alive as [|a alive].
    + munfold. injection Hwl as <- <- <-. exists evs. split; assumption.
    + destruct (match timeout with Some t => Qle_bool t 0 | None => false end).
      * munfold. injection Hwl as <- <- <-. exists evs. split; assumption.
      * unfold bind at 1 in Hwl.
        destruct (sweep cb deadline (a :: alive) (a :: alive) timeout gone s)
          as [[r|e] s1] eqn:Hsw; [|discriminate].
        unfold bind at 1, get at 1 in Hwl.
        destruct Hok as (Hnd & HaA & Hdis & Hcov).
        destruct (sweep_inv cb s0 A deadline (a :: alive) Hal Hinj HaA
                    (a :: alive) timeout gone evs s r s1) as (evs1 & Hinv1 & Hsub1);
          try assumption; try reflexivity.
        eapply (IH _ _ _ evs1 s1); [|exact Hinv1|exact Hwl].
        destruct Hinv1 as (Hext1 & _ & HgA & _).
        eapply set_diff_alive_ok.
        -- eapply id_inj_extends; eassumption.
        -- repeat split; eassumption.
        -- exact Hsub1.
        -- exact HgA.
Qed.

(** The invariant of [wait_procs] at its end. *)
Lemma wait_procs_inv (fuel : nat) (procs : list ref) (timeout : option Q)
    (cb : option callback_t) (s s' : State W) (gone alive : list ref) :
  allocated s procs ->
  wait_procs fuel procs timeout cb s = (Ok (Some (gone, alive)), s') ->
  let A := set_of_list (heap s) procs in
  exists evs, wait_inv (has_callback cb) s s' A gone evs /\ alive_ok A gone alive.
Proof.
  intros Hal Hwp A.
  destruct (set_of_list_spec (heap s) procs) as (HndA & HinjA & HsubA & HcovA).
  fold A in HndA, HinjA, HsubA, HcovA.
  assert (HalA : allocated s A).
  { unfold allocated in *. rewrite Forall_forall in *. intros x Hx. apply Hal, HsubA, Hx. }
  unfold wait_procs in Hwp.
  destruct (match timeout with Some t => negb (Qle_bool 0 t) | None => false end);
    [discriminate|].
  unfold bind at 1, get at 1 in Hwp. fold A in Hwp.
  unfold bind at 1 in Hwp.
  assert (Hinit : forall w, wait_inv (has_callback cb) s (set_world w s) A [] []).
  { intros w. split; [exact (extends_refl s)|]. repeat split.
    - apply NoDup_nil. exact I.
    - intros x Hx. inversion Hx.
    - intros g Hg. inversion Hg.
    - simpl. rewrite app_nil_r. reflexivity.
    - destruct (has_callback cb); reflexivity.
    - apply Forall_nil. exact I. }
  assert (Hok0 : alive_ok A [] A).
  { repeat split; [exact HndA|reflexivity| |].
    - intros x _ Hx. inversion Hx.
    - intros x Hx. right. exact Hx. }
  assert (Hrest : forall (deadline : Q) (s1 : State W),
             wait_inv (has_callback cb) s s1 A [] [] ->
             (let* r := wait_loop fuel cb deadline A timeout [] in
              match r with
              | None => ret None
              | Some (gone, alive) =>
                  match alive with
                  | [] => ret (Some (gone, alive))
                  | _ :: _ =>
                      let* gone' := last_sweep cb alive alive gone in
                      let* h := get heap in
                      ret (Some (gone', set_diff h alive gone'))
                  end
              end) s1 = (Ok (Some (gone, alive)), s') ->
             exists evs, wait_inv (has_callback cb) s s' A gone evs
                         /\ alive_ok A gone alive).
  { intros deadline s1 Hinv1 H. unfold bind at 1 in H.
    destruct (wait_loop fuel cb deadline A timeout [] s1) as [[[[g a]|]|e] s2] eqn:Hwl;
      try discriminate.
    destruct (wait_loop_inv cb s A deadline HalA HinjA _ _ _ _ _ _ _ _ _ Hok0 Hinv1 Hwl)
      as (evs1 & Hinv2 & Hok2).
    destruct a as [|a0 a].
    - munfold. injection H as <- <- <-. exists evs1. split; assumption.
    - unfold bind at 1 in H.
      destruct (last_sweep cb (a0 :: a) (a0 :: a) g s2) as [[g'|e] s3] eqn:Hls;
        [|discriminate].
      munfold. injection H as <- <- <-.
      destruct Hok2 as (Hnd2 & HaA2 & Hdis2 & Hcov2).
      destruct (last_sweep_inv cb s A (a0 :: a) HalA HinjA HaA2 (a0 :: a) g evs1 s2 g' s3)
        as (evs3 & Hinv3 & Hsub3); try assumption; try reflexivity.
      exists evs3. split; [exact Hinv3|].
      destruct Hinv3 as (Hext3 & _ & HgA3 & _).
      change (alive_ok A g' (set_diff (heap s3) (a0 :: a) g')).
      eapply set_diff_alive_ok.
      + eapply id_inj_extends; eassumption.
      + repeat split; eassumption.
      + exact Hsub3.
      + exact HgA3. }
  destruct timeout as [t|].
  - unfold bind at 1, call at 1 in Hwp.
    destruct (plat_timer (world s)) as [now w]. unfold ret at 1 in Hwp.
    eapply Hrest; [|exact Hwp]. apply Hinit.
  - unfold ret at 1 in Hwp. eapply Hrest; [|exact Hwp].
    split; [apply extends_refl|]. repeat split.
    + apply NoDup_nil. exact I.
    + intros x Hx. inversion Hx.
    + intros g Hg. inversion Hg.
    + rewrite app_nil_r. reflexivity.
    + destruct (has_callback cb); reflexivity.
    + apply Forall_nil. exact I.
Qed.

(** More fuel does not change what [wait_procs] returns. *)
Lemma wait_loop_fuel (cb : option callback_t) (deadline : Q) (fuel : nat) :
  forall (alive : list ref) (timeout : option Q) (gone : list ref) (s s' : State W)
         (r : list ref * list ref),
    wait_loop fuel cb deadline alive timeout gone s = (Ok (Some r), s') ->
    wait_loop (S fuel) cb deadline alive timeout gone s = (Ok (Some r), s').
Proof.
  induction fuel as [|fuel IH]; intros alive timeout gone s s' r H.
  - simpl in *. destruct alive; [exact H|].
    destruct (match timeout with Some t => Qle_bool t 0 | None => false end);
      [exact H|discriminate].
  - remember (S fuel) as n eqn:Hn. simpl. rewrite Hn in H. simpl in H.
    destruct alive; [exact H|].
    destruct (match timeout with Some t => Qle_bool t 0 | None => false end);
      [exact H|].
    unfold bind at 1. unfold bind at 1 in H.
    destruct (sweep _ _ _ _ _ _ _) as [[x|e] s1]; [|exact H].
    unfold bind at 1, get at 1. unfold bind at 1, get at 1 in H.
    apply IH. exact H.
Qed.

(** With a timeout of zero the [while] loop is left at once: [wait_procs]
    needs no fuel. *)
Lemma wait_procs_zero_timeout (fuel : nat) (procs : list ref)
    (cb : option callback_t) (s : State W) :
  fst (wait_procs fuel procs (Some 0%Q) cb s) <> Ok None.
Proof.
  unfold wait_procs. simpl. munfold. simpl.
  destruct (plat_timer (world s)) as [now w].
  assert (Hloop : forall (dl : Q) (A : list ref) (s1 : State W),
             wait_loop fuel cb dl A (Some 0%Q) [] s1 = (Ok (Some ([], A)), s1)).
  { intros dl A s1. destruct fuel, A; reflexivity. }
  rewrite Hloop.
  destruct (set_of_list (heap s) procs) as [|a A]; simpl; [discriminate|].
  match goal with
  | |- context [let (_, _) := ?m ?st in _] => destruct (m st) as [[g1|e] s1]
  end; simpl; discriminate.
Qed.







(** What [wait_procs] returns is a partition of [set(procs)]. *)
Lemma wait_procs_result (fuel : nat) (procs : list ref) (timeout : option Q)
    (callback : option callback_t) (s s' : State W) (gone alive : list ref) :
  allocated s procs ->
  wait_procs fuel procs timeout callback s = (Ok (Some (gone, alive)), s') ->
  gone ++ alive ≡ₚ set_of_list (heap s) procs
  /\ (forall g a, g ∈ gone -> a ∈ alive -> proc_eqb (heap s') g a = false)
  /\ (forall p, p ∈ procs -> set_mem (heap s') p (gone ++ alive) = true)
  /\ (forall r, r ∈ gone ++ alive -> r ∈ procs)
  /\ (forall g, g ∈ gone -> returncode (heap s' g) <> None).
Proof.
  intros Hal Hwp.
  destruct (wait_procs_inv _ _ _ _ _ _ _ _ Hal Hwp)
    as (evs & (Hext & Hnd & HgA & Hrc & _) & (Hnda & HaA & Hdis & Hcov)).
  destruct (set_of_list_spec (heap s) procs) as (HndA & HinjA & HsubA & HcovA).
  set (A := set_of_list (heap s) procs) in *.
  assert (HalA : allocated s A).
  { unfold allocated in *. rewrite Forall_forall in *. intros x Hx. apply Hal, HsubA, Hx. }
  assert (Hinj' : id_inj (heap s') A) by (eapply id_inj_extends; eassumption).
  assert (Hmem : forall x, x ∈ gone ++ alive <-> x ∈ A).
  { intros x. rewrite elem_of_app. split; [intros [H|H]; auto|apply Hcov]. }
  split; [|split; [|split; [|split]]].
  - apply NoDup_Permutation; [|exact HndA|exact Hmem].
    apply NoDup_app. repeat split; try assumption.
    intros x Hg Ha. exact (Hdis x Ha Hg).
  - intros g a Hg Ha. destruct (proc_eqb (heap s') g a) eqn:E; [|reflexivity].
    exfalso. apply (Hdis a Ha).
    rewrite <- (Hinj' g a (HgA g Hg) (HaA a Ha) E). exact Hg.
  - intros p Hp. specialize (HcovA p Hp).
    apply set_mem_true in HcovA as (y & Hy & He).
    apply set_mem_true. exists y. split; [apply Hmem, Hy|].
    unfold allocated in *. rewrite Forall_forall in *.
    rewrite (proc_eqb_extends s s'); auto.
  - intros r Hr. apply HsubA, Hmem, Hr.
  - exact Hrc.
Qed.



End WaitProcs.




(** ** [children]: the walk over the descendants *)

Section Children.

Context {W : Type} {P : Platform W}.

Lemma keeps_create_times_refl (s : State W) : keeps_create_times s s.
Proof. intros r. split; [reflexivity|auto]. Qed.

Lemma keeps_create_times_trans (s1 s2 s3 : State W) :
  keeps_create_times s1 s2 -> keeps_create_times s2 s3 -> keeps_create_times s1 s3.
Proof.
  intros H1 H2 r. destruct (H1 r) as [Ha Hb]. destruct (H2 r) as [Ha' Hb'].
  split; [congruence|auto].
Qed.

Lemma not_older_keeps (s s' : State W) (root child : ref) :
  keeps_create_times s s' -> not_older s root child -> not_older s' root child.
Proof.
  intros Hk (sc & cc & H1 & H2 & Hle). exists sc, cc.
  split; [apply Hk, H1|]. split; [apply Hk, H2|exact Hle].
Qed.

(** [create_time]: on success the time is in the cache of the object. *)
Lemma create_time_spec (self : ref) (s s' : State W) (r : result Q) :
  create_time self s = (r, s') ->
  keeps_create_times s s' /\
  forall t, r = Ok t -> _create_time (heap s' self) = Some t.
Proof.
  unfold create_time. munfold.
  destruct (_create_time (heap s self)) as [t0|] eqn:Hc.
  - intros [= <- <-]. split; [apply keeps_create_times_refl|].
    intros t [= <-]. exact Hc.
  - destruct (proc_create_time _ _) as [[t|e] w]; simpl; intros [= <- <-].
    + split.
      * intros x. simpl. destruct (Nat.eqb x self) eqn:E.
        -- apply Nat.eqb_eq in E. subst x. split; [reflexivity|].
           intros t' Ht'. congruence.
        -- split; [reflexivity|auto].
      * intros t' [= <-]. simpl. rewrite Nat.eqb_refl. reflexivity.
    + split; [exact (keeps_create_times_refl s)|]. intros t [=].
Qed.

(** The loop over the children of one pid: what it adds to [ret] is not
    older than [self], and [checkpids] stays free of duplicates. *)
Lemma descend_spec (self : ref) (kids : list ref) :
  forall (ret_ : list ref) (cps : list Z) (s s' : State W) (r : list ref * list Z),
    descend self kids ret_ cps s = (Ok r, s') ->
    keeps_create_times s s' /\
    exists (new : list ref) (extra : list Z),
      fst r = ret_ ++ new /\ snd r = cps ++ extra /\
      (forall c, c ∈ new -> c ∈ kids /\ not_older s' self c) /\
      (NoDup cps -> NoDup (cps ++ extra)) /\
      (forall p, p ∈ extra -> exists c, c ∈ kids /\ p = _pid (heap s c)).
Proof.
  induction kids as [|child rest IH]; intros ret_ cps s s' r H.
  - simpl in H. munfold. injection H as <- <-.
    split; [apply keeps_create_times_refl|]. exists [], []. simpl.
    rewrite !app_nil_r.
    split; [reflexivity|]. split; [reflexivity|].
    split; [intros c Hc; inversion Hc|]. split; [auto|].
    intros p Hp. inversion Hp.
  - simpl in H. unfold bind at 1 in H.
    match type of H with
    | (let (_, _) := ?m s in _) = _ => destruct (m s) as [[r1|e1] s1] eqn:Hstep
    end; [|discriminate].
    destruct (IH _ _ _ _ _ H) as (Hk2 & new2 & extra2 & Hr2 & Hc2 & Hnew2 & Hnd2 & Hex2).
    (* the step on [child] *)
    assert (Hone : keeps_create_times s s1 /\
                   ((r1 = (ret_, cps)) \/
                    (not_older s1 self child /\
                     r1 = (ret_ ++ [child],
                           if bool_decide (_pid (heap s child) ∈ cps) then cps
                           else cps ++ [_pid (heap s child)])))).
    { revert Hstep. unfold try_except_else. unfold bind at 1.
      destruct (create_time self s) as [[sc|e] sa] eqn:Hcs.
      - apply create_time_spec in Hcs as [Hka Hsa]. specialize (Hsa sc eq_refl).
        unfold bind at 1.
        destruct (create_time child sa) as [[cc|e] sb] eqn:Hcc.
        + apply create_time_spec in Hcc as [Hkb Hsb]. specialize (Hsb cc eq_refl).
          assert (Hk : keeps_create_times s sb)
            by (eapply keeps_create_times_trans; eassumption).
          munfold. destruct (Qle_bool sc cc) eqn:Hle; intros [= <- <-].
          * split; [exact Hk|]. right. split.
            -- exists sc, cc. split; [apply Hkb, Hsa|]. split; [exact Hsb|].
               apply Qle_bool_iff. exact Hle.
            -- destruct (Hk child) as [-> _]. reflexivity.
          * split; [exact Hk|]. left. reflexivity.
        + apply create_time_spec in Hcc as [Hkb _].
          munfold. destruct e; try discriminate. intros [= <- <-].
          split; [eapply keeps_create_times_trans; eassumption|]. left. reflexivity.
      - apply create_time_spec in Hcs as [Hka _].
        munfold. destruct e; try discriminate. intros [= <- <-].
        split; [exact Hka|]. left. reflexivity. }
    destruct Hone as [Hk1 Hone].
    split; [eapply keeps_create_times_trans; eassumption|].
    destruct Hone as [->|[Hold ->]]; simpl in Hr2, Hc2, Hnd2.
    + exists new2, extra2.
      split; [exact Hr2|]. split; [exact Hc2|].
      split; [|split; [exact Hnd2|]].
      * intros c Hc. split; [right; apply Hnew2, Hc|apply Hnew2, Hc].
      * intros p Hp. destruct (Hex2 p Hp) as (c & Hc & ->).
        exists c. split; [right; exact Hc|]. apply Hk1.
    + set (cps1 := if bool_decide (_pid (heap s child) ∈ cps) then cps
                   else cps ++ [_pid (heap s child)]) in *.
      assert (Hcps1 : exists e1, cps1 = cps ++ e1 /\
                                 (NoDup cps -> NoDup cps1) /\
                                 (forall p, p ∈ e1 -> p = _pid (heap s child))).
      { unfold cps1. destruct (bool_decide (_pid (heap s child) ∈ cps)) eqn:E.
        - exists []. rewrite app_nil_r. repeat split; auto. intros p Hp. inversion Hp.
        - exists [_pid (heap s child)]. repeat split.
          + intros Hnd. apply NoDup_app. repeat split; [exact Hnd| |apply NoDup_singleton].
            intros x Hx Hx'. apply list_elem_of_singleton in Hx'. subst x.
            apply bool_decide_eq_false in E. contradiction.
          + intros p Hp. apply list_elem_of_singleton in Hp. exact Hp. }
      destruct Hcps1 as (e1 & He1 & Hnd1 & Hp1).
      exists (child :: new2), (e1 ++ extra2).
      split; [rewrite Hr2, <- app_assoc; reflexivity|].
      split; [rewrite Hc2, He1, <- app_assoc; reflexivity|].
      split; [|split].
      * intros c Hc. apply elem_of_cons in Hc as [->|Hc].
        -- split; [left|]. eapply not_older_keeps; eassumption.
        -- split; [right; apply Hnew2, Hc|apply Hnew2, Hc].
      * intros Hnd. rewrite app_assoc, <- He1. apply Hnd2, Hnd1, Hnd.
      * intros p Hp. apply elem_of_app in Hp as [Hp|Hp].
        -- exists child. split; [left|apply Hp1, Hp].
        -- destruct (Hex2 p Hp) as (c & Hc & ->).
           exists c. split; [right; exact Hc|]. apply Hk1.
Qed.

Lemma table_get_procs (table : gmap (option Z) (list ref)) (k : option Z) (c : ref) :
  c ∈ table_get table k -> c ∈ table_procs table.
Proof.
  unfold table_get, table_procs. destruct (table !! k) as [l|] eqn:Hk; simpl.
  - intros Hc. apply list_elem_of_In, in_concat. exists l.
    split; [|apply list_elem_of_In, Hc].
    apply list_elem_of_In, list_elem_of_fmap. exists (k, l).
    split; [reflexivity|]. apply elem_of_map_to_list. exact Hk.
  - intros Hc. inversion Hc.
Qed.

(** The loop over [checkpids].  [U] holds [self.pid] and the pids of the
    objects of the table: [checkpids] is a list of pids of [U] without
    duplicates, so it is not longer than [U], and [fuel] turns are
    enough when [fuel + i] is the length of [U] or more. *)
Lemma walk_spec (self : ref) (table : gmap (option Z) (list ref)) (U : list Z) :
  forall (fuel i : nat) (ret_ : list ref) (cps expd : list Z) (s s' : State W)
         (r : result (option walked)),
    (length U <= fuel + i)%nat -> NoDup cps -> cps ⊆ U -> expd = take i cps ->
    (forall c, c ∈ ret_ -> not_older s self c) ->
    (forall c, c ∈ table_procs table -> _pid (heap s c) ∈ U) ->
    walk fuel self table i ret_ cps expd s = (r, s') ->
    r <> Ok None /\
    forall w, r = Ok (Some w) ->
      keeps_create_times s s' /\
      NoDup (w_checkpids w) /\ w_expanded w = w_checkpids w /\
      forall c, c ∈ w_ret w -> not_older s' self c.
Proof.
  induction fuel as [|fuel IH];
    intros i ret_ cps expd s s' r Hlen Hnd Hsub Hexp Hret Hpids Hw.
  - simpl in Hw. destruct (cps !! i) as [pid|] eqn:Hi.
    + exfalso. apply lookup_lt_Some in Hi.
      pose proof (submseteq_length _ _ (NoDup_submseteq _ _ Hnd Hsub)). lia.
    + munfold. injection Hw as <- <-. split; [discriminate|].
      intros w [= <-]. simpl. split; [apply keeps_create_times_refl|].
      split; [exact Hnd|]. split; [|exact Hret].
      rewrite Hexp. apply take_ge. apply lookup_ge_None_1. exact Hi.
  - simpl in Hw. destruct (cps !! i) as [pid|] eqn:Hi.
    + unfold bind at 1 in Hw.
      destruct (descend self (table_get table (Some pid)) ret_ cps s)
        as [[r1|e] s1] eqn:Hd.
      * destruct (descend_spec _ _ _ _ _ _ _ Hd)
          as (Hk1 & new & extra & Hr1 & Hc1 & Hnew & Hnd1 & Hex).
        destruct (IH (S i) (fst r1) (snd r1) (expd ++ [pid]) s1 s' r) as [Hnone Hsome];
          try assumption.
        -- lia.
        -- rewrite Hc1. apply Hnd1, Hnd.
        -- rewrite Hc1. intros p Hp. apply elem_of_app in Hp as [Hp|Hp]; [apply Hsub, Hp|].
           destruct (Hex p Hp) as (c & Hc & ->).
           apply Hpids. eapply table_get_procs. exact Hc.
        -- rewrite Hc1, Hexp. rewrite take_app_le by (apply lookup_lt_Some in Hi; lia).
           symmetry. apply take_S_r. exact Hi.
        -- rewrite Hr1. intros c Hc. apply elem_of_app in Hc as [Hc|Hc].
           ++ eapply not_older_keeps; [exact Hk1|]. apply Hret, Hc.
           ++ apply Hnew, Hc.
        -- intros c Hc. destruct (Hk1 c) as [-> _]. apply Hpids, Hc.
        -- split; [exact Hnone|]. intros w Hw'.
           destruct (Hsome w Hw') as (Hk2 & H1 & H2 & H3).
           split; [eapply keeps_create_times_trans; eassumption|].
           repeat split; assumption.
      * injection Hw as <- <-. split; [discriminate|]. intros w [=].
    + munfold. injection Hw as <- <-. split; [discriminate|].
      intros w [= <-]. simpl. split; [apply keeps_create_times_refl|].
      split; [exact Hnd|]. split; [|exact Hret].
      rewrite Hexp. apply take_ge. apply lookup_ge_None_1. exact Hi.
Qed.

(** The walk as [children] starts it. *)
Lemma walk_from_root (self : ref) (table : gmap (option Z) (list ref))
    (self_pid : Z) (s s' : State W) (r : result (option walked)) :
  walk (walk_fuel table) self table 0 [] [self_pid] [] s = (r, s') ->
  r <> Ok None /\
  forall w, r = Ok (Some w) ->
    NoDup (w_expanded w) /\ w_expanded w = w_checkpids w /\
    forall c, c ∈ w_ret w -> not_older s' self c.
Proof.
  intros Hw.
  destruct (walk_spec self table
              (self_pid :: ((fun c => _pid (heap s c)) <$> table_procs table))
              (walk_fuel table) 0 [] [self_pid] [] s s' r) as [Hnone Hsome];
    try assumption.
  - simpl. rewrite length_fmap. unfold walk_fuel. lia.
  - apply NoDup_singleton.
  - intros p Hp. apply list_elem_of_singleton in Hp. subst. left.
  - reflexivity.
  - intros c Hc. inversion Hc.
  - intros c Hc. right. apply list_elem_of_fmap. exists c. split; [reflexivity|exact Hc].
  - split; [exact Hnone|]. intros w Hw'.
    destruct (Hsome w Hw') as (_ & H1 & H2 & H3).
    split; [rewrite H2; exact H1|]. split; assumption.
Qed.

(** What [children(recursive=True)] returns is what a walk returns. *)
Lemma children_is_walk (self : ref) (s s' : State W) (r : result (option (list ref))) :
  children self true s = (r, s') ->
  (exists e, r = Raise e) \/
  exists (table : gmap (option Z) (list ref)) (self_pid : Z) (s1 : State W)
         (rw : option walked),
    walk (walk_fuel table) self table 0 [] [self_pid] [] s1 = (Ok rw, s') /\
    r = Ok (w_ret <$> rw).
Proof.
  unfold children, _assert_pid_not_reused, children_body, children_recursive.
  unfold bind at 1.
  destruct (is_running self s) as [[[|]|e] s0]; cbn [negb];
    [|munfold; intros [= <- <-]; left; eauto|intros [= <- <-]; left; eauto].
  unfold bind at 1.
  match goal with
  | |- (let (_, _) := ?m s0 in _) = _ -> _ => destruct (m s0) as [[pm|e] s1]
  end; [|intros [= <- <-]; left; eauto].
  unfold bind at 1, deref at 1. unfold bind at 1. unfold bind at 1.
  match goal with
  | |- (let (_, _) := (let (_, _) := ?m s1 in _) in _) = _ -> _ =>
      destruct (m s1) as [[table|e] s2]
  end; [|intros [= <- <-]; left; eauto].
  destruct (walk (walk_fuel table) self table 0 [] [_pid (heap s1 self)] [] s2)
    as [[rw|e] s3] eqn:Hw; munfold; intros [= <- <-].
  - right. exists table, (_pid (heap s1 self)), s2, rw. split; [exact Hw|reflexivity].
  - left. eauto.
Qed.

(** C7.  In the recursive mode the loop over [checkpids] expands every
    pid at most once: the pids it has expanded are the final [checkpids],
    a list without duplicates.  It ends within one turn for [self.pid]
    and one for every object of the table, whatever the table holds, so
    [children] always comes back.  Every object that [children] returns
    has a creation time that is at least the creation time of [self], the
    object the method was called on. *)
Theorem children_recursive_walk (self : ref) :
  (forall (table : gmap (option Z) (list ref)) (self_pid : Z) (s : State W),
      fst (walk (walk_fuel table) self table 0 [] [self_pid] [] s) <> Ok None
      /\ forall (w : walked) (s' : State W),
           walk (walk_fuel table) self table 0 [] [self_pid] [] s = (Ok (Some w), s') ->
           NoDup (w_expanded w) /\ w_expanded w = w_checkpids w /\
           forall c, c ∈ w_ret w -> not_older s' self c)
  /\ (forall s : State W, fst (children self true s) <> Ok None)
  /\ (forall (s s' : State W) (l : list ref),
         children self true s = (Ok (Some l), s') ->
         forall c, c ∈ l -> not_older s' self c).
Proof.
  split; [|split].
  - intros table self_pid s.
    destruct (walk (walk_fuel table) self table 0 [] [self_pid] [] s) as [r s'] eqn:Hw.
    destruct (walk_from_root _ _ _ _ _ _ Hw) as [Hnone Hsome].
    split; [exact Hnone|]. intros w s2 [= -> <-]. apply Hsome. reflexivity.
  - intros s. destruct (children self true s) as [r s'] eqn:Hc. simpl.
    destruct (children_is_walk _ _ _ _ Hc) as [[e ->]|(table & pid & s1 & rw & Hw & ->)];
      [discriminate|].
    destruct (walk_from_root _ _ _ _ _ _ Hw) as [Hnone _].
    destruct rw; [discriminate|]. exfalso. apply Hnone. reflexivity.
  - intros s s' l Hc c Hl.
    destruct (children_is_walk _ _ _ _ Hc) as [[e He]|(table & pid & s1 & rw & Hw & Hr)];
      [discriminate|].
    destruct (walk_from_root _ _ _ _ _ _ Hw) as [_ Hsome].
    destruct rw as [w|]; [|discriminate]. injection Hr as ->.
    destruct (Hsome w eq_refl) as (_ & _ & H3). apply H3, Hl.
Qed.

End Children.

(** Process 1 and its descendants: 2 and, through 2, 3, which is older than
    its parent 2 but not older than 1; not 4, which is older than 1. *)
Lemma children_recursive_walk_witness :
  let P := Scripted.platform Scripted.family in
  let s := snd (Process_ 1 (Scripted.start Scripted.family)) in
  exists (l : list ref) (s' : State nat),
    children 0%nat true s = (Ok (Some l), s')
    /\ (fun c => _pid (heap s' c)) <$> l = [2; 3]
    /\ forall c, c ∈ l -> not_older s' 0%nat c.
Proof.
  intros P s.
  exists (fst (default ([], s) ((fun l => (l, s)) <$>
                                  match fst (children 0%nat true s) with
                                  | Ok (Some l) => Some l
                                  | _ => None
                                  end))),
         (snd (children 0%nat true s)).
  assert (Hrun : children 0%nat true s
                 = (Ok (Some (fst (default ([], s) ((fun l => (l, s)) <$>
                                  match fst (children 0%nat true s) with
                                  | Ok (Some l) => Some l
                                  | _ => None
                                  end)))), snd (children 0%nat true s)))
    by (vm_compute; reflexivity).
  split; [exact Hrun|]. split; [vm_compute; reflexivity|].
  exact (proj2 (proj2 (children_recursive_walk (P := P) 0%nat)) s _ _ Hrun).
Defined.

(** ** [process_iter] *)

Global Instance item_le_trans : Transitive item_le.
Proof. intros x y z. unfold item_le. lia. Qed.

Global Instance item_le_total : Total item_le.
Proof. intros x y. unfold item_le. lia. Qed.

Lemma sorted_pids_elem (live : list Z) (k : Z) : k ∈ sorted_pids live <-> k ∈ live.
Proof.
  unfold sorted_pids. rewrite merge_sort_Permutation, elem_of_elements.
  apply elem_of_list_to_set.
Qed.

Lemma sorted_pids_NoDup (live : list Z) : NoDup (sorted_pids live).
Proof. unfold sorted_pids. rewrite merge_sort_Permutation. apply NoDup_elements. Qed.

Lemma sorted_pids_sorted (live : list Z) : StronglySorted Z.le (sorted_pids live).
Proof. unfold sorted_pids. apply StronglySorted_merge_sort; apply _. Qed.

(** A sorted list without duplicates ascends strictly. *)
Lemma StronglySorted_lt (l : list Z) :
  StronglySorted Z.le l -> NoDup l -> StronglySorted Z.lt l.
Proof.
  induction 1 as [|x l Hl IH Hx]; intros Hnd; [constructor|].
  apply NoDup_cons in Hnd as [Hn Hnd]. constructor; [apply IH, Hnd|].
  rewrite Forall_forall in *. intros y Hy. specialize (Hx y Hy).
  assert (x <> y) by (intros ->; contradiction). lia.
Qed.

Lemma sublist_StronglySorted_lt (l1 l2 : list Z) :
  l1 `sublist_of` l2 -> StronglySorted Z.lt l2 -> StronglySorted Z.lt l1.
Proof.
  induction 1 as [|x l1 l2 Hs IH|x l1 l2 Hs IH]; intros H2.
  - constructor.
  - apply StronglySorted_inv in H2 as [H2 Hx]. constructor; [apply IH, H2|].
    rewrite Forall_forall in *. intros y Hy. apply Hx.
    eapply sublist_subseteq; eassumption.
  - apply StronglySorted_inv in H2 as [H2 _]. apply IH, H2.
Qed.

Section ProcessIter.

Context {W : Type} {P : Platform W}.

(** The purge of the cache. *)
Lemma for_each_remove (l : list Z) :
  forall s : State W,
    exists s',
      for_each l remove s = (Ok tt, s') /\
      world s' = world s /\ heap s' = heap s /\ next_ref s' = next_ref s /\
      log s' = log s /\
      forall k, _pmap s' !! k = if decide (k ∈ l) then None else _pmap s !! k.
Proof.
  induction l as [|x l IH]; intros s.
  - exists s. simpl. repeat split.
  - destruct (IH (set_pmap (delete x (_pmap s)) s)) as (s' & Hr & Hw & Hh & Hn & Hl & Hp).
    exists s'. simpl. unfold bind, remove at 1, modify. rewrite Hr.
    repeat split; try assumption. intros k. rewrite Hp. simpl.
    destruct (decide (k ∈ l)) as [Hk|Hk].
    + rewrite decide_True by (right; exact Hk). reflexivity.
    + destruct (decide (k = x)) as [->|Hne].
      * rewrite decide_True by left. apply lookup_delete_eq.
      * rewrite decide_False.
        -- apply lookup_delete_ne. congruence.
        -- intros Hin. apply elem_of_cons in Hin as [?|?]; contradiction.
Qed.

(** The items of a pass: one for every pid of the system, in ascending
    order, with the object that the purged cache holds for it. *)
Lemma process_iter_items_spec (s : State W) :
  let live := fst (plat_pids (world s)) in
  exists s',
    process_iter_items s
    = (Ok ((fun k => (k, _pmap s' !! k)) <$> sorted_pids live), s') /\
    world s' = snd (plat_pids (world s)) /\
    heap s' = heap s /\ next_ref s' = next_ref s /\ log s' = log s /\
    forall k, _pmap s' !! k = if decide (k ∈ live) then _pmap s !! k else None.
Proof.
  intros live. unfold process_iter_items, pids. munfold.
  destruct (plat_pids (world s)) as [l w] eqn:Hp. simpl in live. simpl.
  destruct (for_each_remove (elements (dom (_pmap s) ∖ list_to_set l))
              (set_world w s)) as (s' & Hr & Hw & Hh & Hn & Hl & Hpm).
  rewrite Hr. exists s'.
  assert (Hpm' : forall k, _pmap s' !! k = if decide (k ∈ live) then _pmap s !! k else None).
  { intros k. rewrite Hpm. simpl.
    destruct (decide (k ∈ live)) as [Hk|Hk].
    - rewrite decide_False; [reflexivity|].
      rewrite elem_of_elements, elem_of_difference, elem_of_list_to_set. tauto.
    - destruct (_pmap s !! k) as [r|] eqn:Hk'.
      + rewrite decide_True; [reflexivity|].
        rewrite elem_of_elements, elem_of_difference, elem_of_list_to_set, elem_of_dom.
        split; [eauto|exact Hk].
      + destruct (decide _); reflexivity. }
  split; [|repeat split; assumption].
  f_equal. f_equal.
  set (orig := ((fun kv : Z * ref => (kv.1, Some kv.2)) <$> map_to_list (_pmap s'))
               ++ ((fun pid : Z => (pid, None)) <$>
                     elements (list_to_set l ∖ dom (_pmap s)))).
  assert (Hin : forall k o, (k, o) ∈ orig <-> k ∈ live /\ o = _pmap s' !! k).
  { intros k o. unfold orig. rewrite elem_of_app, !list_elem_of_fmap. split.
    - intros [([k' r] & [= -> ->] & Hkr)|(k' & [= -> ->] & Hk')].
      + apply elem_of_map_to_list in Hkr. simpl in *. split; [|congruence].
        rewrite Hpm' in Hkr. destruct (decide (k' ∈ live)); [assumption|discriminate].
      + apply elem_of_elements, elem_of_difference in Hk' as [Ha Hb].
        apply elem_of_list_to_set in Ha. split; [exact Ha|].
        rewrite Hpm', decide_True by exact Ha.
        apply not_elem_of_dom in Hb. congruence.
    - intros [Hk ->]. destruct (_pmap s' !! k) as [r|] eqn:Hkr.
      + left. exists (k, r). split; [reflexivity|]. apply elem_of_map_to_list, Hkr.
      + right. exists k. split; [reflexivity|].
        apply elem_of_elements, elem_of_difference. split.
        * apply elem_of_list_to_set, Hk.
        * apply not_elem_of_dom. rewrite Hpm', decide_True in Hkr by exact Hk. exact Hkr. }
  apply StronglySorted_unique_strong with (R := item_le).
  - intros [k1 o1] [k2 o2] H1 H2 Hle1 Hle2. unfold item_le in *. simpl in *.
    rewrite merge_sort_Permutation in H1. apply Hin in H1 as [_ ->].
    apply list_elem_of_fmap in H2 as (k & [= -> ->] & _).
    assert (k1 = k) by lia. subst. reflexivity.
  - apply StronglySorted_merge_sort; apply _.
  - apply (StronglySorted_fmap _ Z.le); [|apply sorted_pids_sorted].
    intros x y Hxy. exact Hxy.
  - rewrite merge_sort_Permutation. apply NoDup_Permutation.
    + unfold orig. apply NoDup_app. repeat split.
      * apply NoDup_fmap_2_strong; [|apply NoDup_map_to_list].
        intros [k1 r1] [k2 r2] _ _ [= -> ->]. reflexivity.
      * intros [k o] H1 H2. apply list_elem_of_fmap in H1 as ([k1 r1] & [= -> ->] & _).
        apply list_elem_of_fmap in H2 as (k2 & Heq & _). discriminate Heq.
      * apply NoDup_fmap_2_strong; [|apply NoDup_elements].
        intros k1 k2 _ _ [= ->]. reflexivity.
    + apply NoDup_fmap_2_strong; [|apply sorted_pids_NoDup].
      intros k1 k2 _ _ [= ->]. reflexivity.
    + intros [k o]. etransitivity; [apply Hin|]. rewrite list_elem_of_fmap. split.
      * intros [Hk ->]. exists k. split; [reflexivity|]. apply sorted_pids_elem, Hk.
      * intros (k' & [= -> ->] & Hk'). split; [|reflexivity].
        apply sorted_pids_elem, Hk'.
Qed.

(** The local function [add], by the answer of the platform. *)
Lemma add_spec (pid : Z) (s : State W) :
  0 <= pid ->
  exists s',
    let n := next_ref s in
    world s' = snd (proc_create_time pid (world s)) /\
    next_ref s' = S n /\ log s' = log s /\
    (forall r, r <> n -> heap s' r = heap s r) /\
    match fst (proc_create_time pid (world s)) with
    | Ok t => add pid s = (Ok n, s') /\
              heap s' n = new_process pid (Some t) false /\
              _pmap s' = <[pid := n]> (_pmap s)
    | Raise AccessDenied => add pid s = (Ok n, s') /\
                            heap s' n = new_process pid None false /\
                            _pmap s' = <[pid := n]> (_pmap s)
    | Raise (NoSuchProcess _) =>
        add pid s = (Raise (NoSuchProcess pid), s') /\ _pmap s' = _pmap s
    | Raise e => add pid s = (Raise e, s') /\ _pmap s' = _pmap s
    end.
Proof.
  intros Hpid.
  destruct (_init_spec pid false s Hpid)
    as (s1 & Hw & Hn & Hpm & Hlog & _ & Hfr & Hres).
  unfold add, Process_. munfold.
  destruct (fst (proc_create_time pid (world s))) as [t|e].
  - destruct Hres as [Hi Hh]. rewrite Hi. rewrite Hh. simpl.
    exists (set_pmap (<[pid:=next_ref s]> (_pmap s1)) s1). simpl.
    repeat split; try assumption. rewrite Hpm. reflexivity.
  - destruct e; try (rewrite Hres; exists s1; repeat split; assumption).
    destruct Hres as [Hi Hh]. rewrite Hi. rewrite Hh. simpl.
    exists (set_pmap (<[pid:=next_ref s]> (_pmap s1)) s1). simpl.
    repeat split; try assumption. rewrite Hpm. reflexivity.
Qed.

Lemma add_negative (pid : Z) (s : State W) :
  pid < 0 -> add pid s = (Raise ValueError, s).
Proof.
  intros Hpid. unfold add, Process_. munfold.
  rewrite _init_negative by exact Hpid. reflexivity.
Qed.

(** What [add] leaves. *)
Lemma add_frame (pid : Z) (s s' : State W) (r : result ref) :
  add pid s = (r, s') ->
  extends s s' /\
  match r with
  | Ok n => (n < next_ref s')%nat /\ _pid (heap s' n) = pid /\ 0 <= pid /\
            _pmap s' = <[pid := n]> (_pmap s)
  | Raise e => _pmap s' = _pmap s
  end.
Proof.
  intros Ha. destruct (Z.lt_ge_cases pid 0) as [Hneg|Hpos].
  { rewrite add_negative in Ha by exact Hneg. injection Ha as <- <-.
    split; [apply extends_refl|reflexivity]. }
  destruct (add_spec pid s Hpos) as (s1 & _ & Hn & _ & Hfr & Hres).
  assert (Hext : extends s s1).
  { split; [lia|]. intros x Hx. rewrite Hfr by lia. repeat split. auto. }
  destruct (fst (proc_create_time pid (world s))) as [t|e].
  - destruct Hres as (Hi & Hh & Hpm). rewrite Hi in Ha. injection Ha as <- <-.
    split; [exact Hext|]. rewrite Hh. repeat split; [lia|exact Hpos|exact Hpm].
  - destruct e; destruct Hres as (Hi & Hh); rewrite Hi in Ha; injection Ha as <- <-;
      (split; [exact Hext|]); try exact Hh.
    destruct Hh as [Hh Hpm]. rewrite Hh. repeat split; [lia|exact Hpos|exact Hpm].
Qed.

(** [is_running] leaves the cache alone. *)
Lemma is_running_pmap (self : ref) (s s' : State W) (r : result bool) :
  is_running self s = (r, s') -> _pmap s' = _pmap s.
Proof.
  unfold is_running, Process_, _init, __eq__, create_time. munfold.
  destruct (_gone (heap s self)); [intros [= <- <-]; reflexivity|].
  destruct (_pid (heap s self) <? 0); [intros [= <- <-]; reflexivity|].
  simpl. rewrite Nat.eqb_refl. simpl.
  destruct (proc_create_time _ _) as [[t|e] w]; simpl.
  - intros [= <- <-]. reflexivity.
  - destruct e; simpl; intros [= <- <-]; reflexivity.
Qed.

(** One turn of the generator: what it yields is an object of the store
    with the pid of the item, and the cache changes at that pid only, to
    what is yielded. *)
Lemma process_iter_step_frame (k : Z) (o : option ref) (s s' : State W)
    (y : option ref) :
  (forall pr, o = Some pr -> (pr < next_ref s)%nat /\ _pid (heap s pr) = k) ->
  process_iter_step (k, o) s = (Ok y, s') ->
  extends s s' /\
  (forall r, y = Some r -> (r < next_ref s')%nat /\ _pid (heap s' r) = k) /\
  (forall j r, _pmap s' !! j = Some r ->
               _pmap s !! j = Some r \/ (j = k /\ y = Some r /\ 0 <= k)).
Proof.
  intros Ho. unfold process_iter_step, try_except.
  assert (Hadd : forall s1 : State W,
             extends s s1 -> _pmap s1 = _pmap s ->
             (let (r, s2) := (let* q := add k in ret (Some q)) s1 in
              match r with
              | Ok a => (Ok a, s2)
              | Raise e =>
                  match e with
                  | NoSuchProcess _ => remove k;; ret None
                  | AccessDenied => ret o
                  | _ => raise e
                  end s2
              end) = (Ok y, s') ->
             extends s s' /\
             (forall r, y = Some r -> (r < next_ref s')%nat /\ _pid (heap s' r) = k) /\
             (forall j r, _pmap s' !! j = Some r ->
                          _pmap s !! j = Some r \/ (j = k /\ y = Some r /\ 0 <= k))).
  { intros s1 Hext1 Hpm1. unfold bind at 1.
    destruct (add k s1) as [[n|e] s2] eqn:Ha; apply add_frame in Ha as [Hext2 Hn].
    - munfold. intros [= <- <-]. destruct Hn as (Hlt & Hp & H0 & Hpm2).
      split; [eapply extends_trans; eassumption|].
      split; [intros r [= <-]; split; assumption|].
      intros j r Hr. rewrite Hpm2, Hpm1 in Hr.
      destruct (decide (k = j)) as [<-|Hne].
      + rewrite lookup_insert_eq in Hr. injection Hr as <-. right. auto.
      + rewrite lookup_insert_ne in Hr by exact Hne. left. exact Hr.
    - destruct e; munfold; try discriminate.
      + intros [= <- <-]. split; [eapply extends_trans; [exact Hext1|exact Hext2]|].
        split; [intros r [=]|].
        simpl. intros j r Hr. left. rewrite Hn, Hpm1 in Hr.
        destruct (decide (k = j)) as [<-|Hne].
        * rewrite lookup_delete_eq in Hr. discriminate.
        * rewrite lookup_delete_ne in Hr by exact Hne. exact Hr.
      + intros [= <- <-]. split; [eapply extends_trans; eassumption|].
        split.
        * intros r Hr. destruct (Ho r Hr) as [Hlt Hp].
          assert (Hext : extends s s2) by (eapply extends_trans; eassumption).
          destruct Hext as [Hle Hpres]. destruct (Hpres r Hlt) as (Hp' & _).
          split; [lia|congruence].
        * intros j r Hr. left. rewrite Hn, Hpm1 in Hr. exact Hr. }
  destruct o as [pr|]; [|apply Hadd; [apply extends_refl|reflexivity]].
  unfold bind at 1.
  destruct (is_running pr s) as [[b|e] s1] eqn:Hr;
    pose proof (is_running_pmap _ _ _ _ Hr) as Hpm1;
    apply is_running_extends in Hr as [Hext1 _].
  - destruct b; [|apply Hadd; assumption].
    munfold. intros [= <- <-]. split; [exact Hext1|]. split.
    + intros r [= <-]. destruct (Ho pr eq_refl) as [Hlt Hp].
      destruct Hext1 as [Hle Hpres]. destruct (Hpres pr Hlt) as (Hp' & _).
      split; [lia|congruence].
    + intros j r Hr. left. rewrite Hpm1 in Hr. exact Hr.
  - destruct e; munfold; try discriminate.
    + intros [= <- <-]. split; [exact Hext1|]. split; [intros r [=]|].
      simpl. intros j r Hr. left. rewrite Hpm1 in Hr.
      destruct (decide (k = j)) as [<-|Hne].
      * rewrite lookup_delete_eq in Hr. discriminate.
      * rewrite lookup_delete_ne in Hr by exact Hne. exact Hr.
    + intros [= <- <-]. split; [exact Hext1|]. split.
      * intros r [= <-]. destruct (Ho pr eq_refl) as [Hlt Hp].
        destruct Hext1 as [Hle Hpres]. destruct (Hpres pr Hlt) as (Hp' & _).
        split; [lia|congruence].
      * intros j r Hr. left. rewrite Hpm1 in Hr. exact Hr.
Qed.

(** No statement of the [try] block of the generator raises
    [AccessDenied]: the constructor swallows it. *)
Lemma _init_not_AccessDenied (pid : Z) (ign : bool) (s s' : State W) :
  _init pid ign s <> (Raise AccessDenied, s').
Proof.
  destruct (Z.lt_ge_cases pid 0) as [Hneg|Hpos].
  { rewrite _init_negative by exact Hneg. discriminate. }
  destruct (_init_spec pid ign s Hpos) as (s1 & _ & _ & _ & _ & _ & _ & Hres).
  destruct (fst (proc_create_time pid (world s))) as [t|e].
  - destruct Hres as [-> _]. discriminate.
  - destruct e; try (rewrite Hres; discriminate).
    + destruct ign; [destruct Hres as [-> _]|rewrite Hres]; discriminate.
    + destruct Hres as [-> _]. discriminate.
Qed.

Lemma process_iter_try_not_AccessDenied (pid : Z) (proc : option ref) (s s' : State W) :
  match proc with
  | None => let* q := add pid in ret (Some q)
  | Some pr =>
      let* running := is_running pr in
      if running then ret (Some pr)
      else let* q := add pid in ret (Some q)
  end s <> (Raise AccessDenied, s').
Proof.
  assert (Hadd : forall s1 s2 : State W,
             (let* q := add pid in ret (Some q)) s1 <> (Raise AccessDenied, s2)).
  { intros s1 s2. unfold add, Process_. munfold.
    destruct (_init pid false s1) as [[n|e] s3] eqn:Hi; [discriminate|].
    intros [= -> ->]. exact (_init_not_AccessDenied _ _ _ _ Hi). }
  destruct proc as [pr|]; [|apply Hadd].
  unfold bind at 1. destruct (is_running pr s) as [[[|]|e] s1] eqn:Hr.
  - discriminate.
  - apply Hadd.
  - intros [= -> ->]. revert Hr. unfold is_running, Process_, __eq__. munfold.
    destruct (_gone (heap s pr)); [discriminate|].
    destruct (_init (_pid (heap s pr)) false s) as [[n|e] s3] eqn:Hi; [discriminate|].
    destruct e; try discriminate.
    intros _. exact (_init_not_AccessDenied _ _ _ _ Hi).
Qed.

(** A pass yields objects of the store whose pids are, in order, pids of
    its items; it keeps the cache well formed. *)
Lemma process_iter_loop_pids (items : list item) :
  forall (acc : list ref) (s s' : State W) (ys : list ref),
    (forall k pr, (k, Some pr) ∈ items ->
                  (pr < next_ref s)%nat /\ _pid (heap s pr) = k) ->
    process_iter_loop items (fun p acc => ret (acc ++ [p])) acc s = (Ok ys, s') ->
    extends s s' /\
    (pmap_wf s -> pmap_wf s') /\
    exists new, ys = acc ++ new /\ allocated s' new /\
                (fun r => _pid (heap s' r)) <$> new `sublist_of` items.*1.
Proof.
  induction items as [|[k o] items IH]; intros acc s s' ys Hit Hloop.
  - simpl in Hloop. munfold. injection Hloop as <- <-.
    split; [apply extends_refl|]. split; [auto|]. exists []. rewrite app_nil_r.
    split; [reflexivity|]. split; [apply Forall_nil; exact I|constructor].
  - cbn [process_iter_loop] in Hloop. unfold bind at 1 in Hloop.
    destruct (process_iter_step (k, o) s) as [[y|e] s1] eqn:Hstep; [|discriminate].
    apply process_iter_step_frame in Hstep as (Hext1 & Hy & Hpm1);
      [|intros pr ->; apply Hit; left].
    assert (Hit1 : forall k' pr, (k', Some pr) ∈ items ->
                                 (pr < next_ref s1)%nat /\ _pid (heap s1 pr) = k').
    { intros k' pr Hin. destruct (Hit k' pr) as [Hlt Hp]; [right; exact Hin|].
      destruct Hext1 as [Hle Hpres]. destruct (Hpres pr Hlt) as (Hp' & _).
      split; [lia|congruence]. }
    assert (Hwf1 : pmap_wf s -> pmap_wf s1).
    { intros Hwf j r Hr. destruct (Hpm1 j r Hr) as [Hold|(-> & -> & H0)].
      - destruct (Hwf j r Hold) as (Hlt & Hp & H0).
        destruct Hext1 as [Hle Hpres]. destruct (Hpres r Hlt) as (Hp' & _).
        repeat split; [lia|congruence|exact H0].
      - destruct (Hy r eq_refl) as [Hlt Hp]. repeat split; assumption. }
    unfold bind at 1 in Hloop.
    destruct y as [p|]; unfold ret at 1 in Hloop.
    + destruct (IH _ _ _ _ Hit1 Hloop) as (Hext2 & Hwf2 & new & -> & Hal & Hsub).
      split; [eapply extends_trans; eassumption|]. split; [auto|].
      exists (p :: new). split; [rewrite <- app_assoc; reflexivity|].
      destruct (Hy p eq_refl) as [Hlt Hp].
      destruct Hext2 as [Hle Hpres]. destruct (Hpres p Hlt) as (Hp' & _).
      split; [apply Forall_cons; split; [lia|exact Hal]|].
      simpl. rewrite Hp', Hp. apply sublist_skip, Hsub.
    + destruct (IH _ _ _ _ Hit1 Hloop) as (Hext2 & Hwf2 & new & -> & Hal & Hsub).
      split; [eapply extends_trans; eassumption|]. split; [auto|].
      exists new. split; [reflexivity|]. split; [exact Hal|].
      simpl. apply sublist_cons, Hsub.
Qed.

(** *** Without churn *)

Lemma add_no_churn (live : list Z) (ct : Z -> result Q) (k : Z)
    (s1 s2 : State W) (r : result ref) :
  no_churn live ct -> add k s1 = (r, s2) ->
  (next_ref s1 <= next_ref s2)%nat /\
  (forall x, (x < next_ref s1)%nat -> heap s2 x = heap s1 x) /\
  match r with
  | Ok n => 0 <= k /\ (n < next_ref s2)%nat /\
            _pmap s2 = <[k := n]> (_pmap s1) /\
            exists c, ident_time ct k = Some c /\ heap s2 n = new_process k c false
  | Raise (NoSuchProcess _) =>
      0 <= k /\ _pmap s2 = _pmap s1 /\ exists e, ct k = Raise (NoSuchProcess e)
  | Raise e => e <> AccessDenied
  end.
Proof.
  intros [_ Hct] Ha. destruct (Z.lt_ge_cases k 0) as [Hneg|Hpos].
  { rewrite add_negative in Ha by exact Hneg. injection Ha as <- <-.
    split; [lia|]. split; [reflexivity|discriminate]. }
  destruct (add_spec k s1 Hpos) as (s' & _ & Hn & _ & Hfr & Hres).
  rewrite Hct in Hres. unfold ident_time.
  assert (Hfr' : forall x, (x < next_ref s1)%nat -> heap s' x = heap s1 x)
    by (intros x Hx; apply Hfr; lia).
  destruct (ct k) as [t|e] eqn:Hk.
  - destruct Hres as (Hi & Hh & Hpm). rewrite Hi in Ha. injection Ha as <- <-.
    split; [lia|]. split; [exact Hfr'|].
    split; [exact Hpos|]. split; [lia|]. split; [exact Hpm|].
    exists (Some t). split; [reflexivity|exact Hh].
  - destruct e; destruct Hres as (Hi & Hh); rewrite Hi in Ha; injection Ha as <- <-;
      (split; [lia|]); (split; [exact Hfr'|]); try discriminate.
    + split; [exact Hpos|]. split; [exact Hh|]. eauto.
    + destruct Hh as [Hh Hpm]. split; [exact Hpos|]. split; [lia|]. split; [exact Hpm|].
      exists None. split; [reflexivity|exact Hh].
Qed.

Lemma is_running_no_churn (live : list Z) (ct : Z -> result Q) (k : Z) (pr : ref)
    (s s1 : State W) (r : result bool) :
  no_churn live ct ->
  (pr < next_ref s)%nat -> _pid (heap s pr) = k -> 0 <= k ->
  is_running pr s = (r, s1) ->
  (next_ref s <= next_ref s1)%nat /\ _pmap s1 = _pmap s /\
  (forall x, (x < next_ref s)%nat -> x <> pr -> heap s1 x = heap s x) /\
  _pid (heap s1 pr) = k /\
  match r with
  | Ok true => heap s1 pr = heap s pr /\ _gone (heap s pr) = false /\
               exists c, ident_time ct k = Some c /\
                         ident_eqb (_ident (heap s pr)) (Some (k, c)) = true
  | Ok false => True
  | Raise e => e <> AccessDenied /\ is_NoSuchProcess e = false
  end.
Proof.
  intros [_ Hct] Hlt Hpid Hk Hr.
  destruct (_gone (heap s pr)) eqn:Hg.
  { rewrite is_running_gone in Hr by exact Hg. injection Hr as <- <-.
    repeat split; auto. }
  rewrite <- Hpid in Hk.
  destruct (is_running_spec pr s Hlt Hk Hg) as (s' & _ & Hn & Hpm & _ & Hfr & Hres).
  rewrite Hpid, Hct in Hres. unfold ident_time.
  assert (Hfr' : forall x, (x < next_ref s)%nat -> x <> pr -> heap s' x = heap s x)
    by (intros x Hx Hne; apply Hfr; [lia|exact Hne]).
  destruct (ct k) as [t|e] eqn:Hck.
  - destruct Hres as [Hi Hh]. rewrite Hi in Hr. injection Hr as <- <-.
    split; [lia|]. split; [exact Hpm|]. split; [exact Hfr'|].
    split; [rewrite Hh; exact Hpid|].
    destruct (ident_eqb _ _) eqn:E; [|exact I].
    split; [exact Hh|]. split; [reflexivity|]. exists (Some t). split; [reflexivity|exact E].
  - destruct e; destruct Hres as [Hi Hh]; rewrite Hi in Hr; injection Hr as <- <-;
      (split; [lia|]); (split; [exact Hpm|]); (split; [exact Hfr'|]);
      (split; [rewrite Hh; exact Hpid|]); try (split; [discriminate|reflexivity]).
    + exact I.
    + destruct (ident_eqb _ _) eqn:E; [|exact I].
      split; [exact Hh|]. split; [reflexivity|]. exists None. split; [reflexivity|exact E].
Qed.

(** What a change of the state that concerns pid [k] only leaves as it
    was. *)
Lemma settle_frame (ct : Z -> result Q) (k : Z) (s s' : State W) :
  pmap_wf s -> (next_ref s <= next_ref s')%nat ->
  (forall x, (x < next_ref s)%nat -> _pmap s !! k <> Some x -> heap s' x = heap s x) ->
  (forall j, j <> k -> _pmap s' !! j = _pmap s !! j) ->
  (forall r, _pmap s' !! k = Some r ->
             (r < next_ref s')%nat /\ _pid (heap s' r) = k /\ 0 <= k) ->
  pmap_wf s' /\ forall j, j <> k -> settled ct s j -> settled ct s' j.
Proof.
  intros Hwf Hn Hfr Hother Hk.
  assert (Hsame : forall j r, j <> k -> _pmap s !! j = Some r -> heap s' r = heap s r).
  { intros j r Hj Hr. destruct (Hwf j r Hr) as (Hlt & Hp & _).
    apply Hfr; [exact Hlt|]. intros Hkr. destruct (Hwf k r Hkr) as (_ & Hp' & _).
    congruence. }
  split.
  - intros j r Hr. destruct (decide (j = k)) as [->|Hj]; [apply Hk, Hr|].
    rewrite (Hother j Hj) in Hr. destruct (Hwf j r Hr) as (Hlt & Hp & H0).
    rewrite (Hsame j r Hj Hr). repeat split; [lia|exact Hp|exact H0].
  - intros j Hj. unfold settled. rewrite (Hother j Hj).
    destruct (_pmap s !! j) as [r|] eqn:Hr; [|auto].
    rewrite (Hsame j r Hj Hr). auto.
Qed.

(** One turn of the generator without churn: afterwards the cache is
    settled at the pid of the item, and holds what was yielded. *)
Lemma step_settles (live : list Z) (ct : Z -> result Q) (k : Z) (s s' : State W)
    (y : option ref) :
  no_churn live ct -> pmap_wf s ->
  process_iter_step (k, _pmap s !! k) s = (Ok y, s') ->
  pmap_wf s' /\ settled ct s' k /\ y = _pmap s' !! k /\
  (forall j, j <> k -> _pmap s' !! j = _pmap s !! j) /\
  (forall j, j <> k -> settled ct s j -> settled ct s' j).
Proof.
  intros Hnc Hwf. unfold process_iter_step, try_except.
  (* the statement [yield add(pid)], entered in [s1] *)
  assert (Hadd : forall s1 : State W,
             (next_ref s <= next_ref s1)%nat -> _pmap s1 = _pmap s ->
             (forall x, (x < next_ref s)%nat -> _pmap s !! k <> Some x ->
                        heap s1 x = heap s x) ->
             (let (r, s2) := (let* q := add k in ret (Some q)) s1 in
              match r with
              | Ok a => (Ok a, s2)
              | Raise e =>
                  match e with
                  | NoSuchProcess _ => remove k;; ret None
                  | AccessDenied => ret (_pmap s !! k)
                  | _ => raise e
                  end s2
              end) = (Ok y, s') ->
             pmap_wf s' /\ settled ct s' k /\ y = _pmap s' !! k /\
             (forall j, j <> k -> _pmap s' !! j = _pmap s !! j) /\
             (forall j, j <> k -> settled ct s j -> settled ct s' j)).
  { intros s1 Hn1 Hpm1 Hfr1. unfold bind at 1.
    destruct (add k s1) as [[n|e] s2] eqn:Ha;
      destruct (add_no_churn _ _ _ _ _ _ Hnc Ha) as (Hn2 & Hfr2 & Hres).
    - destruct Hres as (Hk & Hlt & Hpm2 & c & Hc & Hh).
      munfold. intros [= <- <-].
      assert (Hlk : _pmap s2 !! k = Some n) by (rewrite Hpm2; apply lookup_insert_eq).
      assert (Hother : forall j, j <> k -> _pmap s2 !! j = _pmap s !! j).
      { intros j Hj. rewrite Hpm2, lookup_insert_ne by congruence. rewrite Hpm1.
        reflexivity. }
      destruct (settle_frame ct k s s2) as [Hwf2 Hset2]; try assumption.
      + lia.
      + intros x Hx Hne. rewrite Hfr2 by lia. apply Hfr1; assumption.
      + intros r Hr. rewrite Hlk in Hr. injection Hr as <-.
        rewrite Hh. repeat split; [exact Hlt|exact Hk].
      + split; [exact Hwf2|]. split; [|split; [symmetry; exact Hlk|split; assumption]].
        unfold settled. rewrite Hlk, Hh. split; [reflexivity|].
        exists c. split; [exact Hc|]. apply ident_eqb_refl.
    - destruct e; try (exfalso; apply Hres; reflexivity); munfold; try discriminate.
      destruct Hres as (Hk & Hpm2 & e & He). intros [= <- <-]. simpl.
      assert (Hother : forall j, j <> k -> delete k (_pmap s2) !! j = _pmap s !! j).
      { intros j Hj. rewrite lookup_delete_ne by congruence. rewrite Hpm2, Hpm1.
        reflexivity. }
      destruct (settle_frame ct k s (set_pmap (delete k (_pmap s2)) s2))
        as [Hwf2 Hset2]; try assumption.
      + simpl. lia.
      + simpl. intros x Hx Hne. rewrite Hfr2 by lia. apply Hfr1; assumption.
      + simpl. intros r Hr. rewrite lookup_delete_eq in Hr. discriminate.
      + split; [exact Hwf2|]. split; [|split; [|split; assumption]].
        * unfold settled. simpl. rewrite lookup_delete_eq. split; [exact Hk|eauto].
        * simpl. rewrite lookup_delete_eq. reflexivity. }
  destruct (_pmap s !! k) as [pr|] eqn:Hk.
  - destruct (Hwf k pr Hk) as (Hlt & Hp & H0).
    unfold bind at 1.
    destruct (is_running pr s) as [[b|e] s1] eqn:Hr;
      destruct (is_running_no_churn _ _ _ _ _ _ _ Hnc Hlt Hp H0 Hr)
      as (Hn1 & Hpm1 & Hfr1 & Hp1 & Hres).
    + destruct b.
      * destruct Hres as (Hh & Hg & c & Hc & He).
        munfold. intros [= <- <-].
        destruct (settle_frame ct k s s1) as [Hwf1 Hset1]; try assumption.
        -- intros x Hx Hne. apply Hfr1; [exact Hx|congruence].
        -- intros j _. rewrite Hpm1. reflexivity.
        -- intros r Hr'. rewrite Hpm1, Hk in Hr'. injection Hr' as <-.
           repeat split; [lia|exact Hp1|exact H0].
        -- split; [exact Hwf1|]. rewrite Hpm1.
           split; [|split; [symmetry; exact Hk|split; [reflexivity|exact Hset1]]].
           unfold settled. rewrite Hpm1, Hk, Hh. split; [exact Hg|eauto].
      * apply Hadd; [exact Hn1|exact Hpm1|].
        intros x Hx Hne. apply Hfr1; [exact Hx|congruence].
    + destruct Hres as [Hne Hnsp]. destruct e; munfold; try discriminate.
      exfalso. apply Hne. reflexivity.
  - apply Hadd; [lia|reflexivity|reflexivity].
Qed.

Lemma settled_same (ct : Z -> result Q) (s s' : State W) :
  pmap_wf s -> _pmap s' = _pmap s -> (next_ref s <= next_ref s')%nat ->
  (forall x, (x < next_ref s)%nat -> heap s' x = heap s x) ->
  pmap_wf s' /\ forall j, settled ct s j -> settled ct s' j.
Proof.
  intros Hwf Hpm Hn Hh. split.
  - intros j r Hr. rewrite Hpm in Hr. destruct (Hwf j r Hr) as (Hlt & Hp & H0).
    rewrite (Hh r Hlt). repeat split; [lia|exact Hp|exact H0].
  - intros j. unfold settled. rewrite Hpm.
    destruct (_pmap s !! j) as [r|] eqn:Hr; [|auto].
    destruct (Hwf j r Hr) as (Hlt & _). rewrite (Hh r Hlt). auto.
Qed.

(** One turn of the generator, without churn, at a pid where the cache is
    settled: the cached object is yielded, or nothing if there is none,
    and the cache stays as it is. *)
Lemma step_settled (live : list Z) (ct : Z -> result Q) (k : Z) (s : State W) :
  no_churn live ct -> pmap_wf s -> settled ct s k ->
  exists s',
    process_iter_step (k, _pmap s !! k) s = (Ok (_pmap s !! k), s') /\
    _pmap s' = _pmap s /\ (next_ref s <= next_ref s')%nat /\
    forall x, (x < next_ref s)%nat -> heap s' x = heap s x.
Proof.
  intros Hnc Hwf Hset. pose proof Hnc as [_ Hct].
  unfold settled in Hset. unfold process_iter_step, try_except.
  destruct (_pmap s !! k) as [pr|] eqn:Hk.
  - destruct Hset as (Hg & c & Hc & He).
    destruct (Hwf k pr Hk) as (Hlt & Hp & H0).
    assert (H0' : 0 <= _pid (heap s pr)) by (rewrite Hp; exact H0).
    destruct (is_running_spec pr s Hlt H0' Hg) as (s1 & _ & Hn & Hpm & _ & Hfr & Hres).
    rewrite Hp, Hct in Hres. unfold ident_time in Hc.
    assert (Hrun : is_running pr s = (Ok true, s1) /\ heap s1 pr = heap s pr).
    { destruct (ct k) as [t|e]; [|destruct e; try discriminate];
        injection Hc as <-; rewrite He in Hres; exact Hres. }
    destruct Hrun as [Hrun Hh]. exists s1. unfold bind. rewrite Hrun. unfold ret.
    split; [reflexivity|]. split; [exact Hpm|]. split; [lia|].
    intros x Hx. destruct (decide (x = pr)) as [->|Hne]; [exact Hh|].
    apply Hfr; [lia|exact Hne].
  - destruct Hset as (H0 & e & He).
    destruct (add_spec k s H0) as (s1 & _ & Hn & _ & Hfr & Hres).
    rewrite Hct, He in Hres. destruct Hres as [Ha Hpm].
    exists (set_pmap (delete k (_pmap s1)) s1).
    unfold bind at 1. rewrite Ha. unfold remove. munfold. simpl.
    split; [reflexivity|].
    split; [rewrite Hpm; apply delete_id; exact Hk|].
    split; [lia|]. intros x Hx. apply Hfr. lia.
Qed.

(** A whole pass without churn, from any well-formed cache: it settles
    the cache at every pid of the pass, and yields what the cache then
    holds. *)
Lemma loop_settles (live : list Z) (ct : Z -> result Q) (K : list Z) :
  no_churn live ct ->
  forall (acc : list ref) (s s' : State W) (ys : list ref),
    NoDup K -> pmap_wf s ->
    process_iter_loop ((fun k => (k, _pmap s !! k)) <$> K)
      (fun p acc => ret (acc ++ [p])) acc s = (Ok ys, s') ->
    pmap_wf s' /\ (forall k, k ∈ K -> settled ct s' k) /\
    ys = acc ++ omap (fun k => _pmap s' !! k) K /\
    (forall j, j ∉ K -> _pmap s' !! j = _pmap s !! j) /\
    (forall j, j ∉ K -> settled ct s j -> settled ct s' j).
Proof.
  intros Hnc. induction K as [|k K IH]; intros acc s s' ys Hnd Hwf Hloop.
  - simpl in Hloop. munfold. injection Hloop as <- <-. simpl. rewrite app_nil_r.
    split; [exact Hwf|]. split; [intros k Hk; inversion Hk|]. auto.
  - apply NoDup_cons in Hnd as [HkK Hnd].
    rewrite fmap_cons in Hloop. cbn [process_iter_loop] in Hloop.
    unfold bind at 1 in Hloop.
    destruct (process_iter_step (k, _pmap s !! k) s) as [[y|e] s1] eqn:Hstep;
      [|discriminate].
    destruct (step_settles _ _ _ _ _ _ Hnc Hwf Hstep) as (Hwf1 & Hset1 & Hy & Hoth1 & Hpres1).
    assert (Hitems : (fun j => (j, _pmap s !! j)) <$> K
                     = (fun j => (j, _pmap s1 !! j)) <$> K).
    { apply list_fmap_ext. intros i j Hj. rewrite Hoth1; [reflexivity|].
      intros ->. apply HkK. eapply list_elem_of_lookup_2. exact Hj. }
    rewrite Hitems in Hloop. unfold bind at 1 in Hloop.
    assert (Hnext : exists acc1, acc1 = acc ++ match y with Some p => [p] | None => [] end
                                 /\ process_iter_loop
                                      ((fun j => (j, _pmap s1 !! j)) <$> K)
                                      (fun p acc => ret (acc ++ [p])) acc1 s1
                                    = (Ok ys, s')).
    { destruct y as [p|]; unfold ret at 1 in Hloop.
      - exists (acc ++ [p]). split; [reflexivity|exact Hloop].
      - exists acc. split; [rewrite app_nil_r; reflexivity|exact Hloop]. }
    destruct Hnext as (acc1 & Hacc1 & Hloop1).
    destruct (IH _ _ _ _ Hnd Hwf1 Hloop1) as (Hwf' & Hset' & Hys & Hoth' & Hpres').
    split; [exact Hwf'|]. split; [|split; [|split]].
    + intros j Hj. apply elem_of_cons in Hj as [->|Hj]; [|apply Hset', Hj].
      apply Hpres'; assumption.
    + rewrite Hys, Hacc1, <- app_assoc. f_equal. simpl.
      rewrite (Hoth' k HkK), <- Hy. destruct y; reflexivity.
    + intros j Hj. rewrite not_elem_of_cons in Hj. destruct Hj as [Hjk HjK].
      rewrite (Hoth' j HjK). apply Hoth1, Hjk.
    + intros j Hj Hs. rewrite not_elem_of_cons in Hj. destruct Hj as [Hjk HjK].
      apply Hpres'; [exact HjK|]. apply Hpres1; assumption.
Qed.

(** A whole pass without churn from a cache that is settled at every pid
    of the pass: it yields the cached objects and leaves the cache. *)
Lemma loop_settled (live : list Z) (ct : Z -> result Q) (K : list Z) :
  no_churn live ct ->
  forall (acc : list ref) (s : State W),
    pmap_wf s -> (forall k, k ∈ K -> settled ct s k) ->
    exists s',
      process_iter_loop ((fun k => (k, _pmap s !! k)) <$> K)
        (fun p acc => ret (acc ++ [p])) acc s
      = (Ok (acc ++ omap (fun k => _pmap s !! k) K), s') /\
      _pmap s' = _pmap s.
Proof.
  intros Hnc. induction K as [|k K IH]; intros acc s Hwf Hset.
  - exists s. simpl. rewrite app_nil_r. split; reflexivity.
  - destruct (step_settled _ _ k s Hnc Hwf) as (s1 & Hstep & Hpm1 & Hn1 & Hh1);
      [apply Hset; left|].
    destruct (settled_same ct s s1 Hwf Hpm1 Hn1 Hh1) as [Hwf1 Hset1].
    destruct (IH (acc ++ match _pmap s !! k with Some p => [p] | None => [] end) s1 Hwf1)
      as (s' & Hloop & Hpm'); [intros j Hj; apply Hset1, Hset; right; exact Hj|].
    exists s'. split; [|congruence].
    rewrite fmap_cons. cbn [process_iter_loop]. unfold bind at 1. rewrite Hstep.
    unfold bind at 1. rewrite Hpm1 in Hloop. simpl omap.
    destruct (_pmap s !! k) as [p|]; unfold ret at 1.
    + rewrite Hloop, <- app_assoc. reflexivity.
    + rewrite app_nil_r in Hloop. exact Hloop.
Qed.

Lemma pmap_wf_import (w : W) : pmap_wf (import_module w).
Proof.
  unfold import_module. destruct (plat_cpu_times w) as [t w1].
  destruct (plat_per_cpu_times w1) as [pt w2].
  intros k r Hr. simpl in Hr. rewrite lookup_empty in Hr. discriminate.
Qed.

Lemma sorted_pids_fst (live : list Z) (f : Z -> option ref) :
  ((fun k => (k, f k)) <$> sorted_pids live).*1 = sorted_pids live.
Proof.
  rewrite <- list_fmap_compose. rewrite <- (list_fmap_id (sorted_pids live)) at 2.
  apply list_fmap_ext. intros i x _. reflexivity.
Qed.

(** C8.  From a well-formed cache, a pass of [process_iter] yields
    objects whose pids ascend strictly, so at most one object for a pid,
    and all of them pids that the system lists; the cache stays well
    formed.  An item whose pid is cached goes to the generator with the
    cached object, and when [is_running] of that object succeeds the
    generator yields that very object.  Without process churn, a second
    pass yields the same objects as the first. *)
Theorem process_iter_pass (s : State W) :
  pmap_wf s ->
  (forall (ys : list ref) (s' : State W),
      process_iter s = (Ok ys, s') ->
      StronglySorted Z.lt ((fun r => _pid (heap s' r)) <$> ys)
      /\ (forall r, r ∈ ys -> _pid (heap s' r) ∈ fst (plat_pids (world s)))
      /\ pmap_wf s')
  /\ (forall (k : Z) (pr : ref),
         _pmap s !! k = Some pr -> k ∈ fst (plat_pids (world s)) ->
         exists items, fst (process_iter_items s) = Ok items /\ (k, Some pr) ∈ items)
  /\ (forall (k : Z) (pr : ref) (s0 s1 : State W),
         is_running pr s0 = (Ok true, s1) ->
         process_iter_step (k, Some pr) s0 = (Ok (Some pr), s1))
  /\ (forall (live : list Z) (ct : Z -> result Q) (ys : list ref) (s1 : State W),
         no_churn live ct ->
         process_iter s = (Ok ys, s1) ->
         exists s2, process_iter s1 = (Ok ys, s2)).
Proof.
  intros Hwf.
  destruct (process_iter_items_spec s) as (s0 & Hitems & _ & Hh0 & Hn0 & _ & Hpm0).
  set (live0 := fst (plat_pids (world s))) in *.
  assert (Hwf0 : pmap_wf s0).
  { intros k r Hr. rewrite Hpm0 in Hr. rewrite Hh0, Hn0.
    destruct (decide (k ∈ live0)); [apply Hwf, Hr|discriminate]. }
  split; [|split; [|split]].
  - intros ys s' Hrun. unfold process_iter, process_iter_for in Hrun.
    unfold bind at 1 in Hrun. rewrite Hitems in Hrun.
    apply process_iter_loop_pids in Hrun as (_ & Hwf' & new & Hys & _ & Hsub).
    + simpl in Hys. subst new. rewrite sorted_pids_fst in Hsub.
      split; [|split; [|apply Hwf', Hwf0]].
      * eapply sublist_StronglySorted_lt; [exact Hsub|].
        apply StronglySorted_lt; [apply sorted_pids_sorted|apply sorted_pids_NoDup].
      * intros r Hr. apply sorted_pids_elem. eapply sublist_subseteq; [exact Hsub|].
        apply list_elem_of_fmap. exists r. split; [reflexivity|exact Hr].
    + intros k pr Hin. apply list_elem_of_fmap in Hin as (k' & [= -> Hk] & _).
      destruct (Hwf0 k' pr (eq_sym Hk)) as (Hlt & Hp & _). split; assumption.
  - intros k pr Hk Hlive. rewrite Hitems. eexists. split; [reflexivity|].
    apply list_elem_of_fmap. exists k. split.
    + rewrite Hpm0, decide_True by exact Hlive. rewrite Hk. reflexivity.
    + apply sorted_pids_elem, Hlive.
  - intros k pr sa sb Hr. unfold process_iter_step, try_except, bind.
    rewrite Hr. reflexivity.
  - intros live ct ys s1 Hnc Hrun. pose proof Hnc as [Hlive _].
    assert (Hl0 : live0 = live) by apply Hlive.
    unfold process_iter, process_iter_for in Hrun.
    unfold bind at 1 in Hrun. rewrite Hitems, Hl0 in Hrun.
    destruct (loop_settles live ct (sorted_pids live) Hnc [] s0 s1 ys
                (sorted_pids_NoDup live) Hwf0 Hrun)
      as (Hwf1 & Hset1 & Hys & Hoth1 & _).
    destruct (process_iter_items_spec s1) as (s1' & Hitems1 & _ & Hh1 & Hn1 & _ & Hpm1).
    rewrite Hlive in Hitems1, Hpm1.
    assert (Hsame : _pmap s1' = _pmap s1).
    { apply map_eq. intros k. rewrite Hpm1.
      destruct (decide (k ∈ live)) as [Hk|Hk]; [reflexivity|].
      rewrite Hoth1 by (rewrite sorted_pids_elem; exact Hk).
      rewrite Hpm0, decide_False; [reflexivity|]. rewrite Hl0. exact Hk. }
    destruct (settled_same ct s1 s1' Hwf1 Hsame) as [Hwf1' Hset1'];
      [lia|intros x _; rewrite Hh1; reflexivity|].
    destruct (loop_settled live ct (sorted_pids live) Hnc [] s1' Hwf1')
      as (s2 & Hloop & _); [intros k Hk; apply Hset1', Hset1, Hk|].
    exists s2. unfold process_iter, process_iter_for. unfold bind at 1.
    rewrite Hitems1, Hloop, Hys, Hsame. reflexivity.
Qed.

End ProcessIter.

Lemma process_iter_pass_witness :
  let P := Scripted.platform Scripted.steady in
  let s := Scripted.start Scripted.steady in
  pmap_wf s /\
  no_churn [5; 9; 3] (fun pid => Ok (inject_Z pid)) /\
  process_iter s = (Ok [0; 1; 2]%nat, snd (process_iter s)) /\
  (fun r => _pid (heap (snd (process_iter s)) r)) <$> [0; 1; 2]%nat = [3; 5; 9] /\
  exists s2, process_iter (snd (process_iter s)) = (Ok [0; 1; 2]%nat, s2).
Proof.
  intros P s.
  assert (Hwf : pmap_wf s) by apply (pmap_wf_import (P := P)).
  assert (Hnc : no_churn (P := P) [5; 9; 3] (fun pid => Ok (inject_Z pid)))
    by (split; intros; reflexivity).
  assert (Hrun : process_iter s = (Ok [0; 1; 2]%nat, snd (process_iter s)))
    by (vm_compute; reflexivity).
  split; [exact Hwf|]. split; [exact Hnc|]. split; [exact Hrun|].
  split; [vm_compute; reflexivity|].
  exact (proj2 (proj2 (proj2 (process_iter_pass (P := P) s Hwf))) _ _ _ _ Hnc Hrun).
Defined.

(** * Further properties *)

(** ** The identity check and the guarded methods *)

Section Identity.

Context {W : Type} {P : Platform W}.

(** X1.  [is_running] on an object of the store that is not marked gone
    and whose identity holds a creation time: it asks the platform once
    for the creation time of the pid and makes no mutating call.  It is
    [True] exactly when the answer equals the creation time of the
    identity; when the platform does not find the pid it is [False] and
    the object is marked gone; when the platform refuses the creation time
    it is [False] as well, and the object is not marked; any other
    exception is passed on. *)
Theorem is_running_answer (self : ref) (t0 : Q) (s : State W) :
  let pid := _pid (heap s self) in
  let s' := snd (is_running self s) in
  (self < next_ref s)%nat -> 0 <= pid ->
  _gone (heap s self) = false -> _ident (heap s self) = Some (pid, Some t0) ->
  world s' = snd (proc_create_time pid (world s))
  /\ log s' = log s /\ _pmap s' = _pmap s
  /\ match fst (proc_create_time pid (world s)) with
     | Ok t => fst (is_running self s) = Ok (Qeq_bool t0 t)
               /\ _gone (heap s' self) = false
     | Raise (NoSuchProcess _) => fst (is_running self s) = Ok false
                                  /\ _gone (heap s' self) = true
     | Raise AccessDenied => fst (is_running self s) = Ok false
                             /\ _gone (heap s' self) = false
     | Raise e => fst (is_running self s) = Raise e
                  /\ _gone (heap s' self) = false
     end.
Proof.
  intros pid s' Hself Hpid Hg Hid.
  destruct (is_running_spec self s Hself Hpid Hg) as (s1 & Hw & _ & Hpm & Hlog & _ & Hres).
  fold pid in Hw, Hres. rewrite Hid in Hres.
  assert (Hs : s' = s1).
  { unfold s'. destruct (fst (proc_create_time pid (world s))) as [t|e].
    - destruct Hres as [-> _]. reflexivity.
    - destruct e; destruct Hres as [-> _]; reflexivity. }
  rewrite Hs. split; [exact Hw|]. split; [exact Hlog|]. split; [exact Hpm|].
  destruct (fst (proc_create_time pid (world s))) as [t|e].
  - destruct Hres as [-> ->]. simpl. rewrite Z.eqb_refl. split; [reflexivity|exact Hg].
  - destruct e; destruct Hres as [-> ->]; simpl; rewrite ?Z.eqb_refl;
      (split; [reflexivity|]); try exact Hg. reflexivity.
Qed.

End Identity.

Section ControlFacts.

Context {W : Type} {P : Platform W}.

Lemma is_running_pid (self : ref) (s s' : State W) (r : result bool) :
  (self < next_ref s)%nat ->
  is_running self s = (r, s') -> _pid (heap s' self) = _pid (heap s self).
Proof.
  intros Hself H. apply is_running_extends in H as [[_ H] _].
  destruct (H self Hself) as (Hp & _). exact Hp.
Qed.

(** X2.  The methods that check the identity first ([send_signal],
    [suspend], [resume], [terminate], [kill], [children], and [nice] with
    a value): when [is_running] answers [False], each of them raises
    [NoSuchProcess] with the pid of the object, in the state that
    [is_running] has left, and no call that changes a process has been
    made: the log is the one before the call. *)
Theorem guarded_methods_refuse (self : ref) (s s' : State W) :
  (self < next_ref s)%nat ->
  is_running self s = (Ok false, s') ->
  let pid := _pid (heap s self) in
  log s' = log s
  /\ (forall sig, send_signal self sig s = (Raise (NoSuchProcess pid), s'))
  /\ suspend self s = (Raise (NoSuchProcess pid), s')
  /\ resume self s = (Raise (NoSuchProcess pid), s')
  /\ terminate self s = (Raise (NoSuchProcess pid), s')
  /\ kill self s = (Raise (NoSuchProcess pid), s')
  /\ (forall recursive, children self recursive s = (Raise (NoSuchProcess pid), s'))
  /\ (forall v, nice self (Some v) s = (Raise (NoSuchProcess pid), s')).
Proof.
  intros Hself H pid.
  pose proof (is_running_pid _ _ _ _ Hself H) as Hp. fold pid in Hp.
  assert (G : forall (A : Type) (f : ref -> M W A),
             _assert_pid_not_reused f self s = (Raise (NoSuchProcess pid), s')).
  { intros A f. destruct (_assert_pid_not_reused_blocks f self s s' H) as [-> _].
    rewrite Hp. reflexivity. }
  split; [eapply is_running_log; exact H|].
  split; [intros sig; apply G|].
  repeat (split; [apply G|]).
  split; [intros recursive; apply G|].
  intros v. apply (nice_set_blocks self v s s' H).
Qed.

(** X3.  On an object that [is_running] finds running, each of the four
    control methods makes one call that changes a process, on the pid of
    the object: on POSIX [os.kill] with [SIGKILL], [SIGTERM], [SIGSTOP] or
    [SIGCONT]; elsewhere the platform's [kill] (for [kill] and for
    [terminate]), [suspend] or [resume].  [send_signal] passes its signal
    to [os.kill] on POSIX; elsewhere it takes [SIGTERM] only, as the
    platform's [kill], and for any other signal it raises [ValueError]
    without a call. *)
Theorem control_methods_act_once (self : ref) (s s1 : State W) :
  is_running self s = (Ok true, s1) ->
  let pid := _pid (heap s1 self) in
  log (snd (kill self s))
  = log s ++ [EvAct (if _POSIX then OsKill pid SIGKILL else ProcKill pid)]
  /\ log (snd (terminate self s))
     = log s ++ [EvAct (if _POSIX then OsKill pid SIGTERM else ProcKill pid)]
  /\ log (snd (suspend self s))
     = log s ++ [EvAct (if _POSIX then OsKill pid SIGSTOP else ProcSuspend pid)]
  /\ log (snd (resume self s))
     = log s ++ [EvAct (if _POSIX then OsKill pid SIGCONT else ProcResume pid)]
  /\ (forall sig,
         log (snd (send_signal self sig s))
         = if _POSIX then log s ++ [EvAct (OsKill pid sig)]
           else if sig =? SIGTERM then log s ++ [EvAct (ProcKill pid)]
           else log s)
  /\ (forall sig, _POSIX = false -> sig <> SIGTERM ->
                  send_signal self sig s = (Raise ValueError, s1)).
Proof.
  intros H pid.
  pose proof (is_running_log _ _ _ _ H) as Hlog.
  assert (Hs : forall sig s2, s2 = snd (_send_signal self sig s1) ->
                 log s2 = log s ++ [EvAct (OsKill pid sig)]).
  { intros sig s2 ->. unfold _send_signal. munfold. simpl. fold pid.
    destruct (plat_act (OsKill pid sig) (world s1)) as [[[]|e] w]; simpl;
      [rewrite Hlog; reflexivity|].
    destruct e; simpl; try (rewrite Hlog; reflexivity).
    destruct (errno =? ESRCH); simpl; [rewrite Hlog; reflexivity|].
    destruct (errno =? EPERM); simpl; rewrite Hlog; reflexivity. }
  assert (Ha : forall a s2, s2 = snd ((let* p := deref self in act (a (_pid p))) s1) ->
                 log s2 = log s ++ [EvAct (a pid)]).
  { intros a s2 ->. munfold. simpl. fold pid.
    destruct (plat_act (a pid) (world s1)) as [r w]; simpl. rewrite Hlog. reflexivity. }
  assert (G : forall (A : Type) (f : ref -> M W A),
             _assert_pid_not_reused f self s = f self s1).
  { intros A f. unfold _assert_pid_not_reused. munfold. rewrite H. reflexivity. }
  unfold kill, terminate, suspend, resume, send_signal. rewrite !G.
  unfold kill_body, terminate_body, suspend_body, resume_body.
  repeat split.
  - destruct _POSIX; [apply Hs; reflexivity|apply (Ha ProcKill); reflexivity].
  - destruct _POSIX; [apply Hs; reflexivity|apply (Ha ProcKill); reflexivity].
  - destruct _POSIX; [apply Hs; reflexivity|apply (Ha ProcSuspend); reflexivity].
  - destruct _POSIX; [apply Hs; reflexivity|apply (Ha ProcResume); reflexivity].
  - intros sig. rewrite G. unfold send_signal_body.
    destruct _POSIX; [apply Hs; reflexivity|].
    destruct (sig =? SIGTERM); [apply (Ha ProcKill); reflexivity|].
    simpl. exact Hlog.
  - intros sig Hp Hsig. rewrite G. unfold send_signal_body. rewrite Hp.
    destruct (sig =? SIGTERM) eqn:E; [apply Z.eqb_eq in E; contradiction|reflexivity].
Qed.

(** X4.  What [os.kill] reports to a method that signals a running
    process.  With [ESRCH] the method raises [NoSuchProcess] and the object
    is marked gone: from then on [is_running] is false and a further
    [send_signal] raises [NoSuchProcess] in the state it was called in,
    so no signal is sent any more.  With [EPERM] it raises [AccessDenied]
    and the objects are left as they were; any other [OSError] is passed
    on. *)
Theorem signal_errors (self : ref) (sig : Z) (s s1 : State W) (w' : W) :
  _POSIX = true ->
  is_running self s = (Ok true, s1) ->
  let pid := _pid (heap s1 self) in
  (plat_act (OsKill pid sig) (world s1) = (Raise (OSError ESRCH), w') ->
   exists s2,
     send_signal self sig s = (Raise (NoSuchProcess pid), s2)
     /\ is_running self s2 = (Ok false, s2)
     /\ forall sig', send_signal self sig' s2 = (Raise (NoSuchProcess pid), s2))
  /\ (plat_act (OsKill pid sig) (world s1) = (Raise (OSError EPERM), w') ->
      exists s2,
        send_signal self sig s = (Raise AccessDenied, s2)
        /\ heap s2 = heap s1)
  /\ (forall errno, errno <> ESRCH -> errno <> EPERM ->
        plat_act (OsKill pid sig) (world s1) = (Raise (OSError errno), w') ->
        exists s2,
          send_signal self sig s = (Raise (OSError errno), s2)
          /\ heap s2 = heap s1).
Proof.
  intros Hposix H pid.
  assert (G : forall (A : Type) (f : ref -> M W A),
             _assert_pid_not_reused f self s = f self s1).
  { intros A f. unfold _assert_pid_not_reused. munfold. rewrite H. reflexivity. }
  assert (Hsend : send_signal self sig s = _send_signal self sig s1).
  { unfold send_signal. rewrite G. unfold send_signal_body. rewrite Hposix. reflexivity. }
  rewrite Hsend. clear Hsend G.
  split; [|split].
  - intros Hact. eexists. unfold _send_signal at 1. munfold. simpl. fold pid.
    rewrite Hact. simpl. split; [reflexivity|].
    match goal with |- is_running self ?s2 = _ /\ _ =>
      assert (Hg : _gone (heap s2 self) = true) by (simpl; rewrite Nat.eqb_refl; reflexivity);
      assert (Hp : _pid (heap s2 self) = pid) by (simpl; rewrite Nat.eqb_refl; reflexivity)
    end.
    split; [apply is_running_gone; exact Hg|].
    intros sig'. pose proof (is_running_gone _ _ Hg) as Hr.
    unfold send_signal.
    destruct (_assert_pid_not_reused_blocks (send_signal_body sig') self _ _ Hr) as [-> _].
    rewrite Hp. reflexivity.
  - intros Hact. eexists. unfold _send_signal. munfold. simpl. fold pid.
    rewrite Hact. simpl. split; reflexivity.
  - intros errno H1 H2 Hact. eexists. unfold _send_signal. munfold. simpl. fold pid.
    rewrite Hact. simpl.
    destruct (errno =? ESRCH) eqn:E1; [apply Z.eqb_eq in E1; contradiction|].
    destruct (errno =? EPERM) eqn:E2; [apply Z.eqb_eq in E2; contradiction|].
    split; reflexivity.
Qed.

Lemma parent_cases (self : ref) (s s' : State W) (r : result (option ref)) :
  parent self s = (r, s') ->
  match r with
  | Ok (Some p) =>
      (exists pp s0, ppid self s = (Ok (Some pp), s0) /\ _pid (heap s' p) = pp)
      /\ not_older s' p self
  | Ok None => True
  | Raise e => is_NoSuchProcess e = true -> ppid self s = (Raise e, s')
  end.
Proof.
  unfold parent. unfold bind at 1.
  destruct (ppid self s) as [[[pp|]|e] s0] eqn:Hpp.
  2:{ intros [= <- <-]. exact I. }
  2:{ intros [= <- <-]. reflexivity. }
  unfold try_except.
  destruct (Process_ pp s0) as [[n|e] s1] eqn:Hn.
  2:{ unfold bind. rewrite Hn. destruct e; intros [= <- <-]; try exact I; discriminate. }
  unfold bind at 1. rewrite Hn.
  destruct (Process_ok _ _ _ _ Hn) as (_ & _ & _ & _ & _ & _ & ct & Hh & _).
  destruct (create_time n s1) as [[pc|e] s2] eqn:Hc1.
  2:{ unfold bind. rewrite Hc1. destruct e; intros [= <- <-]; try exact I; discriminate. }
  unfold bind at 1. rewrite Hc1.
  destruct (create_time self s2) as [[sc|e] s3] eqn:Hc2.
  2:{ unfold bind. rewrite Hc2. destruct e; intros [= <- <-]; try exact I; discriminate. }
  unfold bind. rewrite Hc2.
  destruct (create_time_spec _ _ _ _ Hc1) as [Hk1 Hv1].
  destruct (create_time_spec _ _ _ _ Hc2) as [Hk2 Hv2].
  destruct (Qle_bool pc sc) eqn:Hle; unfold ret; intros [= <- <-]; [|exact I].
  split.
  - exists pp, s0. split; [reflexivity|].
    destruct (Hk2 n) as [-> _]. destruct (Hk1 n) as [-> _]. rewrite Hh. reflexivity.
  - exists pc, sc. split; [|split].
    + destruct (Hk2 n) as [_ Hk]. apply Hk, Hv1. reflexivity.
    + apply Hv2. reflexivity.
    + apply Qle_bool_iff. exact Hle.
Qed.

(** X5.  [parent] returns an object only for the pid that [ppid] has
    reported, and only if the creation time of that process is not after
    the creation time of [self].  The only [NoSuchProcess] that it lets
    through is the one of [ppid] itself: a parent that has vanished gives
    [None]. *)
Theorem parent_is_not_younger (self : ref) (s s' : State W) :
  (forall p, parent self s = (Ok (Some p), s') ->
     (exists pp s0, ppid self s = (Ok (Some pp), s0) /\ _pid (heap s' p) = pp)
     /\ not_older s' p self)
  /\ (forall pid', parent self s = (Raise (NoSuchProcess pid'), s') ->
        ppid self s = (Raise (NoSuchProcess pid'), s')).
Proof.
  split.
  - intros p H. exact (parent_cases _ _ _ _ H).
  - intros pid' H. exact (parent_cases _ _ _ _ H eq_refl).
Qed.

(** X6.  Once [create_time] has returned a value, it returns that value
    in every later state that has kept the creation times, and leaves the
    state alone: the platform is not asked again.  A call that raises has
    cached nothing. *)
Theorem create_time_is_cached (self : ref) (s s' : State W) :
  (forall t, create_time self s = (Ok t, s') ->
     forall s'', keeps_create_times s' s'' -> create_time self s'' = (Ok t, s''))
  /\ (forall e, create_time self s = (Raise e, s') ->
        heap s' = heap s /\ _create_time (heap s self) = None).
Proof.
  split.
  - intros t H s'' Hk.
    destruct (create_time_spec _ _ _ _ H) as [_ Hv].
    destruct (Hk self) as [_ Hk']. specialize (Hk' t (Hv t eq_refl)).
    unfold create_time. munfold. rewrite Hk'. reflexivity.
  - intros e. unfold create_time. munfold.
    destruct (_create_time (heap s self)); [intros [=]|].
    destruct (proc_create_time _ _) as [[t|e'] w]; intros [= <- <-].
    split; reflexivity.
Qed.

End ControlFacts.

(** ** The cache of [process_iter] *)

Section IterCache.

Context {W : Type} {P : Platform W}.

Lemma process_iter_step_cache (k : Z) (s s' : State W) (y : option ref) :
  process_iter_step (k, _pmap s !! k) s = (Ok y, s') ->
  _pmap s' !! k = y /\ forall j, j <> k -> _pmap s' !! j = _pmap s !! j.
Proof.
  unfold process_iter_step, try_except.
  assert (Hadd : forall (s1 : State W) (o : option ref),
             _pmap s1 = _pmap s -> o = _pmap s !! k ->
             (let (r, s2) := (let* q := add k in ret (Some q)) s1 in
              match r with
              | Ok a => (Ok a, s2)
              | Raise e =>
                  match e with
                  | NoSuchProcess _ => remove k ;; ret None
                  | AccessDenied => ret o
                  | _ => raise e
                  end s2
              end) = (Ok y, s') ->
             _pmap s' !! k = y /\ forall j, j <> k -> _pmap s' !! j = _pmap s !! j).
  { intros s1 o Hpm Ho. unfold bind at 1.
    destruct (add k s1) as [[n|e] s2] eqn:Ha.
    - apply add_frame in Ha as (_ & _ & _ & _ & Hpm2).
      unfold ret. intros [= <- <-]. rewrite Hpm2, Hpm. split.
      + apply lookup_insert_eq.
      + intros j Hj. apply lookup_insert_ne. congruence.
    - apply add_frame in Ha as (_ & Hpm2).
      destruct e; try discriminate.
      + unfold remove. munfold. intros [= <- <-]. simpl. rewrite Hpm2, Hpm. split.
        * apply lookup_delete_eq.
        * intros j Hj. apply lookup_delete_ne. congruence.
      + unfold ret. intros [= <- <-]. rewrite Hpm2, Hpm. split; [congruence|reflexivity]. }
  destruct (_pmap s !! k) as [pr|] eqn:Hk.
  - unfold bind at 1. destruct (is_running pr s) as [[[|]|e] s1] eqn:Hr.
    + unfold ret. intros [= <- <-]. rewrite (is_running_pmap _ _ _ _ Hr).
      split; [exact Hk|reflexivity].
    + apply Hadd; [eapply is_running_pmap; exact Hr|reflexivity].
    + pose proof (is_running_pmap _ _ _ _ Hr) as Hpm.
      destruct e; try discriminate.
      * unfold remove. munfold. intros [= <- <-]. simpl. rewrite Hpm. split.
        -- apply lookup_delete_eq.
        -- intros j Hj. apply lookup_delete_ne. congruence.
      * unfold ret. intros [= <- <-]. rewrite Hpm. split; [exact Hk|reflexivity].
  - apply Hadd; reflexivity.
Qed.

Lemma process_iter_loop_cache (K : list Z) :
  forall (acc : list ref) (s s' : State W) (ys : list ref),
    NoDup K ->
    process_iter_loop ((fun k => (k, _pmap s !! k)) <$> K)
      (fun p acc => ret (acc ++ [p])) acc s = (Ok ys, s') ->
    ys = acc ++ omap (fun k => _pmap s' !! k) K /\
    forall j, j ∉ K -> _pmap s' !! j = _pmap s !! j.
Proof.
  induction K as [|k K IH]; intros acc s s' ys Hnd Hloop.
  - simpl in Hloop. munfold. injection Hloop as <- <-. simpl. rewrite app_nil_r. auto.
  - apply NoDup_cons in Hnd as [HkK Hnd].
    rewrite fmap_cons in Hloop. cbn [process_iter_loop] in Hloop.
    unfold bind at 1 in Hloop.
    destruct (process_iter_step (k, _pmap s !! k) s) as [[y|e] s1] eqn:Hstep;
      [|discriminate].
    destruct (process_iter_step_cache _ _ _ _ Hstep) as [Hy Hoth1].
    assert (Hitems : (fun j => (j, _pmap s !! j)) <$> K
                     = (fun j => (j, _pmap s1 !! j)) <$> K).
    { apply list_fmap_ext. intros i j Hj. rewrite Hoth1; [reflexivity|].
      intros ->. apply HkK. eapply list_elem_of_lookup_2. exact Hj. }
    rewrite Hitems in Hloop. unfold bind at 1 in Hloop.
    assert (Hnext : exists acc1, acc1 = acc ++ match y with Some p => [p] | None => [] end
                                 /\ process_iter_loop
                                      ((fun j => (j, _pmap s1 !! j)) <$> K)
                                      (fun p acc => ret (acc ++ [p])) acc1 s1
                                    = (Ok ys, s')).
    { destruct y as [p|]; unfold ret at 1 in Hloop.
      - exists (acc ++ [p]). split; [reflexivity|exact Hloop].
      - exists acc. split; [rewrite app_nil_r; reflexivity|exact Hloop]. }
    destruct Hnext as (acc1 & Hacc1 & Hloop1).
    destruct (IH _ _ _ _ Hnd Hloop1) as (Hys & Hoth').
    split.
    + rewrite Hys, Hacc1, <- app_assoc. f_equal. simpl.
      rewrite (Hoth' k HkK), Hy. destruct y; reflexivity.
    + intros j Hj. rewrite not_elem_of_cons in Hj. destruct Hj as [Hjk HjK].
      rewrite (Hoth' j HjK). apply Hoth1, Hjk.
Qed.

(** X7.  After a complete pass of [process_iter] the cache holds the
    objects that the pass has yielded, in the order of their pids, and
    nothing else: no key is a pid that the system did not list, and every
    value has been yielded. *)
Theorem process_iter_cache (s s' : State W) (ys : list ref) :
  process_iter s = (Ok ys, s') ->
  let live := fst (plat_pids (world s)) in
  ys = omap (fun k => _pmap s' !! k) (sorted_pids live)
  /\ (forall k, k ∉ live -> _pmap s' !! k = None)
  /\ (forall k r, _pmap s' !! k = Some r -> r ∈ ys).
Proof.
  intros Hrun live.
  destruct (process_iter_items_spec s) as (s0 & Hitems & _ & _ & _ & _ & Hpm0).
  fold live in Hitems, Hpm0.
  unfold process_iter, process_iter_for in Hrun.
  unfold bind at 1 in Hrun. rewrite Hitems in Hrun.
  apply process_iter_loop_cache in Hrun as [Hys Hoth]; [|apply sorted_pids_NoDup].
  simpl in Hys.
  assert (Hdead : forall k, k ∉ live -> _pmap s' !! k = None).
  { intros k Hk. rewrite Hoth by (rewrite sorted_pids_elem; exact Hk).
    rewrite Hpm0, decide_False by exact Hk. reflexivity. }
  split; [exact Hys|]. split; [exact Hdead|].
  intros k r Hk. rewrite Hys. apply list_elem_of_omap. exists k. split; [|exact Hk].
  apply sorted_pids_elem. destruct (decide (k ∈ live)) as [Hl|Hl]; [exact Hl|].
  rewrite (Hdead k Hl) in Hk. discriminate.
Qed.

(** X8.  No statement of the [try] block of [process_iter] raises
    [AccessDenied], because [Process(pid)] swallows it; so the handler
    that is to yield the cached object never runs.  When the creation time
    of a cached process can no longer be read, [is_running] is false and
    the generator yields a new object, with no creation time in its
    identity, and puts it into the cache in the place of the cached one,
    which it leaves as it was. *)
Theorem process_iter_AccessDenied (k : Z) (pr : ref) (t : Q) (s : State W) :
  (forall (proc : option ref) (s0 s1 : State W),
      match proc with
      | None => let* q := add k in ret (Some q)
      | Some p =>
          let* running := is_running p in
          if running then ret (Some p)
          else let* q := add k in ret (Some q)
      end s0 <> (Raise AccessDenied, s1))
  /\ ((pr < next_ref s)%nat -> _pid (heap s pr) = k -> 0 <= k ->
      _gone (heap s pr) = false -> _ident (heap s pr) = Some (k, Some t) ->
      fst (proc_create_time k (world s)) = Raise AccessDenied ->
      fst (proc_create_time k (snd (proc_create_time k (world s)))) = Raise AccessDenied ->
      exists s',
        let q := S (next_ref s) in
        process_iter_step (k, Some pr) s = (Ok (Some q), s')
        /\ q <> pr
        /\ _pmap s' = <[k := q]> (_pmap s)
        /\ heap s' q = new_process k None false
        /\ heap s' pr = heap s pr).
Proof.
  split; [intros proc s0 s1; apply process_iter_try_not_AccessDenied|].
  intros Hpr Hpid Hk Hg Hid Hct Hct'.
  destruct (is_running_spec pr s) as (s1 & Hw1 & Hn1 & Hpm1 & _ & Hfr1 & Hres1);
    [exact Hpr|rewrite Hpid; exact Hk|exact Hg|].
  rewrite Hpid in Hw1. rewrite Hpid, Hct, Hid in Hres1.
  destruct Hres1 as [Hr1 Hh1]. simpl in Hr1.
  rewrite Z.eqb_refl in Hr1. simpl in Hr1.
  destruct (add_spec k s1 Hk) as (s2 & _ & Hn2 & _ & Hfr2 & Hres2).
  rewrite Hw1, Hct' in Hres2. destruct Hres2 as (Ha & Hh2 & Hpm2).
  exists s2. cbv zeta. rewrite <- Hn1.
  unfold process_iter_step, try_except, bind. rewrite Hr1, Ha. unfold ret.
  split; [reflexivity|]. split; [lia|]. split; [rewrite Hpm2, Hpm1; reflexivity|].
  split; [exact Hh2|]. rewrite Hfr2 by lia. exact Hh1.
Qed.

End IterCache.

(** ** [wait_procs] without a timeout *)

Section WaitNoTimeout.

Context {W : Type} {P : Platform W}.

Lemma sweep_no_timeout (cb : option callback_t) (deadline : Q) (alive todo : list ref) :
  forall (gone : list ref) (s s' : State W) (r : option Q * list ref),
    sweep cb deadline alive todo None gone s = (Ok r, s') -> fst r = None.
Proof.
  induction todo as [|p todo IH]; intros gone s s' r.
  - simpl. unfold ret. intros [= <- <-]. reflexivity.
  - cbn [sweep]. unfold bind at 1.
    destruct (check_gone _ _ _ _ _ s) as [[g|e] s1]; [|discriminate].
    apply IH.
Qed.

Lemma wait_loop_no_timeout (cb : option callback_t) (deadline : Q) (fuel : nat) :
  forall (alive gone : list ref) (s s' : State W) (g a : list ref),
    wait_loop fuel cb deadline alive None gone s = (Ok (Some (g, a)), s') -> a = [].
Proof.
  induction fuel as [|fuel IH]; intros alive gone s s' g a.
  - destruct alive; simpl; unfold ret; intros [= <- <-]; reflexivity.
  - destruct alive as [|x alive]; [simpl; unfold ret; intros [= <- <-]; reflexivity|].
    cbn [wait_loop]. unfold bind at 1.
    destruct (sweep cb deadline (x :: alive) (x :: alive) None gone s)
      as [[r|e] s1] eqn:Hs; [|discriminate].
    rewrite (sweep_no_timeout _ _ _ _ _ _ _ _ Hs).
    unfold bind at 1, get at 1. apply IH.
Qed.

(** X9.  Without a timeout [wait_procs] returns only when nothing is left
    alive: the second list is empty, the first holds every object of
    [set(procs)] once, and each of them has its [returncode]. *)
Theorem wait_procs_no_timeout (fuel : nat) (procs : list ref)
    (callback : option callback_t) (s s' : State W) (gone alive : list ref) :
  allocated s procs ->
  wait_procs fuel procs None callback s = (Ok (Some (gone, alive)), s') ->
  alive = []
  /\ gone ≡ₚ set_of_list (heap s) procs
  /\ (forall p, p ∈ procs -> set_mem (heap s') p gone = true)
  /\ (forall g, g ∈ gone -> returncode (heap s' g) <> None).
Proof.
  intros Hal Hwp.
  destruct (wait_procs_result _ _ _ _ _ _ _ _ Hal Hwp) as (Hperm & _ & Hcov & _ & Hrc).
  assert (Ha : alive = []).
  { revert Hwp. unfold wait_procs. munfold.
    destruct (wait_loop fuel callback 0 (set_of_list (heap s) procs) None [] s)
      as [[[[g a]|]|e] s1] eqn:Hl; try discriminate.
    apply wait_loop_no_timeout in Hl. subst a. intros [= <- <- <-]. reflexivity. }
  subst alive. rewrite app_nil_r in Hperm, Hcov.
  repeat split; assumption.
Qed.

End WaitNoTimeout.

(** ** Ranges and samples of the CPU percentages *)

(** ** Rounding *)




(** ** The system-wide percentage *)


(** X11.  [calculate] of the system-wide [cpu_percent] raises
    [ZeroDivisionError] exactly when the busy time has grown while the sum
    of all fields is the same in both samples: the division is not
    guarded. *)
Theorem cpu_percent_calculate_ZeroDivisionError (t1 t2 : namedtuple) :
  CpuPercent.calculate t1 t2 = Raise ZeroDivisionError
  <-> exists i1 i2,
        getattr t1 "idle" = Ok i1 /\ getattr t2 "idle" = Ok i2 /\
        (fsum t1 - i1 < fsum t2 - i2)%Q /\ (fsum t2 == fsum t1)%Q.
Proof.
  unfold CpuPercent.calculate. split.
  - destruct (getattr t1 "idle") as [i1|e1] eqn:H1; simpl.
    2:{ intros [= ->]. unfold getattr in H1.
        destruct (find _ t1); discriminate. }
    destruct (getattr t2 "idle") as [i2|e2] eqn:H2; simpl.
    2:{ intros [= ->]. unfold getattr in H2.
        destruct (find _ t2); discriminate. }
    destruct (Qle_bool (fsum t2 - i2) (fsum t1 - i1)) eqn:Hb; [discriminate|].
    unfold truediv.
    destruct (Qeq_bool (fsum t2 - fsum t1) 0) eqn:Hz; simpl; [|discriminate].
    intros _. exists i1, i2. repeat split.
    + apply Qnot_le_lt. rewrite <- Qle_bool_iff, Hb. discriminate.
    + apply Qeq_bool_iff in Hz. lra.
  - intros (i1 & i2 & H1 & H2 & Hbusy & Hall). rewrite H1, H2. simpl.
    destruct (Qle_bool (fsum t2 - i2) (fsum t1 - i1)) eqn:Hb.
    { apply Qle_bool_iff in Hb. lra. }
    rewrite truediv_zero by lra. reflexivity.
Qed.

(** ** The percentage of a process *)


(** ** Lists of different lengths *)

Lemma zip_calculate_spec {A} (f : namedtuple -> namedtuple -> result A)
    (tot1 tot2 : list namedtuple) :
  forall (acc r : list A),
    zip_calculate f tot1 tot2 acc = Ok r ->
    exists new,
      r = acc ++ new /\
      length new = Nat.min (length tot1) (length tot2) /\
      forall (i : nat) (t1 t2 : namedtuple),
        tot1 !! i = Some t1 -> tot2 !! i = Some t2 ->
        exists v, new !! i = Some v /\ f t1 t2 = Ok v.
Proof.
  revert tot2. induction tot1 as [|a tot1 IH]; intros tot2 acc r.
  - simpl. intros [= <-]. exists []. rewrite app_nil_r.
    split; [reflexivity|]. split; [reflexivity|]. intros i t1 t2 H. discriminate H.
  - destruct tot2 as [|b tot2].
    + simpl. intros [= <-]. exists []. rewrite app_nil_r.
      split; [reflexivity|]. split; [reflexivity|]. intros i t1 t2 _ H. discriminate H.
    + simpl. destruct (f a b) as [v|e] eqn:Hf; simpl; [|discriminate].
      intros H. destruct (IH _ _ _ H) as (new & -> & Hlen & Hnth).
      exists (v :: new). split; [rewrite <- app_assoc; reflexivity|].
      split; [simpl; rewrite Hlen; reflexivity|].
      intros [|i] t1 t2 H1 H2; simpl in *.
      * injection H1 as <-. injection H2 as <-. exists v. split; [reflexivity|exact Hf].
      * apply Hnth; assumption.
Qed.

Section SystemCpu.

Context {W : Type} {P : Platform W}.

(** X13.  With [percpu=True] the system-wide [cpu_percent] returns as many
    percentages as the shorter of the two lists of samples has entries:
    the earlier list, which is the stored one when the call does not block,
    and the current one, which the call stores.  The i-th percentage is
    [calculate] of the i-th samples. *)
Theorem per_cpu_percent_lengths (interval : option Q) (s s' : State W) (l : list Q) :
  system_cpu_percent interval true s = (Ok (PerCpu l), s') ->
  let tot2 := _last_per_cpu_times s' in
  exists tot1,
    (is_blocking interval = false -> tot1 = _last_per_cpu_times s)
    /\ length l = Nat.min (length tot1) (length tot2)
    /\ forall (i : nat) (t1 t2 : namedtuple),
         tot1 !! i = Some t1 -> tot2 !! i = Some t2 ->
         exists v, l !! i = Some v /\ CpuPercent.calculate t1 t2 = Ok v.
Proof.
  unfold system_cpu_percent, per_cpu_times. simpl. munfold.
  destruct (is_blocking interval) eqn:Hb; simpl.
  - destruct (plat_per_cpu_times (world s)) as [tot1 w1]. simpl.
    destruct (plat_per_cpu_times _) as [tot2 w2]. simpl.
    destruct (zip_calculate CpuPercent.calculate tot1 tot2 []) as [r|e] eqn:Hz;
      [|discriminate].
    intros [= <- <-]. simpl. exists tot1.
    destruct (zip_calculate_spec _ _ _ _ _ Hz) as (new & -> & Hlen & Hnth).
    split; [discriminate|]. split; [exact Hlen|exact Hnth].
  - destruct (plat_per_cpu_times (world s)) as [tot2 w2]. simpl.
    destruct (zip_calculate CpuPercent.calculate (_last_per_cpu_times s) tot2 [])
      as [r|e] eqn:Hz; [|discriminate].
    intros [= <- <-]. simpl. exists (_last_per_cpu_times s).
    destruct (zip_calculate_spec _ _ _ _ _ Hz) as (new & -> & Hlen & Hnth).
    split; [reflexivity|]. split; [exact Hlen|exact Hnth].
Qed.

(** X14.  Whatever a call of the system-wide [cpu_percent] returns or
    raises, it leaves in [_last_cpu_times] a sample that it has read from
    the platform (for a non-blocking call, in the world it was called in),
    and the next non-blocking call returns [calculate] of that sample and
    of the one it reads, which it stores in turn. *)
Theorem system_cpu_percent_chain (interval : option Q) (s : State W) :
  let s1 := snd (system_cpu_percent interval false s) in
  let t := _last_cpu_times s1 in
  (exists w, t = fst (plat_cpu_times w)
             /\ (is_blocking interval = false -> w = world s))
  /\ system_cpu_percent None false s1
     = (match CpuPercent.calculate t (fst (plat_cpu_times (world s1))) with
        | Ok v => Ok (SystemWide v)
        | Raise e => Raise e
        end,
        set_last_cpu_times (fst (plat_cpu_times (world s1)))
          (set_world (snd (plat_cpu_times (world s1))) s1)).
Proof.
  cbv zeta. split.
  - unfold system_cpu_percent, cpu_times. simpl. munfold.
    destruct (is_blocking interval) eqn:Hb; simpl.
    + destruct (plat_cpu_times (world s)) as [t1 w1]. simpl.
      destruct (plat_cpu_times (plat_sleep _ w1)) as [t2 w2] eqn:H2. simpl.
      exists (plat_sleep (default 0%Q interval) w1). rewrite H2. simpl.
      split; [|discriminate].
      destruct (CpuPercent.calculate t1 t2); reflexivity.
    + destruct (plat_cpu_times (world s)) as [t2 w2] eqn:H2. simpl.
      exists (world s). rewrite H2. simpl. split; [|reflexivity].
      destruct (CpuPercent.calculate _ t2); reflexivity.
  - generalize (snd (system_cpu_percent interval false s)). intros s1.
    unfold system_cpu_percent, cpu_times. simpl. munfold.
    destruct (plat_cpu_times (world s1)) as [t2 w2]. simpl.
    destruct (CpuPercent.calculate _ t2); reflexivity.
Qed.

(** X15.  [cpu_percent] and [cpu_times_percent] keep their samples
    apart: neither changes the two globals of the other, and a call for
    one mode (system-wide or per CPU) leaves the sample of the other mode.
    Neither touches an object or makes a mutating call. *)
Theorem cpu_percent_globals_apart (interval : option Q) (percpu : bool) (s : State W) :
  let s1 := snd (system_cpu_percent interval percpu s) in
  let s2 := snd (cpu_times_percent interval percpu s) in
  _last_cpu_times_2 s1 = _last_cpu_times_2 s
  /\ _last_per_cpu_times_2 s1 = _last_per_cpu_times_2 s
  /\ _last_cpu_times s2 = _last_cpu_times s
  /\ _last_per_cpu_times s2 = _last_per_cpu_times s
  /\ (if percpu then _last_cpu_times s1 = _last_cpu_times s
                     /\ _last_cpu_times_2 s2 = _last_cpu_times_2 s
      else _last_per_cpu_times s1 = _last_per_cpu_times s
           /\ _last_per_cpu_times_2 s2 = _last_per_cpu_times_2 s)
  /\ heap s1 = heap s /\ heap s2 = heap s /\ log s1 = log s /\ log s2 = log s.
Proof.
  cbv zeta. unfold system_cpu_percent, cpu_times_percent, cpu_times, per_cpu_times.
  munfold.
  destruct percpu, (is_blocking interval); simpl;
    repeat match goal with
           | |- context [plat_cpu_times ?w] =>
               let t := fresh "t" in let w' := fresh "w" in
               destruct (plat_cpu_times w) as [t w']; simpl
           | |- context [plat_per_cpu_times ?w] =>
               let t := fresh "t" in let w' := fresh "w" in
               destruct (plat_per_cpu_times w) as [t w']; simpl
           end;
    repeat match goal with
           | |- context [match ?c with Ok _ => _ | Raise _ => _ end] =>
               destruct c; simpl
           end;
    repeat split; reflexivity.
Qed.

End SystemCpu.

Section ProcCpu.

Context {W : Type} {P : Platform W}.

(** X16.  After a call of [Process.cpu_percent] that has returned,
    blocking or not, both samples are stored in the object, and the next
    non-blocking call returns the rounded quotient of the deltas against
    them: only the first call on an object returns the placeholder. *)
Theorem cpu_percent_second_call (self : ref) (interval : option Q)
    (s s1 : State W) (v : Q) :
  cpu_percent self interval s = (Ok v, s1) ->
  exists (st1 : Q) (pt1 : pcputimes),
    _last_sys_cpu_times (heap s1 self) = Some st1 /\
    _last_proc_cpu_times (heap s1 self) = Some pt1 /\
    forall (sa sb : State W) (st2 : Q) (pt2 : pcputimes),
      timer cpu_count s1 = (Ok st2, sa) ->
      call_r (proc_cpu_times (_pid (heap s1 self))) sa = (Ok pt2, sb) ->
      fst (cpu_percent self None s1)
      = Ok (overall_percent st1 st2 pt1 pt2 cpu_count).
Proof.
  intros H.
  assert (Hc : exists st1 pt1,
             _last_sys_cpu_times (heap s1 self) = Some st1 /\
             _last_proc_cpu_times (heap s1 self) = Some pt1).
  { revert H. unfold cpu_percent. unfold bind at 1, deref at 1.
    destruct (is_blocking interval).
    - unfold bind at 1. destruct (timer cpu_count s) as [[st1|e] sa]; [|discriminate].
      unfold bind at 1. destruct (call_r _ sa) as [[pt1|e] sb]; [|discriminate].
      unfold bind at 1, sleep, modify.
      unfold bind at 1. destruct (timer cpu_count _) as [[st2|e] sc]; [|discriminate].
      unfold bind at 1. destruct (call_r _ sc) as [[pt2|e] sd]; [|discriminate].
      munfold. intros [= <- <-]. simpl. rewrite Nat.eqb_refl. simpl. eauto.
    - unfold bind at 1. destruct (timer cpu_count s) as [[st2|e] sa]; [|discriminate].
      unfold bind at 1. destruct (call_r _ sa) as [[pt2|e] sb]; [|discriminate].
      destruct (_last_sys_cpu_times (heap s self)) as [st1|];
        [destruct (_last_proc_cpu_times (heap s self)) as [pt1|]|];
        munfold; intros [= <- <-]; simpl; rewrite Nat.eqb_refl; simpl; eauto. }
  destruct Hc as (st1 & pt1 & Hst & Hpt). exists st1, pt1.
  split; [exact Hst|]. split; [exact Hpt|].
  intros sa sb st2 pt2 Ht Hp. unfold cpu_percent. simpl.
  unfold bind at 1, deref at 1. unfold bind at 1. rewrite Ht.
  unfold bind at 1. rewrite Hp. rewrite Hst, Hpt. reflexivity.
Qed.

End ProcCpu.

(** ** The first mode of [children] *)

Section ChildrenDirect.

Context {W : Type} {P : Platform W}.

Lemma grows_refl (s : State W) : grows s s.
Proof. split; [reflexivity|]. intros r _. split; [reflexivity|auto]. Qed.

Lemma grows_trans (s1 s2 s3 : State W) : grows s1 s2 -> grows s2 s3 -> grows s1 s3.
Proof.
  intros [Hn1 H1] [Hn2 H2]. split; [lia|]. intros r Hr.
  destruct (H1 r Hr) as [Ha Hb]. destruct (H2 r ltac:(lia)) as [Ha' Hb'].
  split; [congruence|auto].
Qed.

Lemma not_older_grows (s s' : State W) (root child : ref) :
  grows s s' -> (root < next_ref s)%nat -> (child < next_ref s)%nat ->
  not_older s root child -> not_older s' root child.
Proof.
  intros [_ H] Hr Hc (sc & cc & H1 & H2 & Hle). exists sc, cc.
  split; [apply (H root Hr), H1|]. split; [apply (H child Hc), H2|exact Hle].
Qed.

Lemma create_time_grows (self : ref) (s s' : State W) (r : result Q) :
  create_time self s = (r, s') ->
  grows s s' /\ next_ref s' = next_ref s /\
  forall t, r = Ok t -> _create_time (heap s' self) = Some t.
Proof.
  intros H. destruct (create_time_spec _ _ _ _ H) as [Hk Hv].
  assert (Hn : next_ref s' = next_ref s).
  { revert H. unfold create_time. munfold.
    destruct (_create_time (heap s self)); [intros [= <- <-]; reflexivity|].
    destruct (proc_create_time _ _) as [[t|e] w]; intros [= <- <-]; reflexivity. }
  split; [|split; [exact Hn|exact Hv]].
  split; [lia|]. intros x _. apply Hk.
Qed.

Lemma _init_grows (pid : Z) (ign : bool) (s s' : State W) (r : result ref) :
  _init pid ign s = (r, s') ->
  grows s s' /\
  forall n, r = Ok n -> (next_ref s <= n)%nat /\ (n < next_ref s')%nat.
Proof.
  intros H. destruct (Z.lt_ge_cases pid 0) as [Hneg|Hpos].
  { rewrite _init_negative in H by exact Hneg. injection H as <- <-.
    split; [apply grows_refl|]. intros n [=]. }
  destruct (_init_spec pid ign s Hpos) as (s1 & _ & Hn & _ & _ & _ & Hfr & Hres).
  assert (Hs : s' = s1 /\ forall n, r = Ok n -> n = next_ref s).
  { destruct (fst (proc_create_time pid (world s))) as [t|e].
    - destruct Hres as [Hi _]. rewrite Hi in H. injection H as <- <-.
      split; [reflexivity|]. intros n [= <-]. reflexivity.
    - destruct e;
        try (rewrite Hres in H; injection H as <- <-; split; [reflexivity|];
             intros n [=]; fail).
      + destruct ign.
        * destruct Hres as [Hi _]. rewrite Hi in H. injection H as <- <-.
          split; [reflexivity|]. intros n [= <-]. reflexivity.
        * rewrite Hres in H. injection H as <- <-. split; [reflexivity|]. intros n [=].
      + destruct Hres as [Hi _]. rewrite Hi in H. injection H as <- <-.
        split; [reflexivity|]. intros n [= <-]. reflexivity. }
  destruct Hs as [-> Hr]. split.
  - split; [lia|]. intros x Hx. rewrite Hfr by lia. split; [reflexivity|auto].
  - intros n Hn'. rewrite (Hr n Hn'). lia.
Qed.

Lemma update_grows (r : ref) (f : Process -> Process) (s : State W) :
  (forall p, _pid (f p) = _pid p /\ _create_time (f p) = _create_time p) ->
  grows s (snd (update r f s)).
Proof.
  intros Hf. split; [reflexivity|]. intros x _. simpl.
  destruct (Nat.eqb x r) eqn:E; [|split; [reflexivity|auto]].
  apply Nat.eqb_eq in E. subst x. destruct (Hf (heap s r)) as [-> ->]. auto.
Qed.

Lemma is_running_grows (self : ref) (s s' : State W) (r : result bool) :
  is_running self s = (r, s') -> grows s s'.
Proof.
  unfold is_running. unfold bind at 1, deref at 1.
  destruct (_gone (heap s self)); [intros [= <- <-]; apply grows_refl|].
  unfold try_except, Process_. unfold bind at 1.
  destruct (_init (_pid (heap s self)) false s) as [[n|e] s1] eqn:Hi.
  - apply _init_grows in Hi as [Hg _]. unfold __eq__. munfold.
    intros [= <- <-]. exact Hg.
  - apply _init_grows in Hi as [Hg _].
    destruct e; try (unfold raise; intros [= <- <-]; exact Hg).
    munfold. intros [= <- <-]. eapply grows_trans; [exact Hg|].
    apply (update_grows self (set_gone true) s1). intros p. split; reflexivity.
Qed.

Lemma add_grows (pid : Z) (s s' : State W) (r : result ref) :
  add pid s = (r, s') ->
  grows s s' /\ forall n, r = Ok n -> (n < next_ref s')%nat.
Proof.
  unfold add, Process_. unfold bind at 1.
  destruct (_init pid false s) as [[n|e] s1] eqn:Hi.
  - apply _init_grows in Hi as [Hg Hn]. munfold. intros [= <- <-].
    split; [exact Hg|]. intros n' [= <-]. simpl. apply (Hn n eq_refl).
  - apply _init_grows in Hi as [Hg _]. intros [= <- <-].
    split; [exact Hg|]. intros n [=].
Qed.

Lemma process_iter_step_grows (k : Z) (o : option ref) (s s' : State W)
    (r : result (option ref)) :
  (forall pr, o = Some pr -> (pr < next_ref s)%nat) ->
  process_iter_step (k, o) s = (r, s') ->
  grows s s' /\ forall p, r = Ok (Some p) -> (p < next_ref s')%nat.
Proof.
  intros Ho. unfold process_iter_step, try_except.
  assert (Hadd : forall s1 : State W,
             grows s s1 ->
             (let (r, s2) := (let* q := add k in ret (Some q)) s1 in
              match r with
              | Ok a => (Ok a, s2)
              | Raise e =>
                  match e with
                  | NoSuchProcess _ => remove k ;; ret None
                  | AccessDenied => ret o
                  | _ => raise e
                  end s2
              end) = (r, s') ->
             grows s s' /\ forall p, r = Ok (Some p) -> (p < next_ref s')%nat).
  { intros s1 Hg1. unfold bind at 1.
    destruct (add k s1) as [[n|e] s2] eqn:Ha; apply add_grows in Ha as [Hg2 Hn].
    - unfold ret. intros [= <- <-]. split; [eapply grows_trans; eassumption|].
      intros p [= <-]. apply Hn. reflexivity.
    - assert (Hg : grows s s2) by (eapply grows_trans; eassumption).
      destruct e; try solve [unfold raise; intros [= <- <-]; split; [exact Hg|intros p [=]]].
      unfold ret. intros [= <- <-]. split; [exact Hg|].
      intros p [= ->]. destruct Hg as [Hle _]. specialize (Ho p eq_refl). lia. }
  destruct o as [pr|]; [|apply Hadd, grows_refl].
  unfold bind at 1. destruct (is_running pr s) as [[[|]|e] s1] eqn:Hr;
    apply is_running_grows in Hr.
  - unfold ret. intros [= <- <-]. split; [exact Hr|].
    intros p [= <-]. destruct Hr as [Hle _]. specialize (Ho pr eq_refl). lia.
  - apply Hadd, Hr.
  - destruct e; try solve [unfold raise; intros [= <- <-]; split; [exact Hr|intros p [=]]].
    unfold ret. intros [= <- <-]. split; [exact Hr|].
    intros p [= <-]. destruct Hr as [Hle _]. specialize (Ho pr eq_refl). lia.
Qed.

Lemma ppid_grows (self : ref) (s s' : State W) (r : result (option Z)) :
  ppid self s = (r, s') -> grows s s' /\ next_ref s' = next_ref s.
Proof.
  unfold ppid. munfold. destruct _POSIX.
  - destruct (proc_ppid _ _) as [x w]. intros [= <- <-].
    split; [exact (grows_refl s)|reflexivity].
  - destruct (_ppid (heap s self)).
    + intros [= <- <-]. split; [apply grows_refl|reflexivity].
    + destruct (proc_ppid _ _) as [[v|e] w]; intros [= <- <-].
      * split; [|reflexivity].
        apply (update_grows self (set_ppid v) (set_world w s)).
        intros p. split; reflexivity.
      * split; [exact (grows_refl s)|reflexivity].
Qed.

(** The test that both loops of the first mode make on a candidate. *)
Lemma child_test_spec (self child : ref) (ret_ : list ref) (s s' : State W)
    (r : result (list ref)) :
  (let* sc := create_time self in
   let* cc := create_time child in
   if Qle_bool sc cc then ret (ret_ ++ [child]) else ret ret_) s = (r, s') ->
  grows s s' /\ next_ref s' = next_ref s /\
  forall l, r = Ok l -> l = ret_ \/ (l = ret_ ++ [child] /\ not_older s' self child).
Proof.
  unfold bind at 1.
  destruct (create_time self s) as [[sc|e] s1] eqn:H1.
  2:{ apply create_time_grows in H1 as (Hg & Hn & _). intros [= <- <-].
      split; [exact Hg|]. split; [exact Hn|]. intros l [=]. }
  unfold bind at 1.
  destruct (create_time child s1) as [[cc|e] s2] eqn:H2.
  2:{ apply create_time_grows in H1 as (Hg1 & Hn1 & _).
      apply create_time_grows in H2 as (Hg2 & Hn2 & _). intros [= <- <-].
      split; [eapply grows_trans; eassumption|]. split; [congruence|]. intros l [=]. }
  destruct (create_time_spec _ _ _ _ H2) as [Hk2 _].
  apply create_time_grows in H1 as (Hg1 & Hn1 & Hv1).
  apply create_time_grows in H2 as (Hg2 & Hn2 & Hv2).
  assert (Hg : grows s s2) by (eapply grows_trans; eassumption).
  assert (Hn : next_ref s2 = next_ref s) by congruence.
  destruct (Qle_bool sc cc) eqn:Hle; unfold ret; intros [= <- <-];
    (split; [exact Hg|]); (split; [exact Hn|]); intros l [= <-]; [|left; reflexivity].
  right. split; [reflexivity|]. exists sc, cc. split; [|split].
  - destruct (Hk2 self) as [_ Hk]. apply Hk, Hv1. reflexivity.
  - apply Hv2. reflexivity.
  - apply Qle_bool_iff. exact Hle.
Qed.

Lemma children_slow_body_spec (self : ref) (self_pid : Z) (p : ref) (ret_ : list ref)
    (s s' : State W) (r : result (list ref)) :
  except_NoSuchProcess
    (let* pp := ppid p in
     if bool_decide (pp = Some self_pid) then
       let* sc := create_time self in
       let* pc := create_time p in
       if Qle_bool sc pc then ret (ret_ ++ [p]) else ret ret_
     else ret ret_)
    ret_ s = (r, s') ->
  grows s s' /\ next_ref s' = next_ref s /\
  forall l, r = Ok l -> l = ret_ \/ (l = ret_ ++ [p] /\ not_older s' self p).
Proof.
  unfold except_NoSuchProcess, try_except. unfold bind at 1.
  destruct (ppid p s) as [[pp|e] s1] eqn:Hp; apply ppid_grows in Hp as [Hg1 Hn1].
  - destruct (bool_decide (pp = Some self_pid)).
    + match goal with
      | |- (let (_, _) := ?m s1 in _) = _ -> _ => destruct (m s1) as [[l|e] s2] eqn:Ht
      end; apply child_test_spec in Ht as (Hg2 & Hn2 & Hl).
      * intros [= <- <-]. split; [eapply grows_trans; eassumption|].
        split; [congruence|]. intros l' [= <-]. apply Hl. reflexivity.
      * assert (Hg : grows s s2) by (eapply grows_trans; eassumption).
        assert (Hn : next_ref s2 = next_ref s) by congruence.
        destruct e; unfold ret, raise; intros [= <- <-];
          (split; [exact Hg|]); (split; [exact Hn|]); intros l [=]; subst; left; reflexivity.
    + unfold ret. intros [= <- <-]. split; [exact Hg1|]. split; [exact Hn1|].
      intros l [= <-]. left. reflexivity.
  - destruct e; unfold ret, raise; intros [= <- <-];
      (split; [exact Hg1|]); (split; [exact Hn1|]); intros l [=]; subst; left; reflexivity.
Qed.

Lemma children_slow_loop (self : ref) (self_pid : Z) (items : list item) :
  forall (acc : list ref) (s s' : State W) (l : list ref),
    (self < next_ref s)%nat ->
    (forall k pr, (k, Some pr) ∈ items -> (pr < next_ref s)%nat) ->
    (forall c, c ∈ acc -> (c < next_ref s)%nat /\ not_older s self c) ->
    process_iter_loop items
      (fun p ret_ =>
         except_NoSuchProcess
           (let* pp := ppid p in
            if bool_decide (pp = Some self_pid) then
              let* sc := create_time self in
              let* pc := create_time p in
              if Qle_bool sc pc then ret (ret_ ++ [p]) else ret ret_
            else ret ret_)
           ret_)
      acc s = (Ok l, s') ->
    grows s s' /\ forall c, c ∈ l -> (c < next_ref s')%nat /\ not_older s' self c.
Proof.
  induction items as [|[k o] items IH]; intros acc s s' l Hself Hit Hacc Hloop.
  - simpl in Hloop. unfold ret in Hloop. injection Hloop as <- <-.
    split; [apply grows_refl|exact Hacc].
  - cbn [process_iter_loop] in Hloop. unfold bind at 1 in Hloop.
    destruct (process_iter_step (k, o) s) as [[y|e] s1] eqn:Hstep; [|discriminate].
    apply process_iter_step_grows in Hstep as [Hg1 Hy];
      [|intros pr ->; apply (Hit k pr); left].
    assert (Hself1 : (self < next_ref s1)%nat) by (destruct Hg1; lia).
    assert (Hacc1 : forall c, c ∈ acc -> (c < next_ref s1)%nat /\ not_older s1 self c).
    { intros c Hc. destruct (Hacc c Hc) as [Hlt Hno].
      split; [destruct Hg1; lia|]. eapply not_older_grows; eassumption. }
    assert (Hit1 : forall k' pr, (k', Some pr) ∈ items -> (pr < next_ref s1)%nat).
    { intros k' pr Hin. specialize (Hit k' pr ltac:(right; exact Hin)).
      destruct Hg1; lia. }
    unfold bind at 1 in Hloop.
    destruct y as [p|].
    + match type of Hloop with
      | (let (_, _) := ?m s1 in _) = _ => destruct (m s1) as [[acc2|e] s2] eqn:Hb
      end; [|discriminate].
      apply children_slow_body_spec in Hb as (Hg2 & Hn2 & Hl).
      assert (Hp : (p < next_ref s1)%nat) by (apply Hy; reflexivity).
      destruct (IH acc2 s2 s' l) as [Hg3 Hres]; try exact Hloop.
      * lia.
      * intros k' pr Hin. specialize (Hit1 k' pr Hin). lia.
      * intros c Hc. destruct (Hl acc2 eq_refl) as [->|[-> Hno]].
        -- destruct (Hacc1 c Hc) as [Hlt Hn]. split; [lia|].
           eapply not_older_grows; eassumption.
        -- apply elem_of_app in Hc as [Hc|Hc].
           ++ destruct (Hacc1 c Hc) as [Hlt Hn]. split; [lia|].
              eapply not_older_grows; eassumption.
           ++ apply list_elem_of_singleton in Hc. subst c. split; [lia|exact Hno].
      * split; [|exact Hres].
        eapply grows_trans; [exact Hg1|]. eapply grows_trans; eassumption.
    + unfold ret at 1 in Hloop.
      destruct (IH acc s1 s' l Hself1 Hit1 Hacc1 Hloop) as [Hg3 Hres].
      split; [eapply grows_trans; eassumption|exact Hres].
Qed.

Lemma children_fast_spec (self : ref) (self_pid : Z) (ppid_map : list (Z * Z)) :
  forall (acc : list ref) (s s' : State W) (l : list ref),
    (self < next_ref s)%nat ->
    (forall c, c ∈ acc -> (c < next_ref s)%nat /\ not_older s self c) ->
    children_fast self self_pid ppid_map acc s = (Ok l, s') ->
    grows s s' /\ forall c, c ∈ l -> (c < next_ref s')%nat /\ not_older s' self c.
Proof.
  induction ppid_map as [|[pid pp] rest IH]; intros acc s s' l Hself Hacc Hrun.
  - simpl in Hrun. unfold ret in Hrun. injection Hrun as <- <-.
    split; [apply grows_refl|exact Hacc].
  - cbn [children_fast] in Hrun. unfold bind at 1 in Hrun.
    assert (Hstep : forall (acc1 : list ref) (s1 : State W),
               (if pp =? self_pid then
                  except_NoSuchProcess
                    (let* child := Process_ pid in
                     let* sc := create_time self in
                     let* cc := create_time child in
                     if Qle_bool sc cc then ret (acc ++ [child]) else ret acc)
                    acc
                else ret acc) s = (Ok acc1, s1) ->
               grows s s1 /\
               forall c, c ∈ acc1 -> (c < next_ref s1)%nat /\ not_older s1 self c).
    { intros acc1 s1. destruct (pp =? self_pid).
      2:{ unfold ret. intros [= <- <-]. split; [apply grows_refl|exact Hacc]. }
      unfold except_NoSuchProcess, try_except, Process_. unfold bind at 1.
      destruct (_init pid false s) as [[n|e] sa] eqn:Hi;
        apply _init_grows in Hi as [Hga Hn].
      - match goal with
        | |- (let (_, _) := ?m sa in _) = _ -> _ => destruct (m sa) as [[x|e] sb] eqn:Ht
        end; apply child_test_spec in Ht as (Hgb & Hnb & Hl).
        + intros [= <- <-]. assert (Hg : grows s sb) by (eapply grows_trans; eassumption).
          split; [exact Hg|]. intros c Hc.
          assert (Hold : forall c, c ∈ acc ->
                           (c < next_ref sb)%nat /\ not_older sb self c).
          { intros c' Hc'. destruct (Hacc c' Hc') as [Hlt Hno].
            split; [destruct Hg; lia|]. eapply not_older_grows; eassumption. }
          destruct (Hl x eq_refl) as [->|[-> Hno]]; [apply Hold, Hc|].
          apply elem_of_app in Hc as [Hc|Hc]; [apply Hold, Hc|].
          apply list_elem_of_singleton in Hc. subst c.
          split; [destruct (Hn n eq_refl); lia|exact Hno].
        + assert (Hg : grows s sb) by (eapply grows_trans; eassumption).
          destruct e; unfold ret, raise; intros [= <- <-].
          split; [exact Hg|]. intros c Hc. destruct (Hacc c Hc) as [Hlt Hno].
          split; [destruct Hg; lia|]. eapply not_older_grows; eassumption.
      - destruct e; unfold ret, raise; intros [= <- <-].
        split; [exact Hga|]. intros c Hc. destruct (Hacc c Hc) as [Hlt Hno].
        split; [destruct Hga; lia|]. eapply not_older_grows; eassumption. }
    match type of Hrun with
    | (let (_, _) := ?m s in _) = _ => destruct (m s) as [[acc1|e] s1] eqn:Hb
    end; [|discriminate].
    destruct (Hstep _ _ eq_refl) as [Hg1 Hacc1].
    destruct (IH acc1 s1 s' l) as [Hg2 Hres]; try assumption.
    + destruct Hg1; lia.
    + split; [eapply grows_trans; eassumption|exact Hres].
Qed.

(** X17.  In the first mode of [children] ([recursive=False]), on the
    path through [process_iter] and on the one through [ppid_map], no
    object that is returned is older than [self]. *)
Theorem children_direct (self : ref) (s s' : State W) (l : list ref) :
  (self < next_ref s)%nat -> pmap_wf s ->
  children self false s = (Ok (Some l), s') ->
  forall c, c ∈ l -> not_older s' self c.
Proof.
  intros Hself Hwf. unfold children, _assert_pid_not_reused. unfold bind at 1.
  destruct (is_running self s) as [[[|]|e] s1] eqn:Hr; simpl; try discriminate.
  pose proof (is_running_pmap _ _ _ _ Hr) as Hpm1.
  pose proof (is_running_extends _ _ _ _ Hr) as [[Hle1 Hext1] _].
  assert (Hwf1 : pmap_wf s1).
  { intros k r Hk. rewrite Hpm1 in Hk. destruct (Hwf k r Hk) as (Hlt & Hp & H0).
    destruct (Hext1 r Hlt) as (Hp' & _). repeat split; [lia|congruence|exact H0]. }
  assert (Hself1 : (self < next_ref s1)%nat) by lia.
  clear Hr Hpm1 Hext1 Hle1 Hwf Hself s.
  unfold children_body. unfold bind at 1.
  destruct plat_ppid_map as [f|].
  - unfold bind at 1, call at 1. destruct (f (world s1)) as [m w] eqn:Hf.
    unfold ret at 1. unfold bind at 1, deref at 1. simpl.
    unfold bind at 1.
    destruct (children_fast self _ m [] _) as [[x|e] s2] eqn:Hc; [|discriminate].
    unfold ret. intros [= <- <-].
    apply children_fast_spec in Hc as [_ Hres].
    + intros c Hin. apply Hres, Hin.
    + exact Hself1.
    + intros c Hin. inversion Hin.
  - unfold ret at 1. unfold bind at 1, deref at 1. simpl.
    unfold bind at 1.
    destruct (children_slow self (_pid (heap s1 self)) s1) as [[x|e] s2] eqn:Hc;
      [|discriminate].
    unfold ret. intros [= <- <-].
    unfold children_slow, process_iter_for in Hc. unfold bind at 1 in Hc.
    destruct (process_iter_items_spec s1) as (s0 & Hitems & _ & Hh0 & Hn0 & _ & Hpm0).
    rewrite Hitems in Hc.
    apply children_slow_loop in Hc as [_ Hres].
    + intros c Hin. apply Hres, Hin.
    + rewrite Hn0. exact Hself1.
    + intros k pr Hin. apply list_elem_of_fmap in Hin as (k' & [= -> Hk] & _).
      symmetry in Hk. rewrite Hpm0 in Hk. rewrite Hn0.
      destruct (decide (k' ∈ fst (plat_pids (world s1)))); [|discriminate].
      apply (Hwf1 k' pr Hk).
    + intros c Hin. inversion Hin.
Qed.

End ChildrenDirect.

(** ** The information getters *)

Lemma prefix_refl (s : string) : String.prefix s s = true.
Proof.
  induction s as [|a s IH]; [reflexivity|].
  simpl. destruct (Ascii.ascii_dec a a); [exact IH|contradiction].
Qed.

Section GetterFacts.

Context {W : Type} {P : Platform W} {HW : Host W}.

(** X18.  The name that [name] returns and caches starts with the name
    that the platform reports.  It is that name, and the command line is
    not read, unless the platform is POSIX and the name has 15 characters
    or more; when it differs, it is the base name of the first element of
    the command line. *)
Theorem name_starts_with_platform_name (self self' : Attrs) (w w' : W) (n : string) :
  _name self = None ->
  name self w = (Ok n, self', w') ->
  exists kname w1,
    proc_name (a_pid self) w = (Ok kname, w1)
    /\ String.prefix kname n = true
    /\ self' = set_name (Some n) self
    /\ (_POSIX && (15 <=? String.length kname)%nat = false -> n = kname /\ w' = w1)
    /\ (n <> kname ->
        exists c0 rest,
          fst (proc_cmdline (a_pid self) w1) = Ok (c0 :: rest)
          /\ n = os_path_basename c0).
Proof.
  intros Hn. unfold name. rewrite Hn.
  destruct (proc_name (a_pid self) w) as [[kname|e] w1]; [|discriminate].
  assert (Hsame : forall w2 : W,
             (_POSIX && (15 <=? String.length kname)%nat = false -> w2 = w1) ->
             exists kname0 w0,
               (Ok kname, w1) = (Ok kname0, w0)
               /\ String.prefix kname0 kname = true
               /\ set_name (Some kname) self = set_name (Some kname) self
               /\ (_POSIX && (15 <=? String.length kname0)%nat = false ->
                   kname = kname0 /\ w2 = w0)
               /\ (kname <> kname0 ->
                   exists c0 rest,
                     fst (proc_cmdline (a_pid self) w0) = Ok (c0 :: rest)
                     /\ kname = os_path_basename c0)).
  { intros w2 Hw. exists kname, w1. split; [reflexivity|].
    split; [apply prefix_refl|]. split; [reflexivity|].
    split; [intros Hc; split; [reflexivity|apply Hw, Hc]|].
    intros Hne. contradiction. }
  destruct (_POSIX && (15 <=? String.length kname)%nat) eqn:Hc.
  - destruct (proc_cmdline (a_pid self) w1) as [[cmdline|e] w2] eqn:Hcmd.
    + destruct cmdline as [|c0 rest].
      * intros [= <- <- <-]. apply Hsame. discriminate.
      * destruct (String.prefix kname (os_path_basename c0)) eqn:Hp;
          intros [= <- <- <-]; [|apply Hsame; discriminate].
        exists kname, w1. split; [reflexivity|].
        split; [exact Hp|]. split; [reflexivity|]. split; [rewrite Hc; discriminate|].
        intros _. exists c0, rest. rewrite Hcmd. split; reflexivity.
    + destruct e; try discriminate.
      intros [= <- <- <-]. apply Hsame. discriminate.
  - intros [= <- <- <-]. apply Hsame. reflexivity.
Qed.

(** X19.  After a call of [name] that has returned, every call returns
    the same name without a call to the platform.  A call that raises
    leaves the object as it was, with nothing cached. *)
Theorem name_is_cached (self self' : Attrs) (w w' : W) (n : string) :
  name self w = (Ok n, self', w') ->
  (forall w2, name self' w2 = (Ok n, self', w2))
  /\ (forall (e : exn) (self2 : Attrs) (w2 w3 : W),
         name self w2 = (Raise e, self2, w3) -> self2 = self /\ _name self = None).
Proof.
  intros Hrun.
  assert (Hc : _name self' = Some n).
  { revert Hrun. unfold name. destruct (_name self) as [n0|] eqn:Hn.
    - intros [= <- <- <-]. exact Hn.
    - destruct (proc_name (a_pid self) w) as [[kname|e] w1]; [|discriminate].
      match goal with
      | |- (let (_, _) := ?c in _) = _ -> _ => destruct c as [[x|e] w2]
      end; [|discriminate].
      intros [= <- <- <-]. reflexivity. }
  split.
  - intros w2. unfold name. rewrite Hc. reflexivity.
  - intros e self2 w2 w3. unfold name. destruct (_name self) as [n0|]; [discriminate|].
    destruct (proc_name (a_pid self) w2) as [[kname|e'] w4].
    + match goal with
      | |- (let (_, _) := ?c in _) = _ -> _ => destruct c as [[x|e'] w5]
      end; [discriminate|].
      intros [= <- <- <-]. split; reflexivity.
    + intros [= <- <- <-]. split; reflexivity.
Qed.

Lemma guess_it_found (self : Attrs) (fb : fallback) (w w' : W) (e : string) :
  guess_it self fb w = (Ok e, w') ->
  fb = FallbackExe e
  \/ (os_has_access = true /\ os_path_isabs e = true
      /\ (exists rest w1, proc_cmdline (a_pid self) w = (Ok (e :: rest), w1)
                          /\ fst (os_path_isfile e w1) = true
                          /\ fst (os_access_X_OK e (snd (os_path_isfile e w1))) = true)).
Proof.
  unfold guess_it.
  destruct (proc_cmdline (a_pid self) w) as [[cmdline|x] w1]; [|discriminate].
  assert (Hfb : forall w2, match fb with
                           | FallbackError => (Raise AccessDenied, w2)
                           | FallbackExe exe => (Ok exe, w2)
                           end = (Ok e, w') -> fb = FallbackExe e).
  { intros w2. destruct fb; [discriminate|]. intros [= -> _]. reflexivity. }
  destruct cmdline as [|c rest]; [intros H0; left; eapply Hfb, H0|].
  destruct os_has_access; [|intros H0; left; eapply Hfb, H0].
  destruct (os_path_isabs c) eqn:Habs; [|intros H0; left; eapply Hfb, H0].
  destruct (os_path_isfile c w1) as [f w2] eqn:Hf.
  destruct f; [|intros H0; left; eapply Hfb, H0].
  destruct (os_access_X_OK c w2) as [x w3] eqn:Hx.
  destruct x; [|intros H0; left; eapply Hfb, H0].
  intros [= <- <-]. right. split; [reflexivity|]. split; [exact Habs|].
  exists rest, w1. split; [reflexivity|]. rewrite Hf. simpl. rewrite Hx. split; reflexivity.
Qed.

(** X20.  What [exe] returns for an object with nothing cached is the
    answer of the platform, which is then cached, or, when the platform
    has answered with the empty string or has refused, the first element
    of the command line, which is then an absolute path that
    [os.path.isfile] and [os.access] have accepted. *)
Theorem exe_result (self self' : Attrs) (w w' : W) (e : string) :
  _exe self = None ->
  exe self w = (Ok e, self', w') ->
  (fst (proc_exe (a_pid self) w) = Ok e /\ self' = set_exe (Some e) self)
  \/ ((fst (proc_exe (a_pid self) w) = Ok ""%string
       \/ fst (proc_exe (a_pid self) w) = Raise AccessDenied)
      /\ os_has_access = true /\ os_path_isabs e = true
      /\ exists rest w1 w2,
           proc_cmdline (a_pid self) w1 = (Ok (e :: rest), w2)
           /\ fst (os_path_isfile e w2) = true
           /\ fst (os_access_X_OK e (snd (os_path_isfile e w2))) = true).
Proof.
  intros Hn. unfold exe. rewrite Hn.
  destruct (proc_exe (a_pid self) w) as [[x|err] w1] eqn:Hexe.
  - destruct (String.eqb x "") eqn:Hempty.
    + apply String.eqb_eq in Hempty. subst x.
      destruct (guess_it self (FallbackExe "") w1) as [[e'|err] w2] eqn:Hg.
      * intros [= <- <- <-].
        destruct (guess_it_found _ _ _ _ _ Hg) as [[= <-]|(Ha & Hb & rest & w3 & Hc & Hd & He)].
        -- left. split; reflexivity.
        -- right. split; [left; reflexivity|]. split; [exact Ha|]. split; [exact Hb|].
           exists rest, w1, w3. auto.
      * destruct err; try discriminate. intros [= <- <- <-]. left. split; reflexivity.
    + intros [= <- <- <-]. left. split; reflexivity.
  - destruct err; try discriminate.
    destruct (guess_it self FallbackError w1) as [[e'|err] w2] eqn:Hg; [|discriminate].
    intros [= <- <- <-].
    destruct (guess_it_found _ _ _ _ _ Hg) as [[=]|(Ha & Hb & rest & w3 & Hc & Hd & He)].
    right. split; [right; reflexivity|]. split; [exact Ha|]. split; [exact Hb|].
    exists rest, w1, w3. auto.
Qed.

(** X21.  When the platform refuses the executable, [exe] returns or
    raises what [guess_it] does and caches nothing; what it raises then is
    [AccessDenied] or the exception of [cmdline]. *)
Theorem exe_AccessDenied_not_cached (self self' : Attrs) (w w1 w' : W)
    (r : result string) :
  _exe self = None ->
  proc_exe (a_pid self) w = (Raise AccessDenied, w1) ->
  exe self w = (r, self', w') ->
  self' = self
  /\ (r, w') = guess_it self FallbackError w1
  /\ (forall e, r = Raise e ->
        e = AccessDenied \/ fst (proc_cmdline (a_pid self) w1) = Raise e).
Proof.
  intros Hn Hexe. unfold exe. rewrite Hn, Hexe.
  destruct (guess_it self FallbackError w1) as [r0 w2] eqn:Hg.
  intros [= <- <- <-]. split; [reflexivity|]. split; [reflexivity|].
  intros e ->. revert Hg. unfold guess_it.
  destruct (proc_cmdline (a_pid self) w1) as [[cmdline|x] w3].
  - match goal with
    | |- (let (_, _) := ?c in _) = _ -> _ => destruct c as [[f|] w4]
    end; [discriminate|]. intros [= <- _]. left. reflexivity.
  - intros [= <- _]. right. reflexivity.
Qed.

(** X22.  [memory_percent] raises only what [memory_info] raises.  It
    divides by the total that the module has cached, unless that is
    [None] or 0, in which case it asks [virtual_memory], which caches its
    answer.  A total of 0 gives 0.0, and the value is between 0 and 100
    when the resident size is between 0 and the total. *)
Theorem memory_percent_value (pid : Z) (g g' : option Z) (w w' : W) (r : result Q) :
  memory_percent pid g w = (r, g', w') ->
  match proc_memory_info pid w with
  | (Raise e, w1) => r = Raise e /\ g' = g /\ w' = w1
  | (Ok (rss, _), w1) =>
      exists t : Z,
        match g with
        | Some t0 =>
            if t0 =? 0
            then t = total (fst (plat_virtual_memory w1)) /\ g' = Some t
                 /\ w' = snd (plat_virtual_memory w1)
            else t = t0 /\ g' = g /\ w' = w1
        | None => t = total (fst (plat_virtual_memory w1)) /\ g' = Some t
                  /\ w' = snd (plat_virtual_memory w1)
        end
        /\ r = Ok (if t =? 0 then 0 else inject_Z rss / inject_Z t * 100)%Q
        /\ (0 <= rss <= t -> forall v, r = Ok v -> (0 <= v <= 100)%Q)
  end.
Proof.
  unfold memory_percent, virtual_memory.
  destruct (proc_memory_info pid w) as [[[rss vms]|e] w1].
  2:{ intros [= <- <- <-]. repeat split. }
  assert (Hval : forall t : Z,
             match truediv (inject_Z rss) (inject_Z t) with
             | Ok q => Ok (q * 100)%Q
             | Raise _ => Ok 0%Q
             end = Ok (if t =? 0 then 0 else inject_Z rss / inject_Z t * 100)%Q
             /\ (0 <= rss <= t ->
                 forall v, match truediv (inject_Z rss) (inject_Z t) with
                           | Ok q => Ok (q * 100)%Q
                           | Raise _ => Ok 0%Q
                           end = Ok v -> (0 <= v <= 100)%Q)).
  { intros t.
    assert (Hv : match truediv (inject_Z rss) (inject_Z t) with
                 | Ok q => Ok (q * 100)%Q
                 | Raise _ => Ok 0%Q
                 end = Ok (if t =? 0 then 0 else inject_Z rss / inject_Z t * 100)%Q).
    { destruct (t =? 0) eqn:Ht.
      - apply Z.eqb_eq in Ht. subst t. reflexivity.
      - apply Z.eqb_neq in Ht. rewrite truediv_nonzero; [reflexivity|].
        intros Hq. apply Ht. apply (inject_Z_injective t 0). exact Hq. }
    rewrite Hv. clear Hv.
    destruct (t =? 0) eqn:Ht.
    - apply Z.eqb_eq in Ht. subst t. split; [reflexivity|].
      intros _ v [= <-]. lra.
    - apply Z.eqb_neq in Ht. split; [reflexivity|].
      intros [Hr Hle] v [= <-].
      assert (Ht0 : (0 < inject_Z t)%Q).
      { change 0%Q with (inject_Z 0). rewrite <- Zlt_Qlt. lia. }
      assert (H0 : (0 <= inject_Z rss / inject_Z t)%Q).
      { apply Qle_shift_div_l; [exact Ht0|]. rewrite Qmult_0_l.
        change 0%Q with (inject_Z 0). rewrite <- Zle_Qle. exact Hr. }
      assert (H1 : (inject_Z rss / inject_Z t <= 1)%Q).
      { apply Qle_shift_div_r; [exact Ht0|]. rewrite Qmult_1_l.
        rewrite <- Zle_Qle. exact Hle. }
      lra. }
  destruct g as [t0|].
  - destruct (t0 =? 0) eqn:Ht0.
    + destruct (plat_virtual_memory w1) as [vm w2]. simpl.
      intros [= <- <- <-]. exists (total vm).
      split; [repeat split|]. apply Hval.
    + intros [= <- <- <-]. exists t0. split; [repeat split|]. apply Hval.
  - destruct (plat_virtual_memory w1) as [vm w2]. simpl.
    intros [= <- <- <-]. exists (total vm).
    split; [repeat split|]. apply Hval.
Qed.

End GetterFacts.

(** ** [memory_maps] and the system-wide counters *)

Lemma fold_left_add (l : list Z) (a : Z) : fold_left Z.add l a = a + zsum l.
Proof.
  unfold zsum. revert a. induction l as [|x l IH]; intros a; simpl; [lia|].
  rewrite (IH (a + x)), (IH (0 + x)). lia.
Qed.

Lemma zsum_cons (x : Z) (l : list Z) : zsum (x :: l) = x + zsum l.
Proof. unfold zsum at 1. simpl. apply fold_left_add. Qed.

Lemma zsum_foldr (l : list Z) : zsum l = foldr Z.add 0 l.
Proof. induction l as [|x l IH]; [reflexivity|]. rewrite zsum_cons, IH. reflexivity. Qed.

Lemma nth_zip_with_add (a b : list Z) (i : nat) :
  length a = length b ->
  nth i (zip_with Z.add a b) 0 = nth i a 0 + nth i b 0.
Proof.
  revert b i. induction a as [|x a IH]; intros [|y b] i Hl; try discriminate.
  - destruct i; reflexivity.
  - destruct i; simpl; [reflexivity|]. apply IH. simpl in Hl. lia.
Qed.

Lemma path_total_cons (p : string) (i : nat) (r : region) (it : list region) :
  path_total p i (r :: it)
  = (if String.eqb (m_path r) p then nth i (m_nums r) 0 else 0) + path_total p i it.
Proof.
  unfold path_total. simpl. destruct (String.eqb (m_path r) p); [|lia].
  rewrite fmap_cons, zsum_cons. reflexivity.
Qed.

Lemma group_regions_spec (n : nat) (it : list region) :
  forall d : gmap string (list Z),
    Forall (fun r => length (m_nums r) = n) it ->
    (forall p v, d !! p = Some v -> length v = n) ->
    exists d',
      group_regions it d = Ok d'
      /\ (forall p v, d' !! p = Some v -> length v = n)
      /\ (forall p, d' !! p = None <-> d !! p = None /\ p ∉ m_path <$> it)
      /\ (forall p i, nth i (default [] (d' !! p)) 0
                      = nth i (default [] (d !! p)) 0 + path_total p i it).
Proof.
  induction it as [|r it IH]; intros d Hit Hd.
  - exists d. split; [reflexivity|]. split; [exact Hd|]. split.
    + intros p. split; [intros Hp; split; [exact Hp|apply not_elem_of_nil]|intros [Hp _]; exact Hp].
    + intros p i. unfold path_total. simpl. unfold zsum. simpl. lia.
  - apply Forall_cons in Hit as [Hr Hit]. cbn [group_regions].
    assert (Hstep : forall v : list Z,
               length v = n ->
               (forall i, nth i v 0
                          = nth i (default [] (d !! m_path r)) 0 + nth i (m_nums r) 0) ->
               exists d',
                 group_regions it (<[m_path r := v]> d) = Ok d'
                 /\ (forall p v0, d' !! p = Some v0 -> length v0 = n)
                 /\ (forall p, d' !! p = None
                               <-> d !! p = None /\ p ∉ m_path <$> r :: it)
                 /\ (forall p i, nth i (default [] (d' !! p)) 0
                                 = nth i (default [] (d !! p)) 0
                                   + path_total p i (r :: it))).
    { intros v Hv Hnth.
      destruct (IH (<[m_path r := v]> d) Hit) as (d' & Hrun & Hlen & Hdom & Hsum).
      { intros p v0. destruct (decide (p = m_path r)) as [->|Hne].
        - rewrite lookup_insert_eq. intros [= <-]. exact Hv.
        - rewrite lookup_insert_ne by congruence. apply Hd. }
      exists d'. split; [exact Hrun|]. split; [exact Hlen|]. split.
      - intros p. rewrite Hdom, fmap_cons, not_elem_of_cons.
        destruct (decide (p = m_path r)) as [->|Hne].
        + rewrite lookup_insert_eq. split; [intros [[=] _]|intros [_ [Hc _]]; contradiction].
        + rewrite lookup_insert_ne by congruence. tauto.
      - intros p i. rewrite Hsum, path_total_cons.
        destruct (decide (p = m_path r)) as [->|Hne].
        + rewrite lookup_insert_eq, String.eqb_refl. simpl. rewrite Hnth. lia.
        + rewrite lookup_insert_ne by congruence.
          destruct (String.eqb (m_path r) p) eqn:E;
            [apply String.eqb_eq in E; congruence|lia]. }
    destruct (d !! m_path r) as [cur|] eqn:Hcur.
    + unfold add_nums. rewrite (Hd _ _ Hcur), Hr, Nat.eqb_refl. simpl.
      apply Hstep.
      * rewrite length_zip_with, (Hd _ _ Hcur), Hr. lia.
      * intros i. simpl. apply nth_zip_with_add. rewrite (Hd _ _ Hcur), Hr. reflexivity.
    + apply Hstep; [exact Hr|]. intros i. simpl. destruct i; reflexivity.
Qed.

Section MemoryMapsFacts.

Context {W : Type} {HW : Host W}.

(** X23.  For regions that have the same number of numeric fields,
    [memory_maps] in the grouped mode returns one entry for every path of
    the regions, and each number of an entry is the sum of that field over
    the regions of that path; in the other mode it returns the regions as
    they are. *)
Theorem memory_maps_grouped (pid : Z) (w w1 : W) (it : list region) (n : nat) :
  proc_memory_maps pid w = (Ok it, w1) ->
  Forall (fun r => length (m_nums r) = n) it ->
  memory_maps pid false w = (Ok (Ungrouped it), w1)
  /\ exists l,
       memory_maps pid true w = (Ok (Grouped l), w1)
       /\ NoDup l.*1
       /\ (forall p, p ∈ l.*1 <-> p ∈ m_path <$> it)
       /\ (forall p v, (p, v) ∈ l ->
             length v = n /\ forall i, nth i v 0 = path_total p i it).
Proof.
  intros Hm Hit. unfold memory_maps. rewrite Hm. split; [reflexivity|].
  destruct (group_regions_spec n it ∅ Hit) as (d & Hrun & Hlen & Hdom & Hsum).
  { intros p v Hp. rewrite lookup_empty in Hp. discriminate. }
  exists (map_to_list d). rewrite Hrun. split; [reflexivity|].
  split; [apply NoDup_fst_map_to_list|]. split.
  - intros p. rewrite list_elem_of_fmap. split.
    + intros ([p' v] & -> & Hin). apply elem_of_map_to_list in Hin. simpl.
      destruct (decide (p' ∈ m_path <$> it)) as [Hp|Hp]; [exact Hp|].
      assert (Hnone : d !! p' = None) by (apply Hdom; split; [apply lookup_empty|exact Hp]).
      congruence.
    + intros Hp. destruct (d !! p) as [v|] eqn:Hv.
      * exists (p, v). split; [reflexivity|]. apply elem_of_map_to_list. exact Hv.
      * apply Hdom in Hv as [_ Hv]. contradiction.
  - intros p v Hin. apply elem_of_map_to_list in Hin. split; [eapply Hlen; exact Hin|].
    intros i. specialize (Hsum p i). rewrite Hin, lookup_empty in Hsum. simpl in Hsum.
    rewrite Hsum. destruct i; simpl; lia.
Qed.

End MemoryMapsFacts.

(** ** Counters *)

Lemma zip_star_columns (n : nat) (rows : list (list Z)) :
  rows <> [] -> Forall (fun row => length row = n) rows ->
  zip_star rows = (fun i => (fun row => nth i row 0) <$> rows) <$> seq 0 n.
Proof.
  intros Hne Hall. destruct rows as [|r rest]; [contradiction|].
  unfold zip_star. apply Forall_cons in Hall as [Hr Hrest].
  assert (Hmin : fold_right Nat.min (length r) (length <$> rest) = n).
  { rewrite Hr. clear Hr Hne. induction rest as [|x rest IH]; [reflexivity|].
    apply Forall_cons in Hrest as [Hx Hrest]. rewrite fmap_cons.
    cbn [fold_right]. rewrite (IH Hrest), Hx. lia. }
  rewrite Hmin. reflexivity.
Qed.

Lemma wrap_items_spec {T} (nt : list Z -> result T) (mk : list Z -> T)
    (items : list (string * list Z)) :
  forall d : gmap string T,
    NoDup items.*1 ->
    (forall k row, (k, row) ∈ items -> nt row = Ok (mk row)) ->
    wrap_items nt items d = Ok ((mk <$> (list_to_map items : gmap string (list Z))) ∪ d).
Proof.
  induction items as [|[k row] items IH]; intros d Hnd Hok.
  - simpl. rewrite fmap_empty, (left_id_L ∅ (∪)). reflexivity.
  - simpl in Hnd. apply NoDup_cons in Hnd as [Hk Hnd].
    cbn [wrap_items]. rewrite (Hok k row) by left. simpl.
    rewrite IH; [|exact Hnd|intros k' row' Hin; apply (Hok k' row'); right; exact Hin].
    f_equal. rewrite fmap_insert.
    rewrite <- insert_union_l. symmetry. apply insert_union_r.
    rewrite lookup_fmap. apply fmap_None. apply not_elem_of_list_to_map_1. exact Hk.
Qed.

Lemma wrap_items_map {T} (nt : list Z -> result T) (mk : list Z -> T)
    (raw : gmap string (list Z)) :
  (forall k row, raw !! k = Some row -> nt row = Ok (mk row)) ->
  wrap_items nt (map_to_list raw) ∅ = Ok (mk <$> raw).
Proof.
  intros Hok. rewrite (wrap_items_spec nt mk).
  - rewrite list_to_map_to_list, (right_id_L ∅ (∪)). reflexivity.
  - apply NoDup_fst_map_to_list.
  - intros k row Hin. apply elem_of_map_to_list in Hin. eapply Hok, Hin.
Qed.

Lemma total_of_fmap {T} (f : T -> Z) (mk : list Z -> T) (raw : gmap string (list Z)) :
  total_of f (mk <$> raw) = zsum ((fun row => f (mk row)) <$> (map_to_list raw).*2).
Proof.
  unfold total_of. rewrite map_to_list_fmap. f_equal.
  rewrite <- !list_fmap_compose. apply list_fmap_ext. intros i [k row] _. reflexivity.
Qed.

Lemma _nt_sys_diskio_six (row : list Z) :
  length row = 6%nat -> _nt_sys_diskio row = Ok (sdiskio_of row).
Proof.
  intros Hl. do 7 (destruct row as [|? row]; try discriminate Hl). reflexivity.
Qed.

Lemma _nt_sys_netio_eight (row : list Z) :
  length row = 8%nat -> _nt_sys_netio row = Ok (snetio_of row).
Proof.
  intros Hl. do 9 (destruct row as [|? row]; try discriminate Hl). reflexivity.
Qed.

Lemma rows_of_map (n : nat) (raw : gmap string (list Z)) :
  raw <> ∅ -> (forall k row, raw !! k = Some row -> length row = n) ->
  (map_to_list raw).*2 <> [] /\ Forall (fun row => length row = n) (map_to_list raw).*2.
Proof.
  intros Hne Hlen. split.
  - intros Hnil. apply Hne. apply fmap_nil_inv in Hnil.
    apply map_to_list_empty_iff. exact Hnil.
  - apply Forall_forall. intros row Hin. apply list_elem_of_fmap in Hin as ([k r] & -> & Hin).
    apply elem_of_map_to_list in Hin. eapply Hlen, Hin.
Qed.

Section CounterFacts.

Context {W : Type} {HW : Host W}.

(** X24.  [disk_io_counters] raises [RuntimeError] when the platform
    reports no disk.  Otherwise, with six counters for every disk, the
    dict of [perdisk=True] has the disks of the platform as its keys, and
    every field of the system-wide tuple is the sum of that field over
    the dict. *)
Theorem disk_io_counters_total (w : W) :
  let raw := fst (plat_disk_io_counters w) in
  (raw = ∅ ->
   forall perdisk, fst (disk_io_counters perdisk w) = Raises RuntimeError)
  /\ (raw <> ∅ ->
      (forall k row, raw !! k = Some row -> length row = 6%nat) ->
      exists t per,
        fst (disk_io_counters false w) = Returns (Summed t)
        /\ fst (disk_io_counters true w) = Returns (PerKey per)
        /\ dom per = dom raw
        /\ read_count t = total_of read_count per
        /\ write_count t = total_of write_count per
        /\ read_bytes t = total_of read_bytes per
        /\ write_bytes t = total_of write_bytes per
        /\ read_time t = total_of read_time per
        /\ write_time t = total_of write_time per).
Proof.
  cbv zeta. unfold disk_io_counters.
  destruct (plat_disk_io_counters w) as [raw w1]. simpl. split.
  - intros -> perdisk. rewrite bool_decide_eq_true_2 by reflexivity. reflexivity.
  - intros Hne Hlen. rewrite bool_decide_eq_false_2 by exact Hne.
    destruct (rows_of_map 6 raw Hne Hlen) as [Hrows Hall].
    rewrite (zip_star_columns 6 _ Hrows Hall).
    rewrite (wrap_items_map _nt_sys_diskio sdiskio_of)
      by (intros k row Hk; apply _nt_sys_diskio_six; eapply Hlen, Hk).
    simpl. eexists. exists (sdiskio_of <$> raw).
    split; [reflexivity|]. split; [reflexivity|]. split; [apply dom_fmap_L|].
    rewrite !total_of_fmap. simpl. repeat split.
Qed.

(** X25.  [net_io_counters] raises [RuntimeError] when the platform
    reports no interface.  Otherwise, with eight counters for every
    interface, the dict of [pernic=True] has the interfaces of the
    platform as its keys, and every field of the system-wide tuple is the
    sum of that field over the dict. *)
Theorem net_io_counters_total (w : W) :
  let raw := fst (plat_net_io_counters w) in
  (raw = ∅ ->
   forall pernic, fst (net_io_counters pernic w) = Raises RuntimeError)
  /\ (raw <> ∅ ->
      (forall k row, raw !! k = Some row -> length row = 8%nat) ->
      exists t per,
        fst (net_io_counters false w) = Returns (Summed t)
        /\ fst (net_io_counters true w) = Returns (PerKey per)
        /\ dom per = dom raw
        /\ bytes_sent t = total_of bytes_sent per
        /\ bytes_recv t = total_of bytes_recv per
        /\ packets_sent t = total_of packets_sent per
        /\ packets_recv t = total_of packets_recv per
        /\ errin t = total_of errin per
        /\ errout t = total_of errout per
        /\ dropin t = total_of dropin per
        /\ dropout t = total_of dropout per).
Proof.
  cbv zeta. unfold net_io_counters.
  destruct (plat_net_io_counters w) as [raw w1]. simpl. split.
  - intros -> pernic. rewrite bool_decide_eq_true_2 by reflexivity. reflexivity.
  - intros Hne Hlen. rewrite bool_decide_eq_false_2 by exact Hne.
    destruct (rows_of_map 8 raw Hne Hlen) as [Hrows Hall].
    rewrite (zip_star_columns 8 _ Hrows Hall).
    rewrite (wrap_items_map _nt_sys_netio snetio_of)
      by (intros k row Hk; apply _nt_sys_netio_eight; eapply Hlen, Hk).
    simpl. eexists. exists (snetio_of <$> raw).
    split; [reflexivity|]. split; [reflexivity|]. split; [apply dom_fmap_L|].
    rewrite !total_of_fmap. simpl. repeat split.
Qed.

End CounterFacts.

(** ** [Popen] and [as_dict] *)

Section PopenFacts.

Context {W : Type} {P : Platform W}.

(** X26.  For a process that has vanished before the object is made,
    [Popen] returns an object where [Process] raises [NoSuchProcess].
    The object is marked gone: [is_running] is false, and [send_signal],
    [terminate] and [kill] raise [NoSuchProcess] in the state they were
    called in, so the pid is never signalled. *)
Theorem Popen_of_vanished (pid x : Z) (s : State W) :
  0 <= pid ->
  fst (proc_create_time pid (world s)) = Raise (NoSuchProcess x) ->
  exists self s',
    Popen_ pid s = (Ok self, s')
    /\ fst (Process_ pid s) = Raise (NoSuchProcess pid)
    /\ log s' = log s
    /\ is_running self s' = (Ok false, s')
    /\ (forall sig, send_signal self sig s' = (Raise (NoSuchProcess pid), s'))
    /\ terminate self s' = (Raise (NoSuchProcess pid), s')
    /\ kill self s' = (Raise (NoSuchProcess pid), s').
Proof.
  intros Hpid Hct.
  destruct (_init_spec pid true s Hpid) as (s' & _ & _ & _ & Hlog & _ & _ & Hres).
  destruct (_init_spec pid false s Hpid) as (s2 & _ & _ & _ & _ & _ & _ & Hres2).
  rewrite Hct in Hres, Hres2. destruct Hres as [Hi Hh].
  exists (next_ref s), s'. unfold Popen_, Process_. rewrite Hres2.
  split; [exact Hi|]. split; [reflexivity|]. split; [exact Hlog|].
  assert (Hg : _gone (heap s' (next_ref s)) = true) by (rewrite Hh; reflexivity).
  assert (Hp : _pid (heap s' (next_ref s)) = pid) by (rewrite Hh; reflexivity).
  pose proof (is_running_gone _ _ Hg) as Hr.
  assert (G : forall (A : Type) (f : ref -> M W A),
             _assert_pid_not_reused f (next_ref s) s' = (Raise (NoSuchProcess pid), s')).
  { intros A f. destruct (_assert_pid_not_reused_blocks f _ _ _ Hr) as [-> _].
    rewrite Hp. reflexivity. }
  split; [exact Hr|]. split; [intros sig; apply G|]. split; apply G.
Qed.

(** X27.  [Popen.wait] stores what [Process.wait] returns in the return
    code of the subprocess.  Once that is an exit code, every call returns
    it in the state it was called in, whatever the timeout, also a
    negative one, which [Process.wait] refuses with [ValueError]; as long
    as it is [None], every call waits again. *)
Theorem Popen_wait_cached (self : ref) (rc rc' : option Z) (timeout : option Q)
    (s s' : State W) (r : option Z) :
  Popen_wait self rc timeout s = (Ok (r, rc'), s') ->
  rc' = r
  /\ (forall code, r = Some code ->
        forall timeout' s2, Popen_wait self rc' timeout' s2 = (Ok (Some code, rc'), s2))
  /\ (r = None -> rc = None
               /\ forall timeout' s2,
                    Popen_wait self rc' timeout' s2
                    = (let* x := wait self timeout' in ret (x, x)) s2)
  /\ (forall (t : Q) s2, (t < 0)%Q -> wait self (Some t) s2 = (Raise ValueError, s2)).
Proof.
  assert (Hneg : forall (t : Q) (s2 : State W),
             (t < 0)%Q -> wait self (Some t) s2 = (Raise ValueError, s2)).
  { intros t s2 Ht. unfold wait. munfold.
    destruct (Qle_bool 0 t) eqn:E; [|reflexivity].
    apply Qle_bool_iff in E. lra. }
  unfold Popen_wait. destruct rc as [c|].
  - unfold ret. intros [= <- <- <-]. split; [reflexivity|]. split; [|split].
    + intros code [= <-] timeout' s2. reflexivity.
    + discriminate.
    + exact Hneg.
  - unfold bind. destruct (wait self timeout s) as [[x|e] s1]; [|discriminate].
    unfold ret. intros [= <- <- <-]. split; [reflexivity|]. split; [|split].
    + intros code -> timeout' s2. reflexivity.
    + intros ->. split; reflexivity.
    + exact Hneg.
Qed.

End PopenFacts.

Lemma normalise_key (ls : list string) (name key : string) (ws : list string) :
  normalise ls name = (Some key, ws) -> key ∉ excluded_names.
Proof.
  unfold normalise.
  destruct (String.prefix "_" name); [discriminate|].
  destruct (String.prefix "set_" name); [discriminate|].
  destruct (String.prefix "get_" name).
  - destruct (bool_decide (drop4 name ∈ ls)); simpl; [discriminate|].
    destruct (String.eqb (drop4 name) "getcwd").
    + destruct (bool_decide ("cwd"%string ∈ ls)); simpl; [discriminate|].
      destruct (bool_decide ("cwd"%string ∈ excluded_names)) eqn:E; [discriminate|].
      intros [= <- _]. apply bool_decide_eq_false in E. exact E.
    + simpl. destruct (bool_decide (drop4 name ∈ excluded_names)) eqn:E; [discriminate|].
      intros [= <- _]. apply bool_decide_eq_false in E. exact E.
  - simpl. destruct (String.eqb name "getcwd").
    + destruct (bool_decide ("cwd"%string ∈ ls)); simpl; [discriminate|].
      destruct (bool_decide ("cwd"%string ∈ excluded_names)) eqn:E; [discriminate|].
      intros [= <- _]. apply bool_decide_eq_false in E. exact E.
    + simpl. destruct (bool_decide (name ∈ excluded_names)) eqn:E; [discriminate|].
      intros [= <- _]. apply bool_decide_eq_false in E. exact E.
Qed.

Lemma normalise_plain (ls : list string) (name : string) :
  plain name -> normalise ls name = (Some name, []).
Proof.
  intros (H1 & H2 & H3 & H4 & H5). unfold normalise. rewrite H1, H2, H3. simpl.
  destruct (String.eqb name "getcwd") eqn:E; [apply String.eqb_eq in E; contradiction|].
  simpl. rewrite bool_decide_eq_false_2 by exact H5. reflexivity.
Qed.

Section AsDictFacts.

Context {W V : Type}.

Lemma as_dict_loop_spec (attr : string -> W -> reply V * W) (ls : list string)
    (given : bool) (adv : V) (todo : list string) :
  forall (d : gmap string V) (ws : list string) (w : W),
    let r := as_dict_loop attr ls given adv todo d ws w in
    fst r <> Raises (Exn AccessDenied)
    /\ (given = false -> fst r <> Raises NotImplementedError)
    /\ forall d' ws', fst r = Returns (d', ws') ->
         forall k, is_Some (d' !! k) ->
           is_Some (d !! k)
           \/ ((k ∉ excluded_names)
               /\ exists name, name ∈ todo /\ fst (normalise ls name) = Some k).
Proof.
  induction todo as [|name rest IH]; intros d ws w; cbv zeta.
  - simpl. split; [discriminate|]. split; [discriminate|].
    intros d' ws' [= <- <-] k Hk. left. exact Hk.
  - cbn [as_dict_loop].
    destruct (normalise ls name) as [[key|] nws] eqn:Hn.
    2:{ destruct (IH d (ws ++ nws) w) as (H1 & H2 & H3).
        split; [exact H1|]. split; [exact H2|].
        intros d' ws' Hr k Hk. destruct (H3 d' ws' Hr k Hk) as [Hl|(Hx & n & Hin & Hnn)].
        - left. exact Hl.
        - right. split; [exact Hx|]. exists n. split; [right; exact Hin|exact Hnn]. }
    assert (Hins : forall (v : V) (w1 : W),
               let r := as_dict_loop attr ls given adv rest (<[key := v]> d)
                          (ws ++ nws) w1 in
               fst r <> Raises (Exn AccessDenied)
               /\ (given = false -> fst r <> Raises NotImplementedError)
               /\ forall d' ws', fst r = Returns (d', ws') ->
                    forall k, is_Some (d' !! k) ->
                      is_Some (d !! k)
                      \/ ((k ∉ excluded_names)
                          /\ exists n, n ∈ name :: rest
                                       /\ fst (normalise ls n) = Some k)).
    { intros v w1. cbv zeta. destruct (IH (<[key := v]> d) (ws ++ nws) w1) as (H1 & H2 & H3).
      split; [exact H1|]. split; [exact H2|].
      intros d' ws' Hr k Hk. destruct (H3 d' ws' Hr k Hk) as [Hl|(Hx & n & Hin & Hnn)].
      - destruct (decide (k = key)) as [->|Hne].
        + right. split; [eapply normalise_key; exact Hn|].
          exists name. split; [left|rewrite Hn; reflexivity].
        + left. rewrite lookup_insert_ne in Hl by congruence. exact Hl.
      - right. split; [exact Hx|]. exists n. split; [right; exact Hin|exact Hnn]. }
    destruct (attr key w) as [[v|e] w1].
    + apply Hins.
    + destruct e as [e| |].
      * destruct e; try (simpl; split; [discriminate|]; split; [discriminate|];
                         intros d' ws' [=]; fail).
        apply Hins.
      * simpl. split; [discriminate|]. split; [discriminate|]. intros d' ws' [=].
      * destruct given.
        -- simpl. split; [discriminate|]. split; [discriminate|]. intros d' ws' [=].
        -- destruct (IH d (ws ++ nws) w1) as (H1 & H2 & H3).
           split; [exact H1|]. split; [exact H2|].
           intros d' ws' Hr k Hk.
           destruct (H3 d' ws' Hr k Hk) as [Hl|(Hx & n & Hin & Hnn)].
           ++ left. exact Hl.
           ++ right. split; [exact Hx|]. exists n. split; [right; exact Hin|exact Hnn].
Qed.

Lemma as_dict_loop_ext (attr attr' : string -> W -> reply V * W) (ls : list string)
    (given : bool) (adv : V) (todo : list string) :
  (forall n w, n ∉ excluded_names -> attr n w = attr' n w) ->
  forall (d : gmap string V) (ws : list string) (w : W),
    as_dict_loop attr ls given adv todo d ws w
    = as_dict_loop attr' ls given adv todo d ws w.
Proof.
  intros Hext. induction todo as [|name rest IH]; intros d ws w; [reflexivity|].
  cbn [as_dict_loop]. destruct (normalise ls name) as [[key|] nws] eqn:Hn; [|apply IH].
  rewrite <- (Hext key w) by (eapply normalise_key; exact Hn).
  destruct (attr key w) as [[v|e] w1]; [apply IH|].
  destruct e as [e| |]; [destruct e; try reflexivity; apply IH|reflexivity|].
  destruct given; [reflexivity|apply IH].
Qed.

(** X28.  [as_dict] never raises [AccessDenied], and without [attrs] it
    never raises [NotImplementedError]. *)
Theorem as_dict_errors (attr : string -> W -> reply V * W) (dir_self : list string)
    (set_order : list string -> list string) (attrs : list string) (ad_value : V)
    (w : W) :
  fst (as_dict attr dir_self set_order attrs ad_value w) <> Raises (Exn AccessDenied)
  /\ (attrs = [] ->
      fst (as_dict attr dir_self set_order attrs ad_value w)
      <> Raises NotImplementedError).
Proof.
  unfold as_dict.
  match goal with
  | |- context [as_dict_loop attr ?ls ?g ad_value ?ls ∅ [] w] =>
      destruct (as_dict_loop_spec attr ls g ad_value ls ∅ [] w) as (H1 & H2 & _)
  end.
  split; [exact H1|]. intros ->. apply H2. reflexivity.
Qed.

(** X29.  No key of the dict that [as_dict] returns is one of the
    excluded names, and the attributes of these names are never looked up:
    [as_dict] does the same for two objects whose attributes differ in the
    excluded names only. *)
Theorem as_dict_excluded (attr attr' : string -> W -> reply V * W)
    (dir_self : list string) (set_order : list string -> list string)
    (attrs : list string) (ad_value : V) (w : W) :
  (forall d ws, fst (as_dict attr dir_self set_order attrs ad_value w) = Returns (d, ws) ->
     forall k, is_Some (d !! k) -> k ∉ excluded_names)
  /\ ((forall n w0, n ∉ excluded_names -> attr n w0 = attr' n w0) ->
      as_dict attr dir_self set_order attrs ad_value w
      = as_dict attr' dir_self set_order attrs ad_value w).
Proof.
  split.
  - unfold as_dict. intros d ws Hr k Hk.
    match type of Hr with
    | context [as_dict_loop attr ?ls ?g ad_value ?ls ∅ [] w] =>
        destruct (as_dict_loop_spec attr ls g ad_value ls ∅ [] w) as (_ & _ & H3)
    end.
    destruct (H3 d ws Hr k Hk) as [Hl|[Hx _]]; [|exact Hx].
    rewrite lookup_empty in Hl. destruct Hl as [? [=]].
  - intros Hext. unfold as_dict. apply as_dict_loop_ext. exact Hext.
Qed.

Lemma as_dict_loop_plain (attr : string -> W -> reply V * W) (ls : list string)
    (given : bool) (adv : V) (todo : list string) :
  Forall plain todo ->
  (forall n w0, n ∈ todo ->
     (exists v, fst (attr n w0) = Returns v) \/ fst (attr n w0) = Raises (Exn AccessDenied)) ->
  forall (d : gmap string V) (ws : list string) (w : W),
    exists d' w',
      as_dict_loop attr ls given adv todo d ws w = (Returns (d', ws), w')
      /\ dom d' = dom d ∪ list_to_set todo
      /\ (forall k, k ∉ todo -> d' !! k = d !! k)
      /\ (forall k v, d' !! k = Some v -> k ∈ todo ->
            v = adv \/ exists w0, fst (attr k w0) = Returns v).
Proof.
  induction todo as [|name rest IH]; intros Hplain Hattr d ws w.
  - exists d, w. split; [reflexivity|].
    split; [simpl; rewrite (right_id_L ∅ (∪)); reflexivity|]. split; [auto|].
    intros k v _ Hk. inversion Hk.
  - apply Forall_cons in Hplain as [Hp Hplain]. cbn [as_dict_loop].
    rewrite (normalise_plain ls name Hp), app_nil_r.
    assert (Hrest : forall n w0, n ∈ rest ->
               (exists v, fst (attr n w0) = Returns v)
               \/ fst (attr n w0) = Raises (Exn AccessDenied)).
    { intros n w0 Hin. apply Hattr. right. exact Hin. }
    assert (Hins : forall (v : V) (w1 : W),
               (v = adv \/ exists w0, fst (attr name w0) = Returns v) ->
               exists d' w',
                 as_dict_loop attr ls given adv rest (<[name := v]> d) ws w1
                 = (Returns (d', ws), w')
                 /\ dom d' = dom d ∪ list_to_set (name :: rest)
                 /\ (forall k, k ∉ name :: rest -> d' !! k = d !! k)
                 /\ (forall k v0, d' !! k = Some v0 -> k ∈ name :: rest ->
                       v0 = adv \/ exists w0, fst (attr k w0) = Returns v0)).
    { intros v w1 Hv.
      destruct (IH Hplain Hrest (<[name := v]> d) ws w1) as (d' & w' & Hrun & Hdom & Hfr & Hval).
      exists d', w'. split; [exact Hrun|]. split.
      - rewrite Hdom, dom_insert_L. simpl.
        rewrite (comm_L (∪) {[name]} (dom d)), <- (assoc_L (∪)). reflexivity.
      - split.
        + intros k Hk. rewrite not_elem_of_cons in Hk. destruct Hk as [Hne Hk].
          rewrite (Hfr k Hk). apply lookup_insert_ne. congruence.
        + intros k v0 Hk Hin. destruct (decide (k ∈ rest)) as [Hr|Hr].
          * apply (Hval k v0 Hk Hr).
          * apply elem_of_cons in Hin as [->|Hin]; [|contradiction].
            rewrite (Hfr name Hr), lookup_insert_eq in Hk. injection Hk as <-. exact Hv. }
    destruct (Hattr name w ltac:(left)) as [[v Hv]|He].
    + destruct (attr name w) as [o w1] eqn:Ha. simpl in Hv. subst o.
      apply Hins. right. exists w. rewrite Ha. reflexivity.
    + destruct (attr name w) as [o w1] eqn:Ha. simpl in He. subst o.
      apply Hins. left. reflexivity.
Qed.

(** X30.  For [attrs] that are plain names whose attributes return a
    value or raise [AccessDenied], [as_dict] returns a dict whose keys are
    [attrs], in whatever order the set is iterated; a value is what the
    attribute has returned, or [ad_value]; nothing is warned about. *)
Theorem as_dict_plain_attrs (attr : string -> W -> reply V * W)
    (dir_self : list string) (set_order : list string -> list string)
    (attrs : list string) (ad_value : V) (w : W) :
  (forall l, set_order l ≡ₚ remove_dups l) ->
  attrs <> [] -> Forall plain attrs ->
  (forall n w0, n ∈ attrs ->
     (exists v, fst (attr n w0) = Returns v) \/ fst (attr n w0) = Raises (Exn AccessDenied)) ->
  exists d w',
    as_dict attr dir_self set_order attrs ad_value w = (Returns (d, []), w')
    /\ dom d = list_to_set attrs
    /\ forall k v, d !! k = Some v ->
         v = ad_value \/ exists w0, fst (attr k w0) = Returns v.
Proof.
  intros Hord Hne Hplain Hattr. unfold as_dict.
  destruct attrs as [|a attrs]; [contradiction|].
  set (ls := set_order (a :: attrs)).
  assert (Hin : forall n, n ∈ ls <-> n ∈ a :: attrs).
  { intros n. unfold ls. rewrite (Hord (a :: attrs)). apply elem_of_remove_dups. }
  destruct (as_dict_loop_plain attr ls true ad_value ls) with (d := (∅ : gmap string V))
    (ws := @nil string) (w := w) as (d & w' & Hrun & Hdom & _ & Hval).
  - apply Forall_forall. intros n Hn. rewrite Forall_forall in Hplain.
    apply Hplain, Hin, Hn.
  - intros n w0 Hn. apply Hattr, Hin, Hn.
  - exists d, w'. split; [exact Hrun|]. split.
    + rewrite Hdom, dom_empty_L, (left_id_L ∅ (∪)).
      apply set_eq. intros n. rewrite !elem_of_list_to_set. apply Hin.
    + intros k v Hk. apply (Hval k v Hk).
      assert (Hd : k ∈ dom d) by (apply elem_of_dom; eauto).
      rewrite Hdom, dom_empty_L, (left_id_L ∅ (∪)), elem_of_list_to_set in Hd. exact Hd.
Qed.

End AsDictFacts.

(** ** The properties at work *)

Lemma is_running_answer_witness :
  let P := Scripted.platform Scripted.recycled in
  let s := snd (Process_ 7 (Scripted.start Scripted.recycled)) in
  (0 < next_ref s)%nat /\ 0 <= _pid (heap s 0%nat) /\
  _gone (heap s 0%nat) = false /\
  _ident (heap s 0%nat) = Some (_pid (heap s 0%nat), Some 100%Q) /\
  fst (proc_create_time 7 (world s)) = Ok 200%Q /\
  fst (is_running 0%nat s) = Ok (Qeq_bool 100 200).
Proof.
  intros P s.
  assert (H1 : (0 < next_ref s)%nat) by (vm_compute; lia).
  assert (H2 : 0 <= _pid (heap s 0%nat)) by (vm_compute; discriminate).
  assert (H3 : _gone (heap s 0%nat) = false) by reflexivity.
  assert (H4 : _ident (heap s 0%nat) = Some (_pid (heap s 0%nat), Some 100%Q))
    by reflexivity.
  split; [exact H1|]. split; [exact H2|]. split; [exact H3|]. split; [exact H4|].
  split; [reflexivity|].
  exact (proj1 (proj2 (proj2 (proj2 (is_running_answer (P := P) 0%nat 100%Q s
                                       H1 H2 H3 H4))))).
Defined.

Lemma guarded_methods_refuse_witness :
  let P := Scripted.platform Scripted.recycled in
  let s := snd (Process_ 7 (Scripted.start Scripted.recycled)) in
  let s' := snd (is_running 0%nat s) in
  (0 < next_ref s)%nat /\ is_running 0%nat s = (Ok false, s') /\
  kill 0%nat s = (Raise (NoSuchProcess 7), s') /\
  children 0%nat true s = (Raise (NoSuchProcess 7), s') /\
  log s' = log s.
Proof.
  intros P s s'.
  assert (Hlt : (0 < next_ref s)%nat) by (vm_compute; lia).
  assert (Hrun : is_running 0%nat s = (Ok false, s')) by (vm_compute; reflexivity).
  destruct (guarded_methods_refuse (P := P) 0%nat s s' Hlt Hrun)
    as (Hlog & _ & _ & _ & _ & Hkill & Hch & _).
  split; [exact Hlt|]. split; [exact Hrun|]. split; [exact Hkill|].
  split; [exact (Hch true)|exact Hlog].
Defined.

Lemma control_methods_act_once_witness :
  let P := Scripted.platform Scripted.steady in
  let s := snd (Process_ 5 (Scripted.start Scripted.steady)) in
  let s1 := snd (is_running 0%nat s) in
  is_running 0%nat s = (Ok true, s1) /\
  log (snd (kill 0%nat s)) = log s ++ [EvAct (OsKill 5 SIGKILL)] /\
  log (snd (suspend 0%nat s)) = log s ++ [EvAct (OsKill 5 SIGSTOP)].
Proof.
  intros P s s1.
  assert (Hrun : is_running 0%nat s = (Ok true, s1)) by (vm_compute; reflexivity).
  destruct (control_methods_act_once (P := P) 0%nat s s1 Hrun)
    as (Hkill & _ & Hsusp & _).
  split; [exact Hrun|]. split; [exact Hkill|exact Hsusp].
Defined.

Lemma signal_errors_witness :
  let P := Scripted.platform Scenes.deaf in
  let s := snd (Process_ 7 (Scripted.start Scenes.deaf)) in
  let s1 := snd (is_running 0%nat s) in
  _POSIX = true /\ is_running 0%nat s = (Ok true, s1) /\
  plat_act (OsKill 7 SIGKILL) (world s1) = (Raise (OSError ESRCH), S (world s1)) /\
  exists s2,
    send_signal 0%nat SIGKILL s = (Raise (NoSuchProcess 7), s2)
    /\ is_running 0%nat s2 = (Ok false, s2)
    /\ forall sig', send_signal 0%nat sig' s2 = (Raise (NoSuchProcess 7), s2).
Proof.
  intros P s s1.
  assert (Hposix : _POSIX = true) by reflexivity.
  assert (Hrun : is_running 0%nat s = (Ok true, s1)) by (vm_compute; reflexivity).
  assert (Hact : plat_act (OsKill 7 SIGKILL) (world s1)
                 = (Raise (OSError ESRCH), S (world s1))) by reflexivity.
  split; [exact Hposix|]. split; [exact Hrun|]. split; [exact Hact|].
  exact (proj1 (signal_errors (P := P) 0%nat SIGKILL s s1 (S (world s1)) Hposix Hrun) Hact).
Defined.

Lemma parent_is_not_younger_witness :
  let P := Scripted.platform Scripted.family in
  let s := snd (Process_ 2 (Scripted.start Scripted.family)) in
  let s' := snd (parent 0%nat s) in
  parent 0%nat s = (Ok (Some 1%nat), s') /\
  _pid (heap s' 1%nat) = 1 /\
  not_older s' 1%nat 0%nat.
Proof.
  intros P s s'.
  assert (Hrun : parent 0%nat s = (Ok (Some 1%nat), s')) by (vm_compute; reflexivity).
  split; [exact Hrun|]. split; [vm_compute; reflexivity|].
  exact (proj2 (proj1 (parent_is_not_younger (P := P) 0%nat s s') 1%nat Hrun)).
Defined.

Lemma create_time_is_cached_witness :
  let P := Scripted.platform Scripted.steady in
  let s := snd (Process_ 5 (Scripted.start Scripted.steady)) in
  create_time 0%nat s = (Ok 5%Q, s) /\
  forall s'', keeps_create_times s s'' -> create_time 0%nat s'' = (Ok 5%Q, s'').
Proof.
  intros P s.
  assert (Hrun : create_time 0%nat s = (Ok 5%Q, s)) by (vm_compute; reflexivity).
  split; [exact Hrun|].
  exact (proj1 (create_time_is_cached (P := P) 0%nat s s) 5%Q Hrun).
Defined.

Lemma process_iter_cache_witness :
  let P := Scripted.platform Scripted.steady in
  let s := Scripted.start Scripted.steady in
  let s' := snd (process_iter s) in
  process_iter s = (Ok [0; 1; 2]%nat, s') /\
  [0; 1; 2]%nat = omap (fun k => _pmap s' !! k) (sorted_pids [5; 9; 3]) /\
  (forall k, k ∉ [5; 9; 3] -> _pmap s' !! k = None).
Proof.
  intros P s s'.
  assert (Hrun : process_iter s = (Ok [0; 1; 2]%nat, s')) by (vm_compute; reflexivity).
  destruct (process_iter_cache (P := P) s s' _ Hrun) as (H1 & H2 & _).
  split; [exact Hrun|]. split; [exact H1|exact H2].
Defined.

Lemma process_iter_AccessDenied_witness :
  let P := Scripted.platform Scenes.denied in
  let s := snd (Process_ 7 (Scripted.start Scenes.denied)) in
  (0 < next_ref s)%nat /\ _pid (heap s 0%nat) = 7 /\
  _gone (heap s 0%nat) = false /\ _ident (heap s 0%nat) = Some (7, Some 100%Q) /\
  fst (proc_create_time 7 (world s)) = Raise AccessDenied /\
  exists s',
    process_iter_step (7, Some 0%nat) s = (Ok (Some 2%nat), s')
    /\ _pmap s' = <[7 := 2%nat]> (_pmap s)
    /\ heap s' 2%nat = new_process 7 None false.
Proof.
  intros P s.
  assert (H1 : (0 < next_ref s)%nat) by (vm_compute; lia).
  assert (H2 : _pid (heap s 0%nat) = 7) by reflexivity.
  assert (H3 : _gone (heap s 0%nat) = false) by reflexivity.
  assert (H4 : _ident (heap s 0%nat) = Some (7, Some 100%Q)) by reflexivity.
  assert (H5 : fst (proc_create_time 7 (world s)) = Raise AccessDenied) by reflexivity.
  assert (H6 : fst (proc_create_time 7 (snd (proc_create_time 7 (world s))))
               = Raise AccessDenied) by reflexivity.
  split; [exact H1|]. split; [exact H2|]. split; [exact H3|]. split; [exact H4|].
  split; [exact H5|].
  destruct (proj2 (process_iter_AccessDenied (P := P) 7 0%nat 100%Q s)
              H1 H2 ltac:(lia) H3 H4 H5 H6) as (s' & Hs & _ & Hpm & Hh & _).
  exists s'. split; [exact Hs|]. split; [exact Hpm|exact Hh].
Defined.

Lemma wait_procs_no_timeout_witness :
  let P := Scripted.platform Scripted.exited in
  let s := snd (Process_ 7 (Scripted.start Scripted.exited)) in
  let s' := snd (wait_procs 5 [0]%nat None None s) in
  allocated s [0]%nat /\
  wait_procs 5 [0]%nat None None s = (Ok (Some ([0]%nat, [])), s') /\
  [0]%nat ≡ₚ set_of_list (heap s) [0]%nat.
Proof.
  intros P s s'.
  assert (Hal : allocated s [0]%nat).
  { unfold allocated. apply Forall_cons. split; [vm_compute; lia|].
    apply Forall_nil. exact I. }
  assert (Hrun : wait_procs 5 [0]%nat None None s = (Ok (Some ([0]%nat, [])), s'))
    by (vm_compute; reflexivity).
  split; [exact Hal|]. split; [exact Hrun|].
  exact (proj1 (proj2 (wait_procs_no_timeout (P := P) 5 [0]%nat None s s' [0]%nat []
                          Hal Hrun))).
Defined.



Lemma per_cpu_percent_lengths_witness :
  let P := Scripted.platform Scenes.hotplug in
  let s := Scripted.start Scenes.hotplug in
  let s' := snd (system_cpu_percent None true s) in
  system_cpu_percent None true s = (Ok (PerCpu [50; 50]%Q), s') /\
  length (_last_per_cpu_times s) = 2%nat /\ length (_last_per_cpu_times s') = 3%nat /\
  exists tot1,
    (is_blocking None = false -> tot1 = _last_per_cpu_times s)
    /\ length [50; 50]%Q = Nat.min (length tot1) (length (_last_per_cpu_times s')).
Proof.
  intros P s s'.
  assert (Hrun : system_cpu_percent None true s = (Ok (PerCpu [50; 50]%Q), s'))
    by (vm_compute; reflexivity).
  split; [exact Hrun|]. split; [reflexivity|]. split; [reflexivity|].
  destruct (per_cpu_percent_lengths (P := P) None s s' _ Hrun) as (tot1 & Ha & Hb & _).
  exists tot1. split; [exact Ha|exact Hb].
Defined.

Lemma cpu_percent_second_call_witness :
  let P := Scripted.platform Scripted.steady in
  let s := snd (Process_ 5 (Scripted.start Scripted.steady)) in
  let s1 := snd (cpu_percent 0%nat None s) in
  cpu_percent 0%nat None s = (Ok 0%Q, s1) /\
  exists (st1 : Q) (pt1 : pcputimes),
    _last_sys_cpu_times (heap s1 0%nat) = Some st1 /\
    _last_proc_cpu_times (heap s1 0%nat) = Some pt1.
Proof.
  intros P s s1.
  assert (Hrun : cpu_percent 0%nat None s = (Ok 0%Q, s1)) by (vm_compute; reflexivity).
  split; [exact Hrun|].
  destruct (cpu_percent_second_call (P := P) 0%nat None s s1 0%Q Hrun)
    as (st1 & pt1 & Ha & Hb & _).
  exists st1, pt1. split; [exact Ha|exact Hb].
Defined.

Lemma children_direct_witness :
  let P := Scripted.platform Scripted.family in
  let s := snd (Process_ 1 (Scripted.start Scripted.family)) in
  let s' := snd (children 0%nat false s) in
  (0 < next_ref s)%nat /\ pmap_wf s /\
  children 0%nat false s = (Ok (Some [3]%nat), s') /\
  _pid (heap s' 3%nat) = 2 /\
  forall c, c ∈ [3]%nat -> not_older s' 0%nat c.
Proof.
  intros P s s'.
  assert (Hlt : (0 < next_ref s)%nat) by (vm_compute; lia).
  assert (Hwf : pmap_wf s).
  { intros k r Hk. assert (Hpm : _pmap s = ∅) by reflexivity.
    rewrite Hpm, lookup_empty in Hk. discriminate. }
  assert (Hrun : children 0%nat false s = (Ok (Some [3]%nat), s'))
    by (vm_compute; reflexivity).
  split; [exact Hlt|]. split; [exact Hwf|]. split; [exact Hrun|].
  split; [vm_compute; reflexivity|].
  exact (children_direct (P := P) 0%nat s s' _ Hlt Hwf Hrun).
Defined.

Lemma name_starts_with_platform_name_witness :
  let P := Scripted.platform Scripted.steady in
  let HW := Scenes.host Scenes.desktop in
  let self := mkAttrs 7 None None in
  let n := "gnome-keyring-daemon"%string in
  _name self = None /\
  name self 0%nat = (Ok n, set_name (Some n) self, 2%nat) /\
  exists kname w1,
    proc_name 7 0%nat = (Ok kname, w1) /\ String.prefix kname n = true.
Proof.
  intros P HW self n.
  assert (Hn : _name self = None) by reflexivity.
  assert (Hrun : name self 0%nat = (Ok n, set_name (Some n) self, 2%nat))
    by (vm_compute; reflexivity).
  split; [exact Hn|]. split; [exact Hrun|].
  destruct (name_starts_with_platform_name (P := P) (HW := HW) self _ 0%nat _ n Hn Hrun)
    as (kname & w1 & Ha & Hb & _).
  exists kname, w1. split; [exact Ha|exact Hb].
Defined.

Lemma name_is_cached_witness :
  let P := Scripted.platform Scripted.steady in
  let HW := Scenes.host Scenes.desktop in
  let self := mkAttrs 7 None None in
  let n := "gnome-keyring-daemon"%string in
  name self 0%nat = (Ok n, set_name (Some n) self, 2%nat) /\
  forall w2, name (set_name (Some n) self) w2 = (Ok n, set_name (Some n) self, w2).
Proof.
  intros P HW self n.
  assert (Hrun : name self 0%nat = (Ok n, set_name (Some n) self, 2%nat))
    by (vm_compute; reflexivity).
  split; [exact Hrun|].
  exact (proj1 (name_is_cached (P := P) (HW := HW) self _ 0%nat _ n Hrun)).
Defined.

Lemma exe_result_witness :
  let HW := Scenes.host Scenes.desktop in
  let self := mkAttrs 7 None None in
  let e := "/usr/bin/gnome-keyring-daemon"%string in
  _exe self = None /\
  exe self 0%nat = (Ok e, self, 4%nat) /\
  ((fst (proc_exe 7 0%nat) = Ok e /\ self = set_exe (Some e) self)
   \/ ((fst (proc_exe 7 0%nat) = Ok ""%string
        \/ fst (proc_exe 7 0%nat) = Raise AccessDenied)
       /\ os_has_access = true /\ os_path_isabs e = true
       /\ exists rest w1 w2,
            proc_cmdline 7 w1 = (Ok (e :: rest), w2)
            /\ fst (os_path_isfile e w2) = true
            /\ fst (os_access_X_OK e (snd (os_path_isfile e w2))) = true)).
Proof.
  intros HW self e.
  assert (Hn : _exe self = None) by reflexivity.
  assert (Hrun : exe self 0%nat = (Ok e, self, 4%nat)) by (vm_compute; reflexivity).
  split; [exact Hn|]. split; [exact Hrun|].
  exact (exe_result (HW := HW) self self 0%nat 4%nat e Hn Hrun).
Defined.

Lemma exe_AccessDenied_not_cached_witness :
  let HW := Scenes.host Scenes.desktop in
  let self := mkAttrs 7 None None in
  let e := "/usr/bin/gnome-keyring-daemon"%string in
  _exe self = None /\
  proc_exe 7 0%nat = (Raise AccessDenied, 1%nat) /\
  exe self 0%nat = (Ok e, self, 4%nat) /\
  (Ok e, 4%nat) = guess_it self FallbackError 1%nat.
Proof.
  intros HW self e.
  assert (Hn : _exe self = None) by reflexivity.
  assert (Hexe : proc_exe 7 0%nat = (Raise AccessDenied, 1%nat)) by reflexivity.
  assert (Hrun : exe self 0%nat = (Ok e, self, 4%nat)) by (vm_compute; reflexivity).
  split; [exact Hn|]. split; [exact Hexe|]. split; [exact Hrun|].
  exact (proj1 (proj2 (exe_AccessDenied_not_cached (HW := HW) self self
                          0%nat 1%nat 4%nat (Ok e) Hn Hexe Hrun))).
Defined.

Lemma memory_percent_value_witness :
  let HW := Scenes.host Scenes.desktop in
  memory_percent 7 None 0%nat = (Ok (25000 # 1000)%Q, Some 1000, 2%nat) /\
  (0 <= 250 <= 1000 -> forall v, Ok (25000 # 1000)%Q = Ok v -> (0 <= v <= 100)%Q).
Proof.
  intros HW.
  assert (Hrun : memory_percent 7 None 0%nat = (Ok (25000 # 1000)%Q, Some 1000, 2%nat))
    by (vm_compute; reflexivity).
  split; [exact Hrun|].
  pose proof (memory_percent_value (HW := HW) 7 None (Some 1000) 0%nat 2%nat
                (Ok (25000 # 1000)%Q) Hrun) as H.
  simpl in H. destruct H as (t & (Ht & _) & _ & Hrange). subst t. exact Hrange.
Defined.

Lemma memory_maps_grouped_witness :
  let HW := Scenes.host Scenes.desktop in
  let it := [mkRegion "00400000-00406000" "r-xp" "/usr/bin/gnome-keyring-daemon" [24; 24];
             mkRegion "7f000000-7f1b0000" "r-xp" "/lib/libc.so.6" [1000; 1700];
             mkRegion "7f3b0000-7f3b4000" "rw-p" "/lib/libc.so.6" [16; 16]]%string in
  proc_memory_maps 7 0%nat = (Ok it, 1%nat) /\
  Forall (fun r => length (m_nums r) = 2%nat) it /\
  path_total "/lib/libc.so.6" 0 it = 1016 /\
  exists l,
    memory_maps 7 true 0%nat = (Ok (Grouped l), 1%nat)
    /\ NoDup l.*1
    /\ (forall p v, (p, v) ∈ l ->
          length v = 2%nat /\ forall i, nth i v 0 = path_total p i it).
Proof.
  intros HW it.
  assert (Hm : proc_memory_maps 7 0%nat = (Ok it, 1%nat)) by reflexivity.
  assert (Hit : Forall (fun r => length (m_nums r) = 2%nat) it).
  { repeat (apply Forall_cons; split; [reflexivity|]). apply Forall_nil. exact I. }
  split; [exact Hm|]. split; [exact Hit|]. split; [reflexivity|].
  destruct (proj2 (memory_maps_grouped (HW := HW) 7 0%nat 1%nat it 2 Hm Hit))
    as (l & Ha & Hb & _ & Hc).
  exists l. split; [exact Ha|]. split; [exact Hb|exact Hc].
Defined.

Lemma disk_io_counters_total_witness :
  let HW := Scenes.host Scenes.desktop in
  let raw := fst (plat_disk_io_counters 0%nat) in
  raw <> ∅ /\ (forall k row, raw !! k = Some row -> length row = 6%nat) /\
  exists t per,
    fst (disk_io_counters false 0%nat) = Returns (Summed t)
    /\ fst (disk_io_counters true 0%nat) = Returns (PerKey per)
    /\ dom per = dom raw
    /\ read_count t = total_of read_count per.
Proof.
  intros HW raw.
  assert (Hne : raw <> ∅).
  { intros He. assert (Hl : raw !! "sda"%string = Some [10; 20; 4096; 8192; 5; 7])
      by (vm_compute; reflexivity).
    rewrite He, lookup_empty in Hl. discriminate. }
  assert (Hlen : forall k row, raw !! k = Some row -> length row = 6%nat).
  { intros k row. unfold raw. simpl.
    destruct (decide (k = "sda"%string)) as [->|H1].
    - rewrite lookup_insert_eq. intros [= <-]. reflexivity.
    - rewrite lookup_insert_ne by congruence.
      destruct (decide (k = "sdb"%string)) as [->|H2].
      + rewrite lookup_singleton_eq. intros [= <-]. reflexivity.
      + rewrite lookup_singleton_ne by congruence. discriminate. }
  split; [exact Hne|]. split; [exact Hlen|].
  destruct (proj2 (disk_io_counters_total (HW := HW) 0%nat) Hne Hlen)
    as (t & per & Ha & Hb & Hc & Hd & _).
  exists t, per. split; [exact Ha|]. split; [exact Hb|]. split; [exact Hc|exact Hd].
Defined.

Lemma net_io_counters_total_witness :
  let HW := Scenes.host Scenes.desktop in
  let raw := fst (plat_net_io_counters 0%nat) in
  raw <> ∅ /\ (forall k row, raw !! k = Some row -> length row = 8%nat) /\
  exists t per,
    fst (net_io_counters false 0%nat) = Returns (Summed t)
    /\ fst (net_io_counters true 0%nat) = Returns (PerKey per)
    /\ dom per = dom raw
    /\ bytes_sent t = total_of bytes_sent per.
Proof.
  intros HW raw.
  assert (Hne : raw <> ∅).
  { intros He. assert (Hl : raw !! "lo"%string = Some [10; 10; 1; 1; 0; 0; 0; 0])
      by (vm_compute; reflexivity).
    rewrite He, lookup_empty in Hl. discriminate. }
  assert (Hlen : forall k row, raw !! k = Some row -> length row = 8%nat).
  { intros k row. unfold raw. simpl.
    destruct (decide (k = "eth0"%string)) as [->|H1].
    - rewrite lookup_insert_eq. intros [= <-]. reflexivity.
    - rewrite lookup_insert_ne by congruence.
      destruct (decide (k = "lo"%string)) as [->|H2].
      + rewrite lookup_singleton_eq. intros [= <-]. reflexivity.
      + rewrite lookup_singleton_ne by congruence. discriminate. }
  split; [exact Hne|]. split; [exact Hlen|].
  destruct (proj2 (net_io_counters_total (HW := HW) 0%nat) Hne Hlen)
    as (t & per & Ha & Hb & Hc & Hd & _).
  exists t, per. split; [exact Ha|]. split; [exact Hb|]. split; [exact Hc|exact Hd].
Defined.

Lemma Popen_of_vanished_witness :
  let P := Scripted.platform Scripted.quiet in
  let s := Scripted.start Scripted.quiet in
  0 <= 7 /\
  fst (proc_create_time 7 (world s)) = Raise (NoSuchProcess 7) /\
  exists self s',
    Popen_ 7 s = (Ok self, s')
    /\ fst (Process_ 7 s) = Raise (NoSuchProcess 7)
    /\ is_running self s' = (Ok false, s')
    /\ kill self s' = (Raise (NoSuchProcess 7), s').
Proof.
  intros P s.
  assert (H0 : 0 <= 7) by lia.
  assert (Hct : fst (proc_create_time 7 (world s)) = Raise (NoSuchProcess 7))
    by reflexivity.
  split; [exact H0|]. split; [exact Hct|].
  destruct (Popen_of_vanished (P := P) 7 7 s H0 Hct)
    as (self & s' & Ha & Hb & _ & Hc & _ & _ & Hd).
  exists self, s'. split; [exact Ha|]. split; [exact Hb|]. split; [exact Hc|exact Hd].
Defined.

Lemma Popen_wait_cached_witness :
  let P := Scripted.platform Scripted.exited in
  let s := snd (Popen_ 7 (Scripted.start Scripted.exited)) in
  let s' := snd (Popen_wait 0%nat None None s) in
  Popen_wait 0%nat None None s = (Ok (Some 0, Some 0), s') /\
  forall timeout' s2,
    Popen_wait 0%nat (Some 0) timeout' s2 = (Ok (Some 0, Some 0), s2).
Proof.
  intros P s s'.
  assert (Hrun : Popen_wait 0%nat None None s = (Ok (Some 0, Some 0), s'))
    by (vm_compute; reflexivity).
  split; [exact Hrun|].
  exact (proj1 (proj2 (Popen_wait_cached (P := P) 0%nat None (Some 0) None s s' (Some 0)
                          Hrun)) 0 eq_refl).
Defined.

Lemma as_dict_plain_attrs_witness :
  let attr := fun (n : string) (w : nat) =>
                if String.eqb n "pid" then (Returns 7, S w)
                else (Raises (Exn AccessDenied), S w) in
  let attrs := ["pid"; "name"]%string in
  (forall l : list string, remove_dups l ≡ₚ remove_dups l) /\
  attrs <> [] /\ Forall plain attrs /\
  exists d w',
    as_dict attr [] remove_dups attrs (-1) 0%nat = (Returns (d, []), w')
    /\ dom d = list_to_set attrs.
Proof.
  intros attr attrs.
  assert (H1 : forall l : list string, remove_dups l ≡ₚ remove_dups l) by reflexivity.
  assert (H2 : attrs <> []) by discriminate.
  assert (Hx : forall n : string,
             bool_decide (n ∈ excluded_names) = false -> n ∉ excluded_names).
  { intros n Hb. apply bool_decide_eq_false in Hb. exact Hb. }
  assert (H3 : Forall plain attrs).
  { apply Forall_cons. split.
    - repeat split; try reflexivity; [discriminate|]. apply Hx. vm_compute. reflexivity.
    - apply Forall_cons. split; [|apply Forall_nil; exact I].
      repeat split; try reflexivity; [discriminate|]. apply Hx. vm_compute. reflexivity. }
  assert (H4 : forall (n : string) (w0 : nat), n ∈ attrs ->
             (exists v, fst (attr n w0) = Returns v)
             \/ fst (attr n w0) = Raises (Exn AccessDenied)).
  { intros n w0 _. unfold attr. destruct (String.eqb n "pid"); [left; eauto|right; reflexivity]. }
  split; [exact H1|]. split; [exact H2|]. split; [exact H3|].
  destruct (as_dict_plain_attrs attr [] remove_dups attrs (-1) 0%nat H1 H2 H3 H4)
    as (d & w' & Ha & Hb & _).
  exists d, w'. split; [exact Ha|exact Hb].
Defined.
